(** * MITK segmentation editing: paintbrush contour and slice interpolation

    A shallow embedding of
    - [Modules/Segmentation/Interactions/mitkPaintbrushTool.cpp]
      (brush contour rasterisation, stroke handling, paint-value inversion),
    - [Modules/SegmentationUI/Qmitk/QmitkSlicesInterpolator.cpp]
      (2-D interpolation, accept and accept-all with undo records, slice
      events, the spacing range of the working image),
    - [Core/Code/IO/mitkFileWriterManager.cpp]
      (the choice of a file writer by extension and options),
    together with the properties stated about them.

    Conventions.  C++ [int] values are [Z] (the brush size is halved and
    compared, the paint value toggled: nothing leaves the 32-bit range);
    the [unsigned] slice counters never exceed the number of slices and are
    [nat]; the one counter that can wrap, a [std::atomic_uint], has its
    wrap-around written out.  [double] and [float] coordinates are
    idealised as rationals [Q]: every coordinate the contour builder
    computes is an integer or a half-integer, which both floating types
    represent exactly; the squared distances it compares are rounded by
    the code and exact here, which makes no difference to the march up to
    brush size 4103.  Null pointers are [None].  External collaborators
    (geometry, the interpolation controller, the polygon filler) are
    section variables. *)

From Stdlib Require Import ZArith QArith Qabs Qround Lia Lqa Ascii.
From stdpp Require Import base option list gmap strings.

Local Open Scope Z_scope.
Set Implicit Arguments.

(* ===================================================================== *)
(** ** Points and contours *)
(* ===================================================================== *)

Definition Point2D : Type := Q * Q.
Definition Point3D : Type := Q * Q * Q.

Definition p3x (p : Point3D) : Q := fst (fst p).
Definition p3y (p : Point3D) : Q := snd (fst p).
Definition p3z (p : Point3D) : Q := snd p.

(** The ordered vertices of a contour ([ContourModel::VertexListType]). *)
Definition VertexListType : Type := list Point3D.

(** [mitk::ContourModel], as far as the tool uses it: the ordered vertices
    and the closed flag.  A closed contour is the polygon through its
    vertices, the last one joined to the first. *)
Record ContourModel : Type := mkContourModel {
  vertexList : VertexListType;
  IsClosed : bool
}.

(** [contour->SetClosed(isClosed)]. *)
Definition SetClosed (isClosed : bool) (contour : ContourModel) : ContourModel :=
  mkContourModel (vertexList contour) isClosed.

(** [a < b] on rationals, as a boolean. *)
Definition Qlt_bool (a b : Q) : bool := negb (Qle_bool b a).

(** [sqrt(q) > r] for [q >= 0], decided without taking the root:
    [const float len = sqrt(...); if (len > fradius)].  This is the exact
    comparison.  The code rounds: each square is stored in a [float], the
    two are added in [float], and the root is a [float].  In the contour
    builder [q] is a multiple of 1/4 and [r] a multiple of 1/2, and up to
    brush size 4103 the rounded root compares with [r] as the exact one
    does at every step of the march.  From size 4104 on the rounded sum
    can move a turn of the march by a pixel, and the march of the code is
    no longer the march of this model. *)
Definition sqrt_gt (q r : Q) : bool :=
  if Qle_bool 0 r then Qlt_bool (r * r) q else true.

(** [len <= fradius]. *)
Definition sqrt_le (q r : Q) : bool := negb (sqrt_gt q r).

Module PaintbrushContour.

(** [PaintbrushTool::upperLeft]. *)
Definition upperLeft (p : Point2D) : Point2D :=
  (fst p - (1 # 2), snd p + (1 # 2))%Q.

(** The local variables of the marching loops of [UpdateContour]. *)
Record March : Type := mkMarch {
  curPoint : Point2D;
  curPointIsInside : bool;
  curPointX_squared : Q;
  curPointY_squared : Q;
  quarterCycleUpperRight : list Point2D
}.

Section Marching.
(** [centerCorrection] has equal components, [cc]; [fradius] is
    [static_cast<float>(m_Size) / 2.0f]. *)
Variables (cc fradius : Q).

Definition sq (a : Q) : Q := (a * a)%Q.

(** [while (curPointIsInside) { curPoint[0]++; ... }] *)
Fixpoint moveRight (fuel : nat) (m : March) : option March :=
  if curPointIsInside m then
    match fuel with
    | O => None
    | S fuel' =>
        let x := (fst (curPoint m) + 1)%Q in
        let xsq := sq (x - cc) in
        let inside := if sqrt_gt (xsq + curPointY_squared m) fradius
                      then false else curPointIsInside m in
        moveRight fuel' (mkMarch (x, snd (curPoint m)) inside xsq
                                 (curPointY_squared m) (quarterCycleUpperRight m))
    end
  else Some m.

(** [while (!curPointIsInside) { curPoint[1]--; ...; if (curPoint[1] <= 0) break; }] *)
Fixpoint moveDown (fuel : nat) (m : March) : option March :=
  if curPointIsInside m then Some m
  else
    match fuel with
    | O => None
    | S fuel' =>
        let y := (snd (curPoint m) - 1)%Q in
        let ysq := sq (y - cc) in
        let p := (fst (curPoint m), y) in
        let m' :=
          if sqrt_le (curPointX_squared m + ysq) fradius
          then mkMarch p true (curPointX_squared m) ysq
                       (quarterCycleUpperRight m ++ [upperLeft p])
          else mkMarch p false (curPointX_squared m) ysq
                       (quarterCycleUpperRight m) in
        if Qle_bool (snd (curPoint m')) 0 then Some m'
        else moveDown fuel' m'
    end.

(** [while (curPoint[1] > 0) { ... }]; every loop gets the same [fuel]. *)
Fixpoint quarterLoop (fuel n : nat) (m : March) : option March :=
  if Qlt_bool 0 (snd (curPoint m)) then
    match n with
    | O => None
    | S n' =>
        let m0 := mkMarch (curPoint m) (curPointIsInside m) 0
                          (sq (snd (curPoint m) - cc)) (quarterCycleUpperRight m) in
        m1 ← moveRight fuel m0;
        let m2 := mkMarch (curPoint m1) (curPointIsInside m1)
                          (curPointX_squared m1) (curPointY_squared m1)
                          (quarterCycleUpperRight m1 ++ [upperLeft (curPoint m1)]) in
        m3 ← moveDown fuel m2;
        quarterLoop fuel n' m3
    end
  else Some m.
End Marching.

(** Copies of one quarter-cycle point into the other three quadrants. *)
Definition lowerRight (evenSize : bool) (p : Point2D) : Point2D :=
  if evenSize then (fst p, snd p * -1 + 1)%Q else (fst p, snd p * -1)%Q.
Definition lowerLeft (evenSize : bool) (p : Point2D) : Point2D :=
  if evenSize then (-1 * fst p + 1, -1 * snd p + 1)%Q
  else (fst p * -1, snd p * -1)%Q.
Definition upperLeftQuadrant (evenSize : bool) (p : Point2D) : Point2D :=
  if evenSize then (fst p * -1 + 1, snd p)%Q
  else (fst p * -1, snd p * -1 * -1)%Q.

Definition vertex (p : Point2D) : Point3D := (fst p, snd p, 0%Q).

(** The four quarter cycles in contour order: upper right, lower right
    reversed, lower left, upper left reversed. *)
Definition assemble (evenSize : bool) (ur : list Point2D) : VertexListType :=
  (vertex <$> ur)
  ++ (vertex <$> reverse (lowerRight evenSize <$> ur))
  ++ (vertex <$> (lowerLeft evenSize <$> ur))
  ++ (vertex <$> reverse (upperLeftQuadrant evenSize <$> ur)).

Definition radius_of (size : Z) : Z := Z.quot size 2.
(** [static_cast<float>(m_Size) / 2.0f], exact while [m_Size] has at most
    24 significant bits; a larger size is rounded by the cast. *)
Definition fradius_of (size : Z) : Q := (inject_Z size / 2)%Q.
(** The largest brush size for which the marching loops of the code,
    which compare in [float], take the turns that exact arithmetic takes. *)
Definition exactMarchMaxSize : Z := 4103.
Definition evenSize_of (size : Z) : bool := Z.rem size 2 =? 0.
Definition centerCorrection_of (size : Z) : Q :=
  if evenSize_of size then (0 + (1 # 2))%Q else 0%Q.
Definition loopFuel (size : Z) : nat := Z.to_nat (Z.abs size) + 2.

(** The quarter cycle computed by the body of [UpdateContour]. *)
Definition quarterCycle (size : Z) : option (list Point2D) :=
  let start : Point2D := (0%Q, inject_Z (radius_of size)) in
  let m := mkMarch start true 0 0 [upperLeft start] in
  quarterCycleUpperRight <$>
    quarterLoop (centerCorrection_of size) (fradius_of size)
                (loopFuel size) (loopFuel size) m.

(** The vertices that [UpdateContour] adds to the contour it stores in
    [m_MasterContour], as a function of the brush size; [None] when a loop
    runs out of fuel. *)
Definition buildContour (size : Z) : option VertexListType :=
  assemble (evenSize_of size) <$> quarterCycle size.

End PaintbrushContour.

(* ===================================================================== *)
(** ** The paintbrush tool *)
(* ===================================================================== *)

(** [std::round]: to the nearest integer, halves away from zero. *)
Definition std_round (q : Q) : Q :=
  inject_Z (if Qle_bool 0 q then Qfloor (q + (1 # 2)) else Qceiling (q - (1 # 2))).

(** Squared Euclidean distance, for [EuclideanDistanceTo]. *)
Definition dist2 (p q : Point3D) : Q :=
  ((p3x p - p3x q) * (p3x p - p3x q) + (p3y p - p3y q) * (p3y p - p3y q)
   + (p3z p - p3z q) * (p3z p - p3z q))%Q.

Inductive FeedbackColor : Type :=
| ColorDefault                (* SetFeedbackContourColorDefault() *)
| ColorRGB (r g b : Q).       (* SetFeedbackContourColor(r, g, b) *)

Module Paintbrush.
Import PaintbrushContour.

Section Tool.
(** Types of the collaborators: a 2-D image slice, a 3-D image, a plane
    geometry, a renderer. *)
Variables (Slice Image PlaneGeometry Sender : Type).

(** [m_WorkingSlice->GetGeometry()->WorldToIndex(world, index)]. *)
Variable WorldToIndex : Slice -> Point3D -> Point3D.
(** [ContourModelUtils::FillContourInSlice2(contour, slice, value)]. *)
Variable FillContourInSlice2 : ContourModel -> Slice -> Z -> Slice.
(** [m_InternalFillValue], a constant of the class declaration. *)
Variable m_InternalFillValue : Z.
(** [mitk::eps]. *)
Variable eps : Q.
(** [v.normalize()] of [vnl_vector]: the vector scaled to length one. *)
Variable normalize : Point3D -> Point3D.
(** [FeedbackContourTool::BackProjectContourFrom2DSlice(geometry, contour)]. *)
Variable BackProjectContourFrom2DSlice : Slice -> ContourModel -> ContourModel.
(** The closed flag of a contour that nobody has closed or opened yet, as
    [ContourModel::New()] and [Initialize()] leave it. *)
Variable IsClosed_New : bool.
(** [dynamic_cast<const AbstractTransformGeometry *>(plane) != nullptr]. *)
Variable isAbstractTransformGeometry : PlaneGeometry -> bool.
(** [MatrixEqualElementWise] and [Equal] on the index-to-world transforms
    of two planes. *)
Variable MatrixEqualElementWise : PlaneGeometry -> PlaneGeometry -> bool.
Variable OffsetEqual : PlaneGeometry -> PlaneGeometry -> bool.
(** [Image::New(); Initialize(workingSlice); memset(data, 0, byteSize)]. *)
Variable InitializeZero : Slice -> Slice.

(** [mitk::InteractionPositionEvent]. *)
Record InteractionPositionEvent : Type := mkEvent {
  GetPositionInWorld : Point3D;
  GetSender : Sender;
  (** [GetSender()->GetCurrentWorldPlaneGeometry()], possibly null *)
  GetCurrentWorldPlaneGeometry : option PlaneGeometry;
  (** [GetSender()->GetSlice()] *)
  GetSlice : Z
}.

(** [SegTool2D::GetAffectedImageSliceAs2DImage(event, image)->Clone()]. *)
Variable GetAffectedImageSliceAs2DImage : InteractionPositionEvent -> Image -> Slice.

(** State that every tool instance sees: the class-static brush size, the
    function-static [lastPos] of [MouseMoved], the tool manager's working
    data (a node, whose data may or may not be an image) and the rendering
    manager's pending requests. *)
Record Shared : Type := mkShared {
  m_Size : Z;
  lastPos : Point3D;
  GetWorkingData : option (option Image);
  renderRequests : nat
}.

(** The data members of one [PaintbrushTool] instance.  There is no size
    member: [m_LastContourSize] is the size [m_MasterContour] was built
    for.  The painting node's data pointer always follows
    [m_PaintingSlice] and is left out. *)
Record PaintbrushTool : Type := mkTool {
  m_PaintingPixelValue : Z;
  m_LastContourSize : Z;
  m_MasterContour : ContourModel;
  m_WorkingSlice : option Slice;
  m_PaintingSlice : option Slice;
  m_CurrentPlane : option PlaneGeometry;
  m_LastPosition : Point3D;
  m_LastEventSender : option Sender;
  m_LastEventSlice : Z;
  feedbackContour : ContourModel;
  feedbackContourColor : FeedbackColor;
  paintingNodeVisible : bool;
  paintingNodeColor : Q * Q * Q
}.

(** [ContourModel::New()] with the given vertices added to it. *)
Definition ContourModel_New (vertices : VertexListType) : ContourModel :=
  mkContourModel vertices IsClosed_New.

(** [PaintbrushTool::PaintbrushTool(paintingPixelValue)]; members the
    constructor leaves alone take the given defaults. *)
Definition PaintbrushTool_new (paintingPixelValue : Z) : PaintbrushTool :=
  mkTool paintingPixelValue 0 (ContourModel_New []) None None None
         (0, 0, 0)%Q None 0
         (ContourModel_New []) ColorDefault false (0, 0, 0)%Q.

Definition set_size (v : Z) (sh : Shared) : Shared :=
  mkShared v (lastPos sh) (GetWorkingData sh) (renderRequests sh).
Definition set_lastPos (p : Point3D) (sh : Shared) : Shared :=
  mkShared (m_Size sh) p (GetWorkingData sh) (renderRequests sh).
Definition request_update (sh : Shared) : Shared :=
  mkShared (m_Size sh) (lastPos sh) (GetWorkingData sh) (S (renderRequests sh)).

Definition set_PaintingPixelValue (v : Z) (c : FeedbackColor) (t : PaintbrushTool) :=
  mkTool v (m_LastContourSize t) (m_MasterContour t) (m_WorkingSlice t)
         (m_PaintingSlice t) (m_CurrentPlane t) (m_LastPosition t)
         (m_LastEventSender t) (m_LastEventSlice t) (feedbackContour t) c
         (paintingNodeVisible t) (paintingNodeColor t).
Definition set_MasterContour (c : ContourModel) (t : PaintbrushTool) :=
  mkTool (m_PaintingPixelValue t) (m_LastContourSize t) c (m_WorkingSlice t)
         (m_PaintingSlice t) (m_CurrentPlane t) (m_LastPosition t)
         (m_LastEventSender t) (m_LastEventSlice t) (feedbackContour t)
         (feedbackContourColor t) (paintingNodeVisible t) (paintingNodeColor t).
Definition set_LastContourSize (v : Z) (t : PaintbrushTool) :=
  mkTool (m_PaintingPixelValue t) v (m_MasterContour t) (m_WorkingSlice t)
         (m_PaintingSlice t) (m_CurrentPlane t) (m_LastPosition t)
         (m_LastEventSender t) (m_LastEventSlice t) (feedbackContour t)
         (feedbackContourColor t) (paintingNodeVisible t) (paintingNodeColor t).
Definition set_slices (plane : option PlaneGeometry) (ws ps : option Slice)
    (t : PaintbrushTool) :=
  mkTool (m_PaintingPixelValue t) (m_LastContourSize t) (m_MasterContour t) ws
         ps plane (m_LastPosition t)
         (m_LastEventSender t) (m_LastEventSlice t) (feedbackContour t)
         (feedbackContourColor t) (paintingNodeVisible t) (paintingNodeColor t).
Definition set_PaintingSlice (ps : option Slice) (t : PaintbrushTool) :=
  set_slices (m_CurrentPlane t) (m_WorkingSlice t) ps t.
Definition set_paintingNode (visible : bool) (color : Q * Q * Q) (t : PaintbrushTool) :=
  mkTool (m_PaintingPixelValue t) (m_LastContourSize t) (m_MasterContour t)
         (m_WorkingSlice t) (m_PaintingSlice t) (m_CurrentPlane t) (m_LastPosition t)
         (m_LastEventSender t) (m_LastEventSlice t) (feedbackContour t)
         (feedbackContourColor t) visible color.
Definition set_stroke (p : Point3D) (fb : ContourModel) (t : PaintbrushTool) :=
  mkTool (m_PaintingPixelValue t) (m_LastContourSize t) (m_MasterContour t)
         (m_WorkingSlice t) (m_PaintingSlice t) (m_CurrentPlane t) p
         (m_LastEventSender t) (m_LastEventSlice t) fb
         (feedbackContourColor t) (paintingNodeVisible t) (paintingNodeColor t).
Definition set_press (p : Point3D) (sender : Sender) (slice : Z) (t : PaintbrushTool) :=
  mkTool (m_PaintingPixelValue t) (m_LastContourSize t) (m_MasterContour t)
         (m_WorkingSlice t) None (m_CurrentPlane t) p
         (Some sender) slice (feedbackContour t)
         (feedbackContourColor t) true (paintingNodeColor t).

(** [PaintbrushTool::SetSize]: a member function that only writes the
    static. *)
Definition SetSize (value : Z) (sh : Shared) (this : PaintbrushTool)
  : Shared * PaintbrushTool := (set_size value sh, this).

(** [PaintbrushTool::UpdateContour]: the vertices are added to a new
    contour, which replaces the master contour; nothing closes it here. *)
Definition UpdateContour (positionEvent : option InteractionPositionEvent)
    (sh : Shared) (this : PaintbrushTool) : option PaintbrushTool :=
  match positionEvent with
  | None => Some this
  | Some _ =>
      vertices ← buildContour (m_Size sh);
      let contourInImageIndexCoordinates := ContourModel_New vertices in
      Some (set_MasterContour contourInImageIndexCoordinates this)
  end.

(** [PaintbrushTool::CheckIfCurrentSliceHasChanged]. *)
Definition CheckIfCurrentSliceHasChanged (event : InteractionPositionEvent)
    (sh : Shared) (this : PaintbrushTool) : PaintbrushTool :=
  match GetCurrentWorldPlaneGeometry event with
  | None => this
  | Some planeGeometry =>
      if isAbstractTransformGeometry planeGeometry then this
      else
        match GetWorkingData sh with
        | None => this
        | Some None => this
        | Some (Some image) =>
            let changed :=
              match m_CurrentPlane this, m_WorkingSlice this with
              | Some current, Some _ =>
                  negb (MatrixEqualElementWise planeGeometry current)
                  || negb (OffsetEqual planeGeometry current)
              | _, _ => true
              end in
            let t1 :=
              if changed
              then set_slices (Some planeGeometry)
                     (Some (GetAffectedImageSliceAs2DImage event image))
                     (m_PaintingSlice this) this
              else this in
            let t2 :=
              match m_PaintingSlice t1, m_WorkingSlice t1 with
              | None, Some ws => set_PaintingSlice (Some (InitializeZero ws)) t1
              | _, _ => t1
              end in
            let currentColor : Q * Q * Q :=
              if m_PaintingPixelValue t2 =? 1 then (0, 1, 0)%Q else (1, 0, 0)%Q in
            set_paintingNode (paintingNodeVisible t2) currentColor t2
        end
  end.

(** The index coordinates after the rounding step of [MouseMoved]. *)
Definition roundToVoxelCenter (indexCoordinates : Point3D) : Point3D :=
  (std_round (p3x indexCoordinates), std_round (p3y indexCoordinates),
   p3z indexCoordinates).

(** The test that guards the body of [MouseMoved]. *)
Definition positionChanged (indexCoordinates last : Point3D) : bool :=
  Qlt_bool eps (Qabs (p3x indexCoordinates - p3x last))
  || Qlt_bool eps (Qabs (p3y indexCoordinates - p3y last))
  || Qlt_bool eps (Qabs (p3z indexCoordinates - p3z last)).

Definition translate (indexCoordinates : Point3D) (point : Point3D) : Point3D :=
  (p3x point + p3x indexCoordinates, p3y point + p3y indexCoordinates, p3z point)%Q.

(** The vertices of the rectangle drawn between two stroke positions.
    Each of the three statements
    [direction[i] = direction.GetVnlVector().normalize()[i]] normalises the
    whole of [direction]: [GetVnlVector()] of the local, non-const point
    refers to the point's own memory and [normalize()] works in place; the
    assignment then stores into component [i] the value it already holds. *)
Definition gapContour (m_LastPosition currentPos : Point3D) (radius : Q)
  : VertexListType :=
  let d0 : Point3D :=
    (p3x currentPos - p3x m_LastPosition, p3y currentPos - p3y m_LastPosition,
     p3z currentPos - p3z m_LastPosition)%Q in
  let d1 := normalize d0 in
  let d2 := normalize d1 in
  let direction := normalize d2 in
  let n0 := (-1 * p3y direction)%Q in
  let n1 := p3x direction in
  (* [vertex[2]] is never assigned; 0 stands for it *)
  [ (p3x m_LastPosition + n0 * radius, p3y m_LastPosition + n1 * radius, 0)%Q;
    (p3x currentPos + n0 * radius, p3y currentPos + n1 * radius, 0)%Q;
    (p3x currentPos - n0 * radius, p3y currentPos - n1 * radius, 0)%Q;
    (p3x m_LastPosition - n0 * radius, p3y m_LastPosition - n1 * radius, 0)%Q ].

(** The contour [MouseMoved] fills and shows: a new contour, closed
    ([SetClosed(true)]), with the vertices of the master contour moved to
    the stroke position. *)
Definition strokeContour (indexCoordinates : Point3D) (m_MasterContour : ContourModel)
  : ContourModel :=
  mkContourModel (translate indexCoordinates <$> vertexList m_MasterContour) true.

(** [dist > radius] for [dist = sqrt(dist2)]. *)
Definition fartherThan (d2 radius : Q) : bool := sqrt_gt d2 radius.

(** [PaintbrushTool::MouseMoved].  [None] is a dereferenced null pointer
    (no position event, no working slice, no painting slice to fill) or a
    contour loop out of fuel. *)
Definition MouseMoved (interactionEvent : option InteractionPositionEvent)
    (leftMouseButtonPressed : bool) (sh : Shared) (this : PaintbrushTool)
  : option (Shared * PaintbrushTool) :=
  positionEvent ← interactionEvent;
  let t1 := CheckIfCurrentSliceHasChanged positionEvent sh this in
  t2 ← (if negb (m_LastContourSize t1 =? m_Size sh)
        then set_LastContourSize (m_Size sh) <$> UpdateContour (Some positionEvent) sh t1
        else Some t1);
  workingSlice ← m_WorkingSlice t2;
  let indexCoordinates :=
    roundToVoxelCenter (WorldToIndex workingSlice (GetPositionInWorld positionEvent)) in
  if positionChanged indexCoordinates (lastPos sh) || leftMouseButtonPressed then
    let sh1 := set_lastPos indexCoordinates sh in
    let contour := strokeContour indexCoordinates (m_MasterContour t2) in
    t3 ← (if leftMouseButtonPressed then
            paintingSlice ← m_PaintingSlice t2;
            let filled := FillContourInSlice2 contour paintingSlice m_InternalFillValue in
            let radius := (inject_Z (m_Size sh) / 2)%Q in
            let filled' :=
              if fartherThan (dist2 indexCoordinates (m_LastPosition t2)) radius
              then FillContourInSlice2
                     (ContourModel_New
                        (gapContour (m_LastPosition t2) indexCoordinates radius))
                     filled m_InternalFillValue
              else filled in
            Some (set_PaintingSlice (Some filled') t2)
          else Some (set_paintingNode false (paintingNodeColor t2) t2));
    let tmp := BackProjectContourFrom2DSlice workingSlice contour in
    Some (request_update sh1, set_stroke indexCoordinates tmp t3)
  else Some (sh, t2).

(** The rounded index position [MouseMoved] works with for an event: the
    event's world position in the index space of the working slice that
    [CheckIfCurrentSliceHasChanged] leaves, rounded to the voxel centre. *)
Definition strokePosition (positionEvent : InteractionPositionEvent)
    (sh : Shared) (this : PaintbrushTool) : option Point3D :=
  workingSlice ← m_WorkingSlice (CheckIfCurrentSliceHasChanged positionEvent sh this);
  Some (roundToVoxelCenter (WorldToIndex workingSlice (GetPositionInWorld positionEvent))).

(** A call that painted nothing: an existing painting slice keeps its
    content, and a missing one is at most created, blank. *)
Definition paintingUntouched (before after : PaintbrushTool) : Prop :=
  (∀ buffer, m_PaintingSlice before = Some buffer → m_PaintingSlice after = Some buffer)
  ∧ (m_PaintingSlice before = None →
       m_PaintingSlice after = None
       ∨ ∃ workingSlice, m_PaintingSlice after = Some (InitializeZero workingSlice)).

(** A call that was skipped: the stroke position and the feedback contour
    are the ones of the call before. *)
Definition strokeUntouched (before after : PaintbrushTool) : Prop :=
  m_LastPosition after = m_LastPosition before
  ∧ feedbackContour after = feedbackContour before.

(** [PaintbrushTool::OnMousePressed]. *)
Definition OnMousePressed (interactionEvent : option InteractionPositionEvent)
    (sh : Shared) (this : PaintbrushTool) : option (Shared * PaintbrushTool) :=
  match m_WorkingSlice this with
  | None => Some (sh, this)
  | Some workingSlice =>
      match interactionEvent with
      | None => Some (sh, this)
      | Some positionEvent =>
          let t1 := set_press
                      (WorldToIndex workingSlice (GetPositionInWorld positionEvent))
                      (GetSender positionEvent) (GetSlice positionEvent) this in
          (* m_MasterContour->SetClosed(true) *)
          let t2 := set_MasterContour (SetClosed true (m_MasterContour t1)) t1 in
          MouseMoved interactionEvent true sh t2
      end
  end.

(** [PaintbrushTool::OnMouseMoved], the pointer moves with the button up. *)
Definition OnMouseMoved (interactionEvent : option InteractionPositionEvent) :=
  MouseMoved interactionEvent false.

(** [PaintbrushTool::OnPrimaryButtonPressedMoved]. *)
Definition OnPrimaryButtonPressedMoved
    (interactionEvent : option InteractionPositionEvent) :=
  MouseMoved interactionEvent true.

(** [PaintbrushTool::OnInvertLogic]. *)
Definition OnInvertLogic (sh : Shared) (this : PaintbrushTool)
  : Shared * PaintbrushTool :=
  let t :=
    if m_PaintingPixelValue this =? 1
    then set_PaintingPixelValue 0 (ColorRGB 1 0 0) this
    else if m_PaintingPixelValue this =? 0
    then set_PaintingPixelValue 1 ColorDefault this
    else this in
  (request_update sh, t).

(** [PaintbrushTool::OnToolManagerWorkingDataModified]. *)
Definition OnToolManagerWorkingDataModified (this : PaintbrushTool) : PaintbrushTool :=
  set_slices (m_CurrentPlane this) None None this.

End Tool.
End Paintbrush.

(* ===================================================================== *)
(** ** The slice interpolator *)
(* ===================================================================== *)

(** A voxel index of a 3-D volume. *)
Definition Voxel : Type := nat * nat * nat.

(** Log lines written with [MITK_WARN]. *)
Inductive Warning (TimePoint : Type) : Type :=
| CannotInterpolateSegmentation (timePoint : TimePoint)
| CannotAcceptInterpolation (timePoint : TimePoint)
| CannotAcceptAllInterpolations (timePoint : TimePoint).
Arguments CannotInterpolateSegmentation {TimePoint} timePoint.
Arguments CannotAcceptInterpolation {TimePoint} timePoint.
Arguments CannotAcceptAllInterpolations {TimePoint} timePoint.

(** [mitk::ApplyDiffImageOperation]: the image to change, the difference
    image, the time step and the factor, all held by pointer. *)
Record ApplyDiffImageOperation : Type := mkDiffOp {
  GetImage : nat;
  GetDiffImage : nat;
  GetTimeStep : nat;
  GetFactor : Z
}.

(** [mitk::OperationEvent] for the diff-image applier. *)
Record OperationEvent : Type := mkOperationEvent {
  doOp : ApplyDiffImageOperation;
  undoOp : ApplyDiffImageOperation;
  (** ["Confirm all interpolations (" + n + ")"], kept as [n] *)
  comment : Z
}.

(** What [m_ToolManager] and [GetWorkingData(0)] give. *)
Inductive WorkingData : Type :=
| NoToolManager             (* m_ToolManager is null *)
| NoWorkingNode             (* GetWorkingData(0) is null *)
| WorkingNodeWithoutImage   (* the node's data is not a mitk::Image *)
| WorkingImage (image : nat).

Definition uint_modulus : Z := 4294967296.

(** [++totalChangedSlices] on a [std::atomic_uint]. *)
Definition atomic_uint_increment (c : Z) : Z := (c + 1) mod uint_modulus.

(** The platform the accept-all pass runs on:
    [std::thread::hardware_concurrency()], and the value a
    default-constructed local [std::atomic_uint] holds (zero since C++20,
    indeterminate before). *)
Record Platform : Type := mkPlatform {
  hardware_concurrency : nat;
  atomic_uint_default : Z
}.

(** [sliceIndices[sliceIndex % numThreads].push_back(sliceIndex)] for
    [sliceIndex = 0 .. numSlices-1], starting from [numThreads] empty
    vectors.  [None]: a remainder by zero. *)
Definition distributeStep (numThreads : nat) (acc : option (list (list nat)))
    (sliceIndex : nat) : option (list (list nat)) :=
  sliceIndices ← acc;
  if (numThreads =? 0)%nat then None
  else Some (alter (λ v, v ++ [sliceIndex]) (sliceIndex mod numThreads)%nat sliceIndices).

Definition distribute (numThreads numSlices : nat) : option (list (list nat)) :=
  foldl (distributeStep numThreads) (Some (replicate numThreads [])) (seq 0 numSlices).

(** [sliceIndices] as [AcceptAllInterpolations] computes it. *)
Definition sliceIndicesFor (pf : Platform) (numSlices : nat) : option (list (list nat)) :=
  distribute (Nat.min (hardware_concurrency pf) numSlices) numSlices.

Module SlicesInterpolator.

Section Interpolator.
(** A time point, a plane geometry and the pixel data of one 2-D slice. *)
Variables (TimePoint PlaneGeometry SliceData : Type).

(** Geometry of a [mitk::Image]: [GetDimension()], [GetDimension(i)] and
    the two queries of its time geometry. *)
Record ImageGeometry : Type := mkGeometry {
  GetDimension : nat;
  GetDimension_i : Z -> nat;
  IsValidTimePoint : TimePoint -> bool;
  TimePointToTimeStep : TimePoint -> nat
}.

(** A [mitk::Image] of integer labels: one 3-D volume per time step. *)
Record Image : Type := mkImage {
  geometry : ImageGeometry;
  voxels : nat -> Voxel -> Z
}.

(** [mitk::SliceNavigationController], as far as it is asked. *)
Record SliceNavigationController : Type := mkSNC {
  GetSelectedTimePoint : TimePoint;
  GetCurrentPlaneGeometry : PlaneGeometry
}.

(** [SegTool2D::DetermineAffectedImageSlice]: slice dimension and index. *)
Variable DetermineAffectedImageSlice : ImageGeometry -> PlaneGeometry -> Z * Z.
(** [m_Interpolator->Interpolate(sliceDimension, sliceIndex, plane, timeStep)];
    [None] is a null result. *)
Variable SegmentationInterpolationController_Interpolate :
  Z -> Z -> PlaneGeometry -> nat -> option SliceData.
(** An [ExtractSliceFilter] over a [mitkVtkImageOverwrite] in overwrite
    mode: writes the slice into the volume along the plane. *)
Variable OverwriteSlice : PlaneGeometry -> SliceData -> (Voxel -> Z) -> (Voxel -> Z).
(** Moving the origin of a cloned plane to a slice of the segmentation's
    sliced geometry:
    [WorldToIndex; origin[sliceDimension] = sliceIndex; IndexToWorld; SetOrigin]. *)
Variable SetOriginToSlice : ImageGeometry -> PlaneGeometry -> Z -> nat -> PlaneGeometry.
(** Geometry of the output of [ImageTimeSelector] for a time step. *)
Variable TimeSelectorGeometry : ImageGeometry -> nat -> ImageGeometry.

(** The interpolator widget with the process-wide objects it uses: the
    heap of images, the undo stack with the event id counters, the log,
    the progress bar and the rendering manager. *)
Record State : Type := mkState {
  images : gmap nat Image;
  m_Segmentation : option nat;
  toolManager : WorkingData;
  m_FeedbackNode : option SliceData;
  m_LastSNC : option SliceNavigationController;
  m_LastSliceIndex : Z;
  undoStack : list OperationEvent;
  currGroupEventId : Z;
  currObjectEventId : Z;
  warnings : list (Warning TimePoint);
  progressStepsToDo : nat;
  progressDone : nat;
  renderRequests : nat
}.

Definition warn (w : Warning TimePoint) (s : State) : State :=
  mkState (images s) (m_Segmentation s) (toolManager s) (m_FeedbackNode s)
          (m_LastSNC s) (m_LastSliceIndex s) (undoStack s) (currGroupEventId s)
          (currObjectEventId s) (warnings s ++ [w]) (progressStepsToDo s)
          (progressDone s) (renderRequests s).
Definition RequestUpdateAll (s : State) : State :=
  mkState (images s) (m_Segmentation s) (toolManager s) (m_FeedbackNode s)
          (m_LastSNC s) (m_LastSliceIndex s) (undoStack s) (currGroupEventId s)
          (currObjectEventId s) (warnings s) (progressStepsToDo s)
          (progressDone s) (S (renderRequests s)).
Definition set_Segmentation (seg : option nat) (s : State) : State :=
  mkState (images s) seg (toolManager s) (m_FeedbackNode s)
          (m_LastSNC s) (m_LastSliceIndex s) (undoStack s) (currGroupEventId s)
          (currObjectEventId s) (warnings s) (progressStepsToDo s)
          (progressDone s) (renderRequests s).
Definition set_images (h : gmap nat Image) (s : State) : State :=
  mkState h (m_Segmentation s) (toolManager s) (m_FeedbackNode s)
          (m_LastSNC s) (m_LastSliceIndex s) (undoStack s) (currGroupEventId s)
          (currObjectEventId s) (warnings s) (progressStepsToDo s)
          (progressDone s) (renderRequests s).
Definition set_FeedbackNode (d : option SliceData) (s : State) : State :=
  mkState (images s) (m_Segmentation s) (toolManager s) d
          (m_LastSNC s) (m_LastSliceIndex s) (undoStack s) (currGroupEventId s)
          (currObjectEventId s) (warnings s) (progressStepsToDo s)
          (progressDone s) (renderRequests s).
Definition set_Last (snc : SliceNavigationController) (i : Z) (s : State) : State :=
  mkState (images s) (m_Segmentation s) (toolManager s) (m_FeedbackNode s)
          (Some snc) i (undoStack s) (currGroupEventId s)
          (currObjectEventId s) (warnings s) (progressStepsToDo s)
          (progressDone s) (renderRequests s).
Definition set_progress (todo done : nat) (s : State) : State :=
  mkState (images s) (m_Segmentation s) (toolManager s) (m_FeedbackNode s)
          (m_LastSNC s) (m_LastSliceIndex s) (undoStack s) (currGroupEventId s)
          (currObjectEventId s) (warnings s) todo done (renderRequests s).
(** [IncCurrGroupEventId(); IncCurrObjectEventId(); SetOperationEvent(item)]:
    the two counters of [mitk::OperationEvent] go up by one and the item is
    put on the undo stack. *)
Definition pushUndo (item : OperationEvent) (s : State) : State :=
  mkState (images s) (m_Segmentation s) (toolManager s) (m_FeedbackNode s)
          (m_LastSNC s) (m_LastSliceIndex s) (item :: undoStack s)
          (currGroupEventId s + 1) (currObjectEventId s + 1) (warnings s)
          (progressStepsToDo s) (progressDone s) (renderRequests s).

(** Modelled from the spec: [DiffImageApplier::ExecuteOperation] (not
    among the sources).  The diff volume is "the delta produced by
    interpolation, paired with a scale factor (+1 apply / -1 undo)", and
    the reverse path "scales the diff by -1": at the operation's time
    step every voxel receives the diff value times the factor. *)
Definition ExecuteOperation (op : ApplyDiffImageOperation) (h : gmap nat Image)
  : gmap nat Image :=
  match h !! GetImage op, h !! GetDiffImage op with
  | Some image, Some diffImage =>
      <[GetImage op :=
          mkImage (geometry image)
            (λ t p, if (t =? GetTimeStep op)%nat
                    then voxels image t p + GetFactor op * voxels diffImage 0%nat p
                    else voxels image t p)]> h
  | _, _ => h
  end.

(** [QmitkSlicesInterpolator::Interpolate].  [None]: [m_Segmentation]
    points to no image. *)
Definition Interpolate (plane : PlaneGeometry) (timePoint : TimePoint)
    (slicer : SliceNavigationController) (s : State) : option State :=
  match toolManager s with
  | NoToolManager | NoWorkingNode => Some s
  | WorkingNodeWithoutImage => Some (set_Segmentation None s)
  | WorkingImage node =>
      let s1 := set_Segmentation (Some node) s in
      segmentation ← images s1 !! node;
      if negb (IsValidTimePoint (geometry segmentation) timePoint)
      then Some (warn (CannotInterpolateSegmentation timePoint) s1)
      else
        let timeStep := TimePointToTimeStep (geometry segmentation) timePoint in
        let '(clickedSliceDimension, clickedSliceIndex) :=
          DetermineAffectedImageSlice (geometry segmentation) plane in
        let interpolation :=
          SegmentationInterpolationController_Interpolate
            clickedSliceDimension clickedSliceIndex plane timeStep in
        Some (set_Last slicer clickedSliceIndex (set_FeedbackNode interpolation s1))
  end.

(** Writing one slice into a time step of an image. *)
Definition overwriteInImage (plane : PlaneGeometry) (slice : SliceData)
    (timeStep : nat) (image : Image) : Image :=
  mkImage (geometry image)
    (λ t, if (t =? timeStep)%nat then OverwriteSlice plane slice (voxels image t)
          else voxels image t).

(** [QmitkSlicesInterpolator::OnAcceptInterpolationClicked].  [None]:
    [m_LastSNC] or [m_Segmentation] points to nothing. *)
Definition OnAcceptInterpolationClicked (s : State) : option State :=
  match m_Segmentation s, m_FeedbackNode s with
  | Some seg, Some slice =>
      lastSNC ← m_LastSNC s;
      segmentation ← images s !! seg;
      let timePoint := GetSelectedTimePoint lastSNC in
      if negb (IsValidTimePoint (geometry segmentation) timePoint)
      then Some (warn (CannotAcceptInterpolation timePoint) s)
      else
        let timeStep := TimePointToTimeStep (geometry segmentation) timePoint in
        let written :=
          overwriteInImage (GetCurrentPlaneGeometry lastSNC) slice timeStep segmentation in
        Some (RequestUpdateAll
                (set_FeedbackNode None (set_images (<[seg := written]> (images s)) s)))
  | _, _ => Some s
  end.

(** What the worker threads share and change: the pixels of the diff
    image, [totalChangedSlices] and the progress bar. *)
Record Pass : Type := mkPass {
  diffPixels : Voxel -> Z;
  totalChangedSlices : Z;
  progress : nat
}.

(** One iteration of [for (auto sliceIndex : sliceIndices[threadIndex])]. *)
Definition interpolateSlice (slicedGeometry : ImageGeometry) (sliceDimension : Z)
    (timeStep : nat) (acc : PlaneGeometry * Pass) (sliceIndex : nat)
  : PlaneGeometry * Pass :=
  let clonedPlaneGeometry :=
    SetOriginToSlice slicedGeometry (fst acc) sliceDimension sliceIndex in
  let pass := snd acc in
  match SegmentationInterpolationController_Interpolate
          sliceDimension (Z.of_nat sliceIndex) clonedPlaneGeometry timeStep with
  | Some interpolation =>
      (clonedPlaneGeometry,
       mkPass (OverwriteSlice clonedPlaneGeometry interpolation (diffPixels pass))
              (atomic_uint_increment (totalChangedSlices pass))
              (S (progress pass)))
  | None =>
      (clonedPlaneGeometry,
       mkPass (diffPixels pass) (totalChangedSlices pass) (S (progress pass)))
  end.

(** The lambda [interpolate] run by one thread: it clones the plane and
    walks its slice indices. *)
Definition interpolateThread (slicedGeometry : ImageGeometry)
    (planeGeometry : PlaneGeometry) (sliceDimension : Z)
    (timeStep : nat) (pass : Pass) (indices : list nat) : Pass :=
  snd (foldl (interpolateSlice slicedGeometry sliceDimension timeStep)
             (planeGeometry, pass) indices).

(** All threads, started and joined.  The threads write disjoint slices
    of the diff image and only add to the counters, so the schedule does
    not show in the result; they are run one after the other. *)
Definition runThreads (slicedGeometry : ImageGeometry)
    (planeGeometry : PlaneGeometry) (sliceDimension : Z)
    (timeStep : nat) (pass : Pass) (sliceIndices : list (list nat)) : Pass :=
  foldl (interpolateThread slicedGeometry planeGeometry sliceDimension timeStep)
        pass sliceIndices.

(** The values [AcceptAllInterpolations] derives before it starts the
    threads: the time step (0 unless the segmentation is 4-D), the slice
    dimension found for the slicer's plane, and the number of slices. *)
Definition acceptAllTimeStep (g : ImageGeometry) (timePoint : TimePoint) : nat :=
  if (GetDimension g =? 4)%nat then TimePointToTimeStep g timePoint else 0%nat.
Definition acceptAllSliceDimension (g : ImageGeometry) (planeGeometry : PlaneGeometry) : Z :=
  fst (DetermineAffectedImageSlice g planeGeometry).
Definition acceptAllNumSlices (g : ImageGeometry) (planeGeometry : PlaneGeometry) : nat :=
  GetDimension_i g (acceptAllSliceDimension g planeGeometry).

(** The calls [interpolator->Interpolate(sliceDimension, sliceIndex,
    clonedPlaneGeometry, timeStep, algorithm)] of one thread: each of its
    slice indices with the plane handed over for it.  The thread moves the
    origin of its one cloned plane from slice to slice. *)
Fixpoint threadVisits (slicedGeometry : ImageGeometry)
    (clonedPlaneGeometry : PlaneGeometry) (sliceDimension : Z) (indices : list nat)
  : list (nat * PlaneGeometry) :=
  match indices with
  | [] => []
  | sliceIndex :: rest =>
      let moved :=
        SetOriginToSlice slicedGeometry clonedPlaneGeometry sliceDimension sliceIndex in
      (sliceIndex, moved) :: threadVisits slicedGeometry moved sliceDimension rest
  end.

(** The calls of all threads of the pass that [AcceptAllInterpolations]
    runs for a segmentation with geometry [g] and a slicer. *)
Definition passVisits (pf : Platform) (g : ImageGeometry)
    (slicer : SliceNavigationController) : list (nat * PlaneGeometry) :=
  let planeGeometry := GetCurrentPlaneGeometry slicer in
  match sliceIndicesFor pf (acceptAllNumSlices g planeGeometry) with
  | Some sliceIndices =>
      concat (threadVisits g planeGeometry (acceptAllSliceDimension g planeGeometry)
                <$> sliceIndices)
  | None => []
  end.

(** [QmitkSlicesInterpolator::AcceptAllInterpolations].  [None]:
    [m_Segmentation] points to no image, or a remainder by zero.  The diff
    image is a local smart pointer: it enters the heap when the two
    operations that keep it are made, and is gone with the function's
    scope otherwise. *)
Definition AcceptAllInterpolations (pf : Platform)
    (slicer : SliceNavigationController) (s : State) : option State :=
  match m_Segmentation s with
  | None => Some (RequestUpdateAll s)
  | Some seg =>
      segmentation ← images s !! seg;
      let timePoint := GetSelectedTimePoint slicer in
      let is4D := (GetDimension (geometry segmentation) =? 4)%nat in
      if is4D && negb (IsValidTimePoint (geometry segmentation) timePoint)
      then Some (warn (CannotAcceptAllInterpolations timePoint) s)
      else
        let timeStep := acceptAllTimeStep (geometry segmentation) timePoint in
        let segmentation3D :=
          if is4D then TimeSelectorGeometry (geometry segmentation) timeStep
          else geometry segmentation in
        let planeGeometry := GetCurrentPlaneGeometry slicer in
        let sliceDimension := acceptAllSliceDimension (geometry segmentation) planeGeometry in
        let numSlices := acceptAllNumSlices (geometry segmentation) planeGeometry in
        sliceIndices ← sliceIndicesFor pf numSlices;
        let pass :=
          runThreads (geometry segmentation) planeGeometry sliceDimension timeStep
            (mkPass (λ _, 0) (atomic_uint_default pf) 0%nat) sliceIndices in
        let s1 := set_progress (progressStepsToDo s + numSlices)%nat
                               (progressDone s + progress pass)%nat s in
        let s2 :=
          if 0 <? totalChangedSlices pass then
            let diffImage := fresh (dom (images s1)) in
            let h := <[diffImage := mkImage segmentation3D (λ _, diffPixels pass)]> (images s1) in
            let doOperation := mkDiffOp seg diffImage timeStep 1 in
            let undoOperation := mkDiffOp seg diffImage timeStep (-1) in
            let undoStackItem := mkOperationEvent doOperation undoOperation (totalChangedSlices pass) in
            set_images (ExecuteOperation doOperation h) (pushUndo undoStackItem (set_images h s1))
          else s1 in
        Some (RequestUpdateAll (set_FeedbackNode None s2))
  end.

(** Modelled from the spec: [Reverse(handle)] (the undo controller is not
    among the sources).  The handle is the operation record; reversing it
    hands its undo operation to the diff-image applier. *)
Definition Reverse (handle : OperationEvent) (s : State) : State :=
  set_images (ExecuteOperation (undoOp handle) (images s)) s.

(** Every interpolation the pass asks for comes back empty: the calls the
    threads make, each for its slice index on its plane, return null. *)
Definition everyInterpolationEmpty (pf : Platform) (g : ImageGeometry)
    (slicer : SliceNavigationController) : Prop :=
  ∀ (sliceIndex : nat) (plane : PlaneGeometry),
    (sliceIndex, plane) ∈ passVisits pf g slicer →
    SegmentationInterpolationController_Interpolate
      (acceptAllSliceDimension g (GetCurrentPlaneGeometry slicer))
      (Z.of_nat sliceIndex) plane
      (acceptAllTimeStep g (GetSelectedTimePoint slicer)) = None.

(** No image was written, created or dropped, and the undo stack with its
    event id counters is as before. *)
Definition segmentationUntouched (before after : State) : Prop :=
  images after = images before
  ∧ undoStack after = undoStack before
  ∧ currGroupEventId after = currGroupEventId before
  ∧ currObjectEventId after = currObjectEventId before.

(** An operation gave up with warning [w]: nothing of the segmentation,
    the undo stack or the interpolation preview changed, and the warning
    was logged. *)
Definition abortedWith (w : Warning TimePoint) (before after : State) : Prop :=
  segmentationUntouched before after
  ∧ m_FeedbackNode after = m_FeedbackNode before
  ∧ warnings after = warnings before ++ [w].

End Interpolator.
End SlicesInterpolator.

(* ===================================================================== *)
(** ** Specification predicates *)
(* ===================================================================== *)

(** [sliceIndices] is a round-robin partition of [0 .. numSlices-1] over
    [numThreads] workers: worker [w] holds, in increasing order, the
    indices congruent to [w], and all workers together hold every index
    exactly once. *)
Definition roundRobinPartition (numThreads numSlices : nat)
    (sliceIndices : list (list nat)) : Prop :=
  length sliceIndices = numThreads
  ∧ (∀ w, (w < numThreads)%nat →
       sliceIndices !! w
       = Some (filter (λ i : nat, (i mod numThreads)%nat = w) (seq 0 numSlices)))
  ∧ (∀ i w indices, sliceIndices !! w = Some indices → i ∈ indices →
       (i mod numThreads)%nat = w)
  ∧ concat sliceIndices ≡ₚ seq 0 numSlices.

(** Two points with equal coordinates. *)
Definition samePoint (p q : Point3D) : Prop :=
  (p3x p == p3x q)%Q ∧ (p3y p == p3y q)%Q ∧ (p3z p == p3z q)%Q.

(** The centre of the brush: the centre of the pixel under the pointer for
    an odd size, shifted by the centre correction (+0.5, +0.5) for an even
    size. *)
Definition brushCenter (size : Z) : Point2D :=
  (PaintbrushContour.centerCorrection_of size, PaintbrushContour.centerCorrection_of size).

(** Rotation by 180 degrees about a centre, in the slice plane. *)
Definition rotate180 (center : Point2D) (p : Point3D) : Point3D :=
  (2 * fst center - p3x p, 2 * snd center - p3y p, p3z p)%Q.

(** The closed polygon through the vertices of [contour] is mapped to
    itself by the half turn about [center]: turning every vertex gives the
    same cyclic vertex sequence, started half-way round. *)
Definition halfTurnSymmetric (center : Point2D) (contour : VertexListType) : Prop :=
  contour ≠ []
  ∧ Forall2 samePoint (rotate180 center <$> contour)
                      (rotate (length contour / 2) contour).



(* ===================================================================== *)
(** ** Concrete collaborators for worked examples *)
(* ===================================================================== *)

Module PaintbrushExample.
Import Paintbrush.

(** A slice that only counts how often it was filled; one plane, one
    renderer; a new contour is open. *)
Definition Slice : Type := nat.
Definition tool0 : PaintbrushTool Slice unit unit := PaintbrushTool_new nat unit unit false 1.
Definition shared (size : Z) : Shared unit := mkShared size (0, 0, 0)%Q (Some (Some ())) 0.
Definition event (x y : Q) : InteractionPositionEvent unit unit :=
  mkEvent (x, y, 0%Q) () (Some ()) 0.
Definition eps : Q := 1 # 1000000.

Definition mouseMoved :=
  MouseMoved (Slice:=Slice) (Image:=unit) (Sender:=unit) (λ _ p, p) (λ _ filled _, S filled) 1 eps
    (λ d, d) (λ _ c, c) false (λ _ : unit, false) (λ _ _, true) (λ _ _, true)
    (λ _, 0%nat) (λ _ _, 0%nat).
Definition position :=
  strokePosition (Slice:=Slice) (Image:=unit) (Sender:=unit) (λ _ p, p) (λ _ : unit, false)
    (λ _ _, true) (λ _ _, true) (λ _, 0%nat) (λ _ _, 0%nat).
End PaintbrushExample.

Module InterpolatorExample.
Import SlicesInterpolator.

(** Time points are integers, valid in [0, 1); a plane is the index of an
    axial slice, a slice holds one label for all its pixels. *)
Definition geometry3D : ImageGeometry Z :=
  mkGeometry 3 (λ i, if i =? 2 then 3%nat else 2%nat)
             (λ t, (0 <=? t) && (t <? 1)) (λ _, 0%nat).
Definition geometry4D : ImageGeometry Z :=
  mkGeometry 4 (λ i, if i =? 2 then 3%nat else 2%nat)
             (λ t, (0 <=? t) && (t <? 1)) (λ _, 0%nat).
Definition determine (g : ImageGeometry Z) (plane : nat) : Z * Z := (2, Z.of_nat plane).
(** Only slice 1 has an interpolation: label 7. *)
Definition interpolateSlice1 (dim idx : Z) (plane : nat) (timeStep : nat) : option Z :=
  if idx =? 1 then Some 7 else None.
Definition interpolateNothing (dim idx : Z) (plane : nat) (timeStep : nat) : option Z :=
  None.
(** An interpolator that answers for slice 1 on the plane of slice 1 only. *)
Definition interpolateOnPlane1 (dim idx : Z) (plane : nat) (timeStep : nat) : option Z :=
  if (idx =? 1) && (plane =? 1)%nat then Some 7 else None.
Definition overwrite (plane : nat) (label : Z) (volume : Voxel → Z) : Voxel → Z :=
  λ p, if (snd p =? plane)%nat then label else volume p.
Definition setOrigin (g : ImageGeometry Z) (plane : nat) (dim : Z) (idx : nat) : nat := idx.
Definition timeSelector (g : ImageGeometry Z) (timeStep : nat) : ImageGeometry Z := geometry3D.

(** One segmentation, all background, as image 0 of the heap. *)
Definition state (g : ImageGeometry Z) : State Z nat Z :=
  mkState {[ 0%nat := mkImage g (λ _ _, 0) ]} (Some 0%nat) (WorkingImage 0)
          (Some 7) (Some (mkSNC 5 1%nat)) 0 [] 0 0 [] 0 0 0.
Definition platform : Platform := mkPlatform 2 0.
(** Two hardware threads; the local counter is found holding 0xFEFEFEFE. *)
Definition platformStale : Platform := mkPlatform 2 4278124286.

Definition acceptAll (interpolate : Z → Z → nat → nat → option Z) :=
  AcceptAllInterpolations determine interpolate overwrite setOrigin timeSelector.
End InterpolatorExample.

Unset Implicit Arguments.

(* ===================================================================== *)
(** ** Geometry of the brush contour *)
(* ===================================================================== *)

(** A whole number, and a coordinate on the border between two pixels: a
    whole number plus one half. *)
Definition integral (q : Q) : Prop := ∃ k : Z, (q == inject_Z k)%Q.
Definition onPixelBorder (q : Q) : Prop := ∃ k : Z, (q == inject_Z k + (1 # 2))%Q.

(** A vertex on a corner of the pixel grid of the slice. *)
Definition onPixelCorner (p : Point3D) : Prop :=
  onPixelBorder (p3x p) ∧ onPixelBorder (p3y p) ∧ (p3z p == 0)%Q.

(** A vertex inside the square of side [size] about the brush centre. *)
Definition withinBrushSquare (size : Z) (p : Point3D) : Prop :=
  (Qabs (p3x p - fst (brushCenter size)) <= inject_Z size / 2)%Q
  ∧ (Qabs (p3y p - snd (brushCenter size)) <= inject_Z size / 2)%Q.

(** What the march keeps true of every point it puts into the upper right
    quarter cycle, for a brush of a positive [size]. *)
Definition quarterPoint (size : Z) (p : Point2D) : Prop :=
  onPixelBorder (fst p) ∧ onPixelBorder (snd p)
  ∧ (-(1 # 2) <= fst p)%Q
  ∧ (fst p - PaintbrushContour.centerCorrection_of size
     <= PaintbrushContour.fradius_of size)%Q
  ∧ (1 # 2 <= snd p)%Q
  ∧ (snd p - PaintbrushContour.centerCorrection_of size
     <= PaintbrushContour.fradius_of size)%Q.

(** The loop invariant of the march: [curPoint] is a pixel index in the
    upper right quadrant, not above the start row, whose left border is
    within the radius. *)
Definition marchInvariant (size : Z) (m : PaintbrushContour.March) : Prop :=
  integral (fst (PaintbrushContour.curPoint m))
  ∧ integral (snd (PaintbrushContour.curPoint m))
  ∧ (0 <= fst (PaintbrushContour.curPoint m))%Q
  ∧ (0 <= snd (PaintbrushContour.curPoint m))%Q
  ∧ (snd (PaintbrushContour.curPoint m)
     <= inject_Z (PaintbrushContour.radius_of size))%Q
  ∧ (fst (PaintbrushContour.curPoint m) - (1 # 2)
       - PaintbrushContour.centerCorrection_of size
     <= PaintbrushContour.fradius_of size)%Q
  ∧ Forall (quarterPoint size) (PaintbrushContour.quarterCycleUpperRight m).

(** Mirror image in the vertical line through a centre. *)
Definition mirrorLeftRight (center : Point2D) (p : Point3D) : Point3D :=
  (2 * fst center - p3x p, p3y p, p3z p)%Q.

(** The closed polygon through the vertices of [contour] is its own mirror
    image: mirroring every vertex gives the vertices in reverse order. *)
Definition leftRightSymmetric (center : Point2D) (contour : VertexListType) : Prop :=
  Forall2 samePoint (mirrorLeftRight center <$> contour) (reverse contour).

(* ===================================================================== *)
(** ** Slice events and the spacing of the working image *)
(* ===================================================================== *)

Set Implicit Arguments.

(** The loop of [QmitkSlicesInterpolator::SetCurrentContourListID] over the
    spacing of the working image, [spacing i] for [spacing[i]]:
    [double minSpacing(100); double maxSpacing(0);
     for (int i = 0; i < 3; i++) { if (spacing[i] < minSpacing) ...;
                                   if (spacing[i] > maxSpacing) ... }].
    The result is the pair handed to [SetMinSpacing] and [SetMaxSpacing]. *)
Definition spacingStep (spacing : nat -> Q) (acc : Q * Q) (i : nat) : Q * Q :=
  let minSpacing := if Qlt_bool (spacing i) (fst acc) then spacing i else fst acc in
  let maxSpacing := if Qlt_bool (snd acc) (spacing i) then spacing i else snd acc in
  (minSpacing, maxSpacing).

Definition spacingRange (spacing : nat -> Q) : Q * Q :=
  foldl (spacingStep spacing) (100%Q, 0%Q) (seq 0 3).

Module SliceChange.
Import SlicesInterpolator.

Section SliceChange.
Variables (TimePoint PlaneGeometry SliceData : Type).
Variable DetermineAffectedImageSlice : ImageGeometry TimePoint -> PlaneGeometry -> Z * Z.
Variable SegmentationInterpolationController_Interpolate :
  Z -> Z -> PlaneGeometry -> nat -> option SliceData.

(** [mitk::SlicedGeometry3D], asked for the plane at a slice position:
    [dynamic_cast<mitk::PlaneGeometry *>(GetPlaneGeometry(pos))], [None]
    for a null result. *)
Definition SlicedGeometry3D : Type := nat -> option PlaneGeometry.

(** The [mitk::TimeGeometry] of a slice event: [IsValidTimePoint], and
    [dynamic_cast<mitk::SlicedGeometry3D *>(GetGeometryForTimePoint(t))]. *)
Record TimeGeometry : Type := mkTimeGeometry {
  TimeGeometry_IsValidTimePoint : TimePoint -> bool;
  GetGeometryForTimePoint : TimePoint -> option SlicedGeometry3D
}.

(** An [itk::EventObject]: a [GeometrySliceEvent] with its time geometry
    (possibly null) and its slice position, or an event of another class. *)
Inductive EventObject : Type :=
| GeometrySliceEvent (GetTimeGeometry : option TimeGeometry) (GetPos : nat)
| OtherEvent.

(** A pointer to a slice navigation controller: the address, which is the
    key of [m_TimePoints], and the controller behind it. *)
Record Slicer : Type := mkSlicer {
  address : nat;
  controller : SliceNavigationController TimePoint PlaneGeometry
}.

(** The widget as the slice events see it: the state the accept operations
    work on, [m_2DInterpolationEnabled], the time points recorded per
    slicer, and the render requests sent to single renderers
    ([slicer->GetRenderer()->RequestUpdate()], by slicer address). *)
Record Widget : Type := mkWidget {
  state : State TimePoint PlaneGeometry SliceData;
  m_2DInterpolationEnabled : bool;
  m_TimePoints : gmap nat TimePoint;
  rendererUpdates : list nat
}.

Definition set_state (s : State TimePoint PlaneGeometry SliceData) (w : Widget) : Widget :=
  mkWidget s (m_2DInterpolationEnabled w) (m_TimePoints w) (rendererUpdates w).

(** [QmitkSlicesInterpolator::TranslateAndInterpolateChangedSlice]: the
    returned flag and the widget after the call.  [None]: [Interpolate]
    found [m_Segmentation] pointing to no image. *)
Definition TranslateAndInterpolateChangedSlice (e : EventObject) (slicer : Slicer)
    (w : Widget) : option (bool * Widget) :=
  if negb (m_2DInterpolationEnabled w) then Some (false, w)
  else
    match e with
    | OtherEvent => Some (false, w)       (* std::bad_cast, caught *)
    | GeometrySliceEvent None _ => Some (false, w)
    | GeometrySliceEvent (Some tsg) pos =>
        match m_TimePoints w !! address slicer with
        | None => Some (false, w)
        | Some timePoint =>
            if TimeGeometry_IsValidTimePoint tsg timePoint then
              match GetGeometryForTimePoint tsg timePoint with
              | None => Some (false, w)
              | Some slicedGeometry =>
                  (* m_LastSNC = slicer *)
                  let s1 := set_Last (controller slicer) (m_LastSliceIndex (state w))
                                     (state w) in
                  s2 ← match slicedGeometry pos with
                       | Some plane =>
                           Interpolate DetermineAffectedImageSlice
                             SegmentationInterpolationController_Interpolate
                             plane timePoint (controller slicer) s1
                       | None => Some s1
                       end;
                  Some (true, set_state s2 w)
              end
            else Some (false, w)
        end
    end.

(** [QmitkSlicesInterpolator::OnSliceChanged], for a sender that is a slice
    navigation controller (the senders of slice events are). *)
Definition OnSliceChanged (sender : Slicer) (e : EventObject) (w : Widget)
  : option Widget :=
  match e with
  | OtherEvent => Some w
  | GeometrySliceEvent _ _ =>
      match TranslateAndInterpolateChangedSlice e sender w with
      | Some (true, w1) =>
          Some (mkWidget (state w1) (m_2DInterpolationEnabled w1) (m_TimePoints w1)
                         (rendererUpdates w1 ++ [address sender]))
      | Some (false, w1) => Some w1
      | None => None
      end
  end.

End SliceChange.
End SliceChange.

(* ===================================================================== *)
(** ** The file writer manager *)
(* ===================================================================== *)

(** [std::string::find_last_of(c)]: the index of the last [c], [None] for
    [npos]. *)
Fixpoint find_last_of (c : ascii) (s : string) : option nat :=
  match s with
  | EmptyString => None
  | String a rest =>
      match find_last_of c rest with
      | Some i => Some (S i)
      | None => if Ascii.eqb a c then Some 0%nat else None
      end
  end.

(** [s.erase(0, count)]: without the first [count] characters ([None] for
    [npos]: without all of them). *)
Fixpoint erase_front (count : nat) (s : string) : string :=
  match count, s with
  | O, _ => s
  | S n, EmptyString => EmptyString
  | S n, String _ rest => erase_front n rest
  end.

Definition erase_0 (count : option nat) (s : string) : string :=
  match count with
  | Some n => erase_front n s
  | None => EmptyString
  end.

Module FileWriterManager.

(** What a call of [Write] comes to: the exception of [mitkThrow()] with
    its message, or the writer that is handed the data and the path. *)
Inductive WriteOutcome (IFileWriter BaseData : Type) : Type :=
| Threw (message : string)
| Wrote (Writer : IFileWriter) (data : BaseData) (path : string).
Arguments Threw {IFileWriter BaseData} message.
Arguments Wrote {IFileWriter BaseData} Writer data path.

Section Writers.
(** [us::ServiceReference<IFileWriter>], [mitk::IFileWriter *] and
    [mitk::BaseData]. *)
Variables (ServiceReference IFileWriter BaseData : Type).
(** [context->GetServiceReferences<IFileWriter>(filter)]. *)
Variable GetServiceReferences : string -> list ServiceReference.
(** [std::sort] of service references (by ranking, then by service id). *)
Variable std_sort : list ServiceReference -> list ServiceReference.
(** [context->GetService(reference)]. *)
Variable GetService : ServiceReference -> IFileWriter.
(** [Writer->GetSupportedOptions()]. *)
Variable GetSupportedOptions : IFileWriter -> list string.
(** [mitk::IFileWriter::PROP_EXTENSION]. *)
Variable PROP_EXTENSION : string.

(** [FileWriterManager::GetWriterList]: the references for an extension,
    the best one first. *)
Definition GetWriterList (extension : string) : list ServiceReference :=
  let filter :=
    match extension with
    | EmptyString => EmptyString
    | _ => ("(" +:+ PROP_EXTENSION +:+ "=" +:+ extension +:+ ")")%string
    end in
  reverse (std_sort (GetServiceReferences filter)).

(** [FileWriterManager::GetWriter(extension, context)]; [None] is the null
    pointer. *)
Definition GetWriter (extension : string) : option IFileWriter :=
  match GetWriterList extension with
  | [] => None
  | front :: _ => Some (GetService front)
  end.

(** [FileWriterManager::GetWriters(extension, context)]. *)
Definition GetWriters (extension : string) : list IFileWriter :=
  foldl (λ result iter, result ++ [GetService iter]) [] (GetWriterList extension).

(** The inner loop of [WriterSupportsOptions]: [optionFound] after the walk
    over the writer's options. *)
Definition optionFound (WriterOptions : list string) (options_i : string) : bool :=
  foldl (λ found options_j, if String.eqb options_i options_j then true else found)
        false WriterOptions.

(** The outer loop: it leaves with [false] at the first option not found. *)
Fixpoint supportsAll (WriterOptions options : list string) : bool :=
  match options with
  | [] => true
  | options_i :: rest =>
      if negb (optionFound WriterOptions options_i) then false
      else supportsAll WriterOptions rest
  end.

(** [FileWriterManager::WriterSupportsOptions]. *)
Definition WriterSupportsOptions (Writer : IFileWriter) (options : list string) : bool :=
  let WriterOptions := GetSupportedOptions Writer in
  match options with
  | [] => true
  | _ =>
      match WriterOptions with
      | [] => false
      | _ => supportsAll WriterOptions options
      end
  end.

(** [FileWriterManager::GetWriters(extension, options, context)]. *)
Definition GetWritersWithOptions (extension : string) (options : list string)
  : list IFileWriter :=
  foldl (λ result iter, if WriterSupportsOptions iter options
                        then result ++ [iter] else result)
        [] (GetWriters extension).

(** [FileWriterManager::GetWriter(extension, options, context)]. *)
Definition GetWriterWithOptions (extension : string) (options : list string)
  : option IFileWriter :=
  match GetWritersWithOptions extension options with
  | [] => None
  | front :: _ => Some front
  end.

(** The extension [Write] looks a writer up for:
    [extension = path; extension.erase(0, path.find_last_of('.'))]. *)
Definition extensionOf (path : string) : string :=
  erase_0 (find_last_of "."%char path) path.

(** [FileWriterManager::Write]. *)
Definition Write (data : BaseData) (path : string) : WriteOutcome IFileWriter BaseData :=
  let extension := extensionOf path in
  match GetWriter extension with
  | None =>
      Threw ("Tried to directly Write a file of type '" +:+ extension
             +:+ "' via FileWriterManager, but no Writer supporting this filetype was found.")%string
  | Some Writer => Wrote Writer data path
  end.

End Writers.
End FileWriterManager.

(* ===================================================================== *)
(** ** More concrete collaborators for worked examples *)
(* ===================================================================== *)

Module StrokeExample.
Import Paintbrush.

(** The collaborators of [PaintbrushExample]: index coordinates are world
    coordinates, a slice counts its fills, every plane is regular and equal
    to every other. *)
Definition check :=
  CheckIfCurrentSliceHasChanged (Slice:=PaintbrushExample.Slice) (Image:=unit)
    (Sender:=unit) (λ _ : unit, false) (λ _ _, true) (λ _ _, true)
    (λ _, 0%nat) (λ _ _, 0%nat).
Definition mousePressed :=
  OnMousePressed (Slice:=PaintbrushExample.Slice) (Image:=unit) (Sender:=unit)
    (λ _ p, p) (λ _ filled _, S filled) 1 PaintbrushExample.eps
    (λ d, d) (λ _ c, c) false (λ _ : unit, false) (λ _ _, true) (λ _ _, true)
    (λ _, 0%nat) (λ _ _, 0%nat).
Definition hover :=
  OnMouseMoved (Slice:=PaintbrushExample.Slice) (Image:=unit) (Sender:=unit)
    (λ _ p, p) (λ _ filled _, S filled) 1 PaintbrushExample.eps
    (λ d, d) (λ _ c, c) false (λ _ : unit, false) (λ _ _, true) (λ _ _, true)
    (λ _, 0%nat) (λ _ _, 0%nat).

(** A tool in the middle of its work: on the plane, with a working slice
    and a painting slice that an earlier stroke has filled three times. *)
Definition working : PaintbrushTool PaintbrushExample.Slice unit unit :=
  mkTool 1 0 (mkContourModel [] false) (Some 0%nat) (Some 3%nat) (Some ())
         (0, 0, 0)%Q None 0
         (mkContourModel [] false) ColorDefault false (0, 0, 0)%Q.
End StrokeExample.

Module AcceptExample.
Import SlicesInterpolator InterpolatorExample.

(** The state of [InterpolatorExample] with the last slicer standing at a
    given time point, on plane 1. *)
Definition stateAt (timePoint : Z) : State Z nat Z :=
  mkState {[ 0%nat := mkImage geometry3D (λ _ _, 0) ]} (Some 0%nat) (WorkingImage 0)
          (Some 7) (Some (mkSNC timePoint 1%nat)) 0 [] 0 0 [] 0 0 0.
Definition acceptOne := OnAcceptInterpolationClicked (TimePoint:=Z) overwrite.
Definition interpolate := Interpolate determine interpolateSlice1.

(** A widget with 2-D interpolation enabled and time point 0 recorded for
    the slicer at address 7, and a slice event whose geometry has a plane at
    every position. *)
Definition slicer : SliceChange.Slicer Z nat := SliceChange.mkSlicer 7 (mkSNC 0 1%nat).
Definition widget : SliceChange.Widget Z nat Z :=
  SliceChange.mkWidget (stateAt 0) true {[ 7%nat := 0 ]} [].
Definition sliceEvent : SliceChange.EventObject Z nat :=
  SliceChange.GeometrySliceEvent
    (Some (SliceChange.mkTimeGeometry (λ t, t =? 0) (λ _, Some (λ pos, Some pos)))) 1.
Definition sliceChanged := SliceChange.OnSliceChanged determine interpolateSlice1.
End AcceptExample.

Module WriterExample.
Import FileWriterManager.

(** A registry of three writers, named by their ranking: writers 1 and 3
    write every type, writer 2 writes [.nrrd] files. *)
Definition references (filter : string) : list nat :=
  if String.eqb filter "(extension=.nrrd)" then [2%nat]
  else if String.eqb filter EmptyString then [1; 2; 3]%nat
  else [].
Definition write : bool → string → WriteOutcome nat bool :=
  Write references (λ refs, refs) (λ ref : nat, ref) "extension".
End WriterExample.

Unset Implicit Arguments.

(* ===================================================================== *)
(** ** Partition of the slices over the worker threads *)
(* ===================================================================== *)

Section Distribution.
Context (numThreads : nat) (Hpos : (0 < numThreads)%nat).

(** The slice indices below [n] that worker [w] owns. *)
Local Abbreviation owned w n :=
  (filter (λ i : nat, (i mod numThreads)%nat = w) (seq 0 n)).

Lemma distribute_spec (n : nat) :
  ∃ parts, distribute numThreads n = Some parts
    ∧ length parts = numThreads
    ∧ ∀ w, (w < numThreads)%nat → parts !! w = Some (owned w n).
Proof.
  induction n as [|n (parts & Hd & Hlen & Hown)].
  - exists (replicate numThreads []). split; [done|]. split.
    + by rewrite length_replicate.
    + intros w Hw. by rewrite lookup_replicate_2.
  - exists (alter (λ v, v ++ [n]) (n mod numThreads)%nat parts).
    split; [|split].
    + unfold distribute in *. rewrite seq_S, foldl_app. simpl. rewrite Hd. simpl.
      destruct (Nat.eqb_spec numThreads 0); [lia|done].
    + by rewrite length_alter.
    + intros w Hw. rewrite seq_S, filter_app. simpl.
      destruct (decide ((n mod numThreads)%nat = w)) as [Heq|Hne].
      * rewrite Heq, list_lookup_alter_eq, Hown by done. simpl.
        rewrite filter_cons_True by done. by rewrite filter_nil.
      * rewrite list_lookup_alter_ne, Hown by done.
        rewrite filter_cons_False by done. by rewrite filter_nil, app_nil_r.
Qed.

Lemma concat_owned (ws : list nat) (l : list nat) :
  NoDup ws → (∀ i, i ∈ l → (i mod numThreads)%nat ∈ ws) →
  concat ((λ w, filter (λ i : nat, (i mod numThreads)%nat = w) l) <$> ws) ≡ₚ l.
Proof.
  intros Hnd. induction l as [|i l IH]; intros Hin.
  - clear. induction ws as [|w ws IHw]; [done|]. by simpl.
  - etrans; [|apply Permutation_skip, IH; intros j Hj; apply Hin; by right].
    assert (Hi : (i mod numThreads)%nat ∈ ws) by (apply Hin; left).
    clear IH Hin. revert Hi. induction Hnd as [|w ws Hw Hnd IHw]; intros Hi.
    + by apply elem_of_nil in Hi.
    + simpl. destruct (decide ((i mod numThreads)%nat = w)) as [Heq|Hne].
      * rewrite filter_cons_True by done. simpl. f_equiv. f_equiv.
        apply reflexive_eq. f_equal. apply list_fmap_ext. intros k w' Hw'.
        rewrite filter_cons_False; [done|]. intros Heq'.
        apply list_elem_of_lookup_2 in Hw'. congruence.
      * rewrite filter_cons_False by done.
        apply elem_of_cons in Hi as [?|Hi]; [done|].
        rewrite (IHw Hi). by rewrite Permutation_middle.
Qed.

Lemma distribute_roundRobin (n : nat) :
  ∃ parts, distribute numThreads n = Some parts
           ∧ roundRobinPartition numThreads n parts.
Proof.
  destruct (distribute_spec n) as (parts & Hd & Hlen & Hown).
  exists parts. split; [done|]. split; [done|]. split; [done|].
  assert (Hparts : parts = (λ w, owned w n) <$> seq 0 numThreads).
  { apply list_eq. intros w. rewrite list_lookup_fmap.
    destruct (decide (w < numThreads)%nat) as [Hw|Hw].
    - rewrite Hown by done. by rewrite lookup_seq_lt.
    - rewrite lookup_ge_None_2 by lia. by rewrite lookup_seq_ge by lia. }
  split.
  - intros i w indices Hlk Hi.
    assert (Hw : (w < numThreads)%nat).
    { apply lookup_lt_Some in Hlk. lia. }
    rewrite Hown in Hlk by done. injection Hlk as <-.
    by apply list_elem_of_filter in Hi as [? _].
  - rewrite Hparts. apply concat_owned; [apply NoDup_seq|].
    intros i _. apply elem_of_seq. split; [lia|].
    pose proof (Nat.mod_upper_bound i numThreads). lia.
Qed.
End Distribution.

(** On a platform that reports its parallelism the slice indices of a
    pass are computed, and all of them are below the number of slices. *)
Lemma sliceIndicesFor_in_range (pf : Platform) (numSlices : nat) :
  (0 < hardware_concurrency pf)%nat →
  ∃ sliceIndices,
    sliceIndicesFor pf numSlices = Some sliceIndices
    ∧ ∀ i, i ∈ concat sliceIndices → (i < numSlices)%nat.
Proof.
  intros Hhw. unfold sliceIndicesFor.
  destruct numSlices as [|n].
  - exists []. rewrite Nat.min_0_r. split; [done|]. intros i Hi.
    by apply elem_of_nil in Hi.
  - destruct (distribute_roundRobin (Nat.min (hardware_concurrency pf) (S n))
                ltac:(lia) (S n)) as (parts & Hparts & _ & _ & _ & Hperm).
    exists parts. split; [done|]. intros i Hi.
    rewrite Hperm in Hi. apply elem_of_seq in Hi. lia.
Qed.

(** C2.  When the platform reports its hardware parallelism (a positive
    [hardware_concurrency]), the accept-all pass distributes the slice
    indices [0 .. N-1] round-robin over exactly [min(parallelism, N)]
    workers, and the workers' index lists together contain every index of
    [0 .. N-1] exactly once. *)
Theorem C2_round_robin_partition (pf : Platform) (numSlices : nat) :
  (0 < hardware_concurrency pf)%nat →
  ∃ sliceIndices,
    sliceIndicesFor pf numSlices = Some sliceIndices
    ∧ roundRobinPartition (Nat.min (hardware_concurrency pf) numSlices)
                          numSlices sliceIndices.
Proof.
  intros Hhw. unfold sliceIndicesFor.
  destruct numSlices as [|n].
  - (* no slice: no thread, and the loop body never runs *)
    exists []. rewrite Nat.min_0_r. split; [done|].
    repeat split; try done. intros w Hw. lia.
  - (* at least one slice and one thread *)
    apply distribute_roundRobin. lia.
Qed.

Example sliceIndices_3_7 :
  sliceIndicesFor (mkPlatform 3 0) 7 = Some [[0; 3; 6]; [1; 4]; [2; 5]]%nat.
Proof. reflexivity. Qed.

Lemma C2_round_robin_partition_witness :
  ∃ sliceIndices,
    sliceIndicesFor (mkPlatform 3 0) 7 = Some sliceIndices
    ∧ roundRobinPartition 3 7 sliceIndices.
Proof.
  apply (C2_round_robin_partition (mkPlatform 3 0) 7). simpl. lia.
Defined.

(* --------------------------------------------------------------------- *)
(** *** The load of the workers *)

(** Once the remainder by zero has happened, no later step repairs it. *)
Lemma distribute_none (numThreads : nat) (indices : list nat) :
  foldl (distributeStep numThreads) None indices = None.
Proof. induction indices as [|i indices IH]; [done|]. simpl. exact IH. Qed.

(** Whenever the slice indices are computed, they are as many as slices. *)
Lemma sliceIndicesFor_length (pf : Platform) (numSlices : nat)
    (sliceIndices : list (list nat)) :
  sliceIndicesFor pf numSlices = Some sliceIndices →
  length (concat sliceIndices) = numSlices.
Proof.
  unfold sliceIndicesFor.
  destruct (Nat.min (hardware_concurrency pf) numSlices) as [|k] eqn:Hmin.
  - destruct numSlices as [|n]; [by intros [= <-]|].
    unfold distribute. simpl. by rewrite distribute_none.
  - destruct (distribute_roundRobin (S k) ltac:(lia) numSlices)
      as (parts & Hparts & _ & _ & _ & Hperm).
    rewrite Hparts. intros [= <-]. by rewrite Hperm, length_seq.
Qed.

(** On a platform that reports its parallelism the workers' lists hold
    every slice index once. *)
Lemma sliceIndicesFor_permutation (pf : Platform) (numSlices : nat) :
  (0 < hardware_concurrency pf)%nat →
  ∃ sliceIndices,
    sliceIndicesFor pf numSlices = Some sliceIndices
    ∧ concat sliceIndices ≡ₚ seq 0 numSlices.
Proof.
  intros Hhw. unfold sliceIndicesFor.
  destruct numSlices as [|n].
  - exists []. rewrite Nat.min_0_r. by split.
  - destruct (distribute_roundRobin (Nat.min (hardware_concurrency pf) (S n))
                ltac:(lia) (S n)) as (parts & Hparts & _ & _ & _ & Hperm).
    by exists parts.
Qed.

(** Of the first [n] indices, worker [w] owns one per full round and one
    more when the last, partial round reaches it. *)
Lemma owned_length (numThreads : nat) (w n : nat) :
  (w < numThreads)%nat →
  length (filter (λ i : nat, (i mod numThreads)%nat = w) (seq 0 n))
  = (n / numThreads + (if (w <? n mod numThreads)%nat then 1 else 0))%nat.
Proof.
  intros Hw. assert (Hpos : numThreads ≠ 0%nat) by lia.
  induction n as [|n IH].
  - rewrite Nat.Div0.div_0_l, Nat.Div0.mod_0_l. done.
  - rewrite seq_S, filter_app, length_app, IH. simpl.
    pose proof (Nat.div_mod_eq n numThreads) as Hn.
    pose proof (Nat.mod_upper_bound n numThreads Hpos) as Hr.
    set (q := (n / numThreads)%nat) in *. set (r := (n mod numThreads)%nat) in *.
    destruct (decide (S r = numThreads)) as [Hlast|Hmore].
    + (* the index closes a round *)
      assert (Hq : (S n / numThreads)%nat = S q).
      { symmetry. apply (Nat.div_unique _ _ _ 0); lia. }
      assert (Hm : (S n mod numThreads)%nat = 0%nat).
      { symmetry. apply (Nat.mod_unique _ _ (S q)); lia. }
      rewrite Hq, Hm.
      destruct (decide (r = w)) as [Heq|Hne].
      * rewrite filter_cons_True by done. simpl.
        destruct (Nat.ltb_spec w r); simpl; lia.
      * rewrite filter_cons_False by done. simpl.
        destruct (Nat.ltb_spec w r); simpl; lia.
    + assert (Hq : (S n / numThreads)%nat = q).
      { symmetry. apply (Nat.div_unique _ _ _ (S r)); lia. }
      assert (Hm : (S n mod numThreads)%nat = S r).
      { symmetry. apply (Nat.mod_unique _ _ q); lia. }
      rewrite Hq, Hm.
      destruct (decide (r = w)) as [Heq|Hne].
      * rewrite filter_cons_True by done. simpl.
        destruct (Nat.ltb_spec w r), (Nat.ltb_spec w (S r)); simpl; lia.
      * rewrite filter_cons_False by done. simpl.
        destruct (Nat.ltb_spec w r), (Nat.ltb_spec w (S r)); simpl; lia.
Qed.

(** The accept-all pass spreads the slices evenly: of the
    [W = min(parallelism, N)] workers for [N] slices every one gets [N / W]
    slices, the first [N mod W] workers one more, and no worker is started
    without a slice. *)
Theorem workers_share_the_slices_evenly (pf : Platform) (numSlices : nat) :
  (0 < hardware_concurrency pf)%nat →
  ∃ sliceIndices,
    sliceIndicesFor pf numSlices = Some sliceIndices
    ∧ length sliceIndices = Nat.min (hardware_concurrency pf) numSlices
    ∧ ∀ w indices,
        sliceIndices !! w = Some indices →
        let numThreads := Nat.min (hardware_concurrency pf) numSlices in
        length indices
        = (numSlices / numThreads
           + (if (w <? numSlices mod numThreads)%nat then 1 else 0))%nat
        ∧ (1 <= length indices)%nat.
Proof.
  intros Hhw. unfold sliceIndicesFor.
  destruct numSlices as [|n].
  - exists []. rewrite Nat.min_0_r. split; [done|]. split; [done|].
    intros w indices Hw. done.
  - set (numThreads := Nat.min (hardware_concurrency pf) (S n)).
    assert (Hpos : (0 < numThreads)%nat) by (unfold numThreads; lia).
    destruct (distribute_spec numThreads Hpos (S n)) as (parts & Hparts & Hlen & Hown).
    exists parts. split; [done|]. split; [done|].
    intros w indices Hlk. cbv zeta. fold numThreads.
    assert (Hw : (w < numThreads)%nat).
    { apply lookup_lt_Some in Hlk. lia. }
    rewrite Hown in Hlk by done. apply (inj Some) in Hlk as <-.
    rewrite owned_length by done. split; [done|].
    assert (1 <= S n / numThreads)%nat.
    { apply Nat.div_le_lower_bound; unfold numThreads; lia. }
    lia.
Qed.

(* ===================================================================== *)
(** ** The brush contour *)
(* ===================================================================== *)

Section ContourFacts.
Import PaintbrushContour.

Lemma Qlt_bool_true (a b : Q) : Qlt_bool a b = true ↔ (a < b)%Q.
Proof.
  unfold Qlt_bool. rewrite negb_true_iff, <- not_true_iff_false, Qle_bool_iff.
  split; [apply Qnot_le_lt|apply Qlt_not_le].
Qed.

Lemma Qlt_bool_false (a b : Q) : Qlt_bool a b = false ↔ (b <= a)%Q.
Proof.
  unfold Qlt_bool. rewrite negb_false_iff. apply Qle_bool_iff.
Qed.

Lemma sqrt_gt_false (q r : Q) : (0 <= r)%Q → sqrt_gt q r = false → (q <= r * r)%Q.
Proof.
  intros Hr. unfold sqrt_gt.
  destruct (Qle_bool 0 r) eqn:E.
  - by rewrite Qlt_bool_false.
  - apply Qle_bool_iff in Hr. congruence.
Qed.

Lemma inject_nat_succ (n : nat) :
  (inject_Z (Z.of_nat (S n)) == inject_Z (Z.of_nat n) + 1)%Q.
Proof. rewrite Nat2Z.inj_succ. unfold Z.succ. by rewrite inject_Z_plus. Qed.

Section MarchingTerminates.
Context (cc fr : Q) (Hfr : (0 <= fr)%Q).

Lemma sq_nonneg (a : Q) : (0 <= sq a)%Q.
Proof. unfold sq. nra. Qed.

Lemma sq_le_bound (a b : Q) : (0 <= b)%Q → (sq a + b <= fr * fr)%Q → (a <= fr)%Q.
Proof. unfold sq. intros. nra. Qed.

Lemma moveRight_total (fuel : nat) : ∀ m,
  curPointIsInside m = true →
  (fst (curPoint m) - cc <= fr)%Q →
  (fr + cc - fst (curPoint m) < inject_Z (Z.of_nat fuel))%Q →
  (0 <= curPointY_squared m)%Q →
  ∃ m', moveRight cc fr fuel m = Some m'
        ∧ curPointIsInside m' = false
        ∧ snd (curPoint m') = snd (curPoint m)
        ∧ (fst (curPoint m) <= fst (curPoint m'))%Q
        ∧ curPointX_squared m' = sq (fst (curPoint m') - cc).
Proof.
  induction fuel as [|fuel IH]; intros m Hin Hx Hfuel Hy.
  - change (inject_Z (Z.of_nat 0)) with 0%Q in Hfuel. exfalso. lra.
  - simpl. rewrite Hin.
    destruct (sqrt_gt _ fr) eqn:Hout.
    + eexists. split; [destruct fuel; reflexivity|]. simpl.
      repeat split; lra.
    + apply sqrt_gt_false in Hout; [|done].
      apply sq_le_bound in Hout; [|done].
      rewrite inject_nat_succ in Hfuel.
      edestruct (IH (mkMarch (fst (curPoint m) + 1, snd (curPoint m))%Q true
                        (sq (fst (curPoint m) + 1 - cc)) (curPointY_squared m)
                        (quarterCycleUpperRight m)))
        as (m' & Hm' & ? & ? & ? & ?); simpl; try done; try lra.
      exists m'. simpl in *. repeat split; try done. lra.
Qed.

Lemma moveDown_total (fuel : nat) : ∀ m,
  curPointIsInside m = false →
  (0 < snd (curPoint m))%Q →
  (snd (curPoint m) <= inject_Z (Z.of_nat fuel))%Q →
  curPointX_squared m = sq (fst (curPoint m) - cc) →
  ∃ m', moveDown cc fr fuel m = Some m'
        ∧ (snd (curPoint m') <= snd (curPoint m) - 1)%Q
        ∧ fst (curPoint m') = fst (curPoint m)
        ∧ ((0 < snd (curPoint m'))%Q → curPointIsInside m' = true)
        ∧ (curPointIsInside m' = true → (fst (curPoint m') - cc <= fr)%Q).
Proof.
  induction fuel as [|fuel IH]; intros m Hin Hy Hfuel Hxsq.
  - change (inject_Z (Z.of_nat 0)) with 0%Q in Hfuel. exfalso. lra.
  - rewrite inject_nat_succ in Hfuel. simpl. rewrite Hin.
    destruct (sqrt_le _ fr) eqn:Hle; simpl.
    + (* the point is inside again *)
      assert (Hx : (fst (curPoint m) - cc <= fr)%Q).
      { unfold sqrt_le in Hle. apply negb_true_iff, sqrt_gt_false in Hle; [|done].
        rewrite Hxsq in Hle. eapply sq_le_bound; [|exact Hle]. apply sq_nonneg. }
      eexists. split.
      { destruct (Qle_bool _ 0); [reflexivity|]. destruct fuel; reflexivity. }
      simpl. repeat split; try done; lra.
    + destruct (Qle_bool (snd (curPoint m) - 1) 0) eqn:Hy0.
      * apply Qle_bool_iff in Hy0. eexists. split; [reflexivity|]. simpl.
        repeat split; try done; try lra.
      * assert (0 < snd (curPoint m) - 1)%Q.
        { apply Qlt_bool_true. unfold Qlt_bool. by rewrite Hy0. }
        edestruct (IH (mkMarch (fst (curPoint m), snd (curPoint m) - 1)%Q false
                         (curPointX_squared m) (sq (snd (curPoint m) - 1 - cc))
                         (quarterCycleUpperRight m)))
          as (m' & Hm' & ? & ? & ? & ?); simpl; try done; try lra.
        exists m'. simpl in *. repeat split; try done. lra.
Qed.

Lemma quarterLoop_total (fuel n : nat) : ∀ m,
  ((0 < snd (curPoint m))%Q →
     curPointIsInside m = true ∧ (fst (curPoint m) - cc <= fr)%Q) →
  (fr + cc - fst (curPoint m) < inject_Z (Z.of_nat fuel))%Q →
  (snd (curPoint m) <= inject_Z (Z.of_nat fuel))%Q →
  (snd (curPoint m) <= inject_Z (Z.of_nat n))%Q →
  is_Some (quarterLoop cc fr fuel n m).
Proof.
  induction n as [|n IH]; intros m Hinv Hx Hyf Hyn.
  - simpl. change (inject_Z (Z.of_nat 0)) with 0%Q in Hyn.
    destruct (Qlt_bool 0 _) eqn:E; [|done]. apply Qlt_bool_true in E. lra.
  - simpl. destruct (Qlt_bool 0 _) eqn:E; [|done]. apply Qlt_bool_true in E.
    destruct (Hinv E) as [Hin Hxin].
    rewrite inject_nat_succ in Hyn.
    edestruct (moveRight_total fuel
                 (mkMarch (curPoint m) (curPointIsInside m) 0
                    (sq (snd (curPoint m) - cc)) (quarterCycleUpperRight m)))
      as (m1 & -> & Hin1 & Hy1 & Hx1 & Hxsq1); simpl; try done.
    { apply sq_nonneg. }
    simpl in *.
    edestruct (moveDown_total fuel
                 (mkMarch (curPoint m1) (curPointIsInside m1) (curPointX_squared m1)
                    (curPointY_squared m1)
                    (quarterCycleUpperRight m1 ++ [upperLeft (curPoint m1)])))
      as (m3 & -> & Hy3 & Hx3 & Hin3 & Hxin3); simpl; try done.
    { by rewrite Hy1. }
    { by rewrite Hy1. }
    simpl in *. apply IH.
    + intros Hy. split; [by apply Hin3|]. apply Hxin3. by apply Hin3.
    + rewrite Hx3. lra.
    + rewrite Hy1 in Hy3. lra.
    + rewrite Hy1 in Hy3. lra.
Qed.
End MarchingTerminates.

Lemma buildContour_total (size : Z) : is_Some (buildContour size).
Proof.
  unfold buildContour, quarterCycle.
  set (m := mkMarch _ _ _ _ _).
  enough (is_Some (quarterLoop (centerCorrection_of size) (fradius_of size)
                     (loopFuel size) (loopFuel size) m)) as [m' ->] by (simpl; eauto).
  assert (Hfuel : (inject_Z (Z.of_nat (loopFuel size)) == inject_Z (Z.abs size) + 2)%Q).
  { unfold loopFuel. rewrite Nat2Z.inj_add, Z2Nat.id, inject_Z_plus by lia. done. }
  destruct (Z_le_gt_dec size 1) as [Hs|Hs].
  - (* the radius is not positive: the loop body never runs *)
    assert (Hr : (inject_Z (radius_of size) <= 0)%Q).
    { change 0%Q with (inject_Z 0). rewrite <- Zle_Qle. unfold radius_of.
      pose proof (Z.quot_le_mono size 1 2 ltac:(lia) Hs) as H.
      by rewrite (Z.quot_small 1 2) in H by lia. }
    destruct (loopFuel size); simpl; apply Qlt_bool_false in Hr; rewrite Hr; done.
  - assert (Hfr : (fradius_of size == inject_Z size * (1 # 2))%Q).
    { unfold fradius_of. unfold Qdiv. done. }
    assert (Hsz : (2 <= inject_Z size)%Q).
    { change 2%Q with (inject_Z 2). rewrite <- Zle_Qle. lia. }
    assert (Habs : Z.abs size = size) by lia.
    assert (Hrad : (inject_Z (radius_of size) <= inject_Z size)%Q).
    { rewrite <- Zle_Qle. unfold radius_of.
      pose proof (Z.quot_le_mono size size 2 ltac:(lia) ltac:(lia)).
      pose proof (Z.quot_lt size 2 ltac:(lia) ltac:(lia)). lia. }
    assert (Hcc : (centerCorrection_of size <= 1 # 2)%Q).
    { unfold centerCorrection_of. destruct (evenSize_of size); [|done].
      apply Qle_bool_iff. reflexivity. }
    rewrite Habs in Hfuel.
    apply quarterLoop_total; simpl.
    + rewrite Hfr. lra.
    + intros _. split; [done|]. rewrite Hfr.
      assert (0 <= centerCorrection_of size)%Q.
      { unfold centerCorrection_of. destruct (evenSize_of size); [|done].
        apply Qle_bool_iff. reflexivity. }
      lra.
    + rewrite Hfuel, Hfr. lra.
    + rewrite Hfuel. lra.
    + rewrite Hfuel. lra.
Qed.

(** The marching loops only ever append to the quarter cycle. *)
Lemma moveRight_quarter (cc fr : Q) (fuel : nat) : ∀ m m',
  moveRight cc fr fuel m = Some m' →
  quarterCycleUpperRight m' = quarterCycleUpperRight m.
Proof.
  induction fuel as [|fuel IH]; intros m m'; simpl;
    destruct (curPointIsInside m); try congruence.
  intros H. by rewrite (IH _ _ H).
Qed.

Lemma moveDown_quarter (cc fr : Q) (fuel : nat) : ∀ m m',
  moveDown cc fr fuel m = Some m' →
  ∃ l, quarterCycleUpperRight m' = quarterCycleUpperRight m ++ l.
Proof.
  induction fuel as [|fuel IH]; intros m m'; simpl;
    destruct (curPointIsInside m) eqn:Hin.
  - intros [= <-]. exists []. by rewrite app_nil_r.
  - done.
  - intros [= <-]. exists []. by rewrite app_nil_r.
  - destruct (sqrt_le _ fr); simpl.
    + destruct (Qle_bool _ 0).
      * intros [= <-]. simpl. eauto.
      * intros H. apply IH in H as [l ->]. simpl. rewrite <- app_assoc. eauto.
    + destruct (Qle_bool _ 0).
      * intros [= <-]. exists []. by rewrite app_nil_r.
      * intros H. apply IH in H as [l ->]. simpl. eauto.
Qed.

Lemma quarterLoop_quarter (cc fr : Q) (fuel n : nat) : ∀ m m',
  quarterLoop cc fr fuel n m = Some m' →
  ∃ l, quarterCycleUpperRight m' = quarterCycleUpperRight m ++ l.
Proof.
  induction n as [|n IH]; intros m m'; simpl; destruct (Qlt_bool 0 _).
  - done.
  - intros [= <-]. exists []. by rewrite app_nil_r.
  - destruct (moveRight _ _ _ _) as [m1|] eqn:H1; [|done]. simpl.
    destruct (moveDown _ _ _ _) as [m3|] eqn:H3; [|done]. simpl.
    intros H. apply IH in H as [l ->].
    apply moveDown_quarter in H3 as [l3 ->]. simpl.
    apply moveRight_quarter in H1 as ->. simpl.
    rewrite <- !app_assoc. eauto.
  - intros [= <-]. exists []. by rewrite app_nil_r.
Qed.

Lemma quarterCycle_nonempty (size : Z) (ur : list Point2D) :
  quarterCycle size = Some ur → ur ≠ [].
Proof.
  unfold quarterCycle. intros H.
  apply fmap_Some in H as (m & Hm & ->).
  apply quarterLoop_quarter in Hm as [l ->]. done.
Qed.

(** A size of at most 1 has no positive radius: the march does not start
    and the quarter cycle is the start vertex alone. *)
Lemma quarterCycle_small (size : Z) :
  size <= 1 →
  quarterCycle size = Some [upperLeft (0%Q, inject_Z (radius_of size))].
Proof.
  intros Hs. unfold quarterCycle.
  assert (Hr : (inject_Z (radius_of size) <= 0)%Q).
  { change 0%Q with (inject_Z 0). rewrite <- Zle_Qle. unfold radius_of.
    pose proof (Z.quot_le_mono size 1 2 ltac:(lia) Hs) as H.
    by rewrite (Z.quot_small 1 2) in H by lia. }
  apply Qlt_bool_false in Hr.
  unfold loopFuel. rewrite Nat.add_comm. simpl. by rewrite Hr.
Qed.

Local Ltac quadrant :=
  unfold samePoint, rotate180, vertex, lowerLeft, lowerRight, upperLeftQuadrant,
         p3x, p3y, p3z;
  cbn [fst snd]; repeat split; ring.

Section HalfTurn.
Context (evenSize : bool).

(** The centre correction for the parity. *)
Local Abbreviation cc := (if evenSize then (0 + (1 # 2))%Q else 0%Q).

Lemma rotate180_upperRight (p : Point2D) :
  samePoint (rotate180 (cc, cc) (vertex p)) (vertex (lowerLeft evenSize p)).
Proof. destruct evenSize; quadrant. Qed.

Lemma rotate180_lowerRight (p : Point2D) :
  samePoint (rotate180 (cc, cc) (vertex (lowerRight evenSize p)))
            (vertex (upperLeftQuadrant evenSize p)).
Proof. destruct evenSize; quadrant. Qed.

Lemma rotate180_lowerLeft (p : Point2D) :
  samePoint (rotate180 (cc, cc) (vertex (lowerLeft evenSize p))) (vertex p).
Proof. destruct evenSize; quadrant. Qed.

Lemma rotate180_upperLeft (p : Point2D) :
  samePoint (rotate180 (cc, cc) (vertex (upperLeftQuadrant evenSize p)))
            (vertex (lowerRight evenSize p)).
Proof. destruct evenSize; quadrant. Qed.

Lemma Forall2_quadrants (f g : Point2D → Point2D) (ur : list Point2D) :
  (∀ p, samePoint (rotate180 (cc, cc) (vertex (f p))) (vertex (g p))) →
  Forall2 samePoint (rotate180 (cc, cc) <$> (vertex <$> (f <$> ur)))
                    (vertex <$> (g <$> ur)).
Proof.
  intros Hfg. rewrite <- !list_fmap_compose. apply Forall2_fmap.
  apply Forall_Forall2_diag, Forall_forall. intros p _. apply Hfg.
Qed.

Lemma assemble_halfTurnSymmetric (ur : list Point2D) :
  ur ≠ [] → halfTurnSymmetric (cc, cc) (assemble evenSize ur).
Proof.
  intros Hne. unfold halfTurnSymmetric, assemble.
  assert (Hk : (0 < length ur)%nat) by (destruct ur; [done|simpl; lia]).
  set (k := length ur) in *.
  split. { destruct ur; [done|]. by simpl. }
  set (A := vertex <$> ur).
  set (B := vertex <$> reverse (lowerRight evenSize <$> ur)).
  set (C := vertex <$> (lowerLeft evenSize <$> ur)).
  set (D := vertex <$> reverse (upperLeftQuadrant evenSize <$> ur)).
  assert (HA : length A = k) by (unfold A; by rewrite length_fmap).
  assert (HB : length B = k) by (unfold B; by rewrite !length_fmap, length_reverse, length_fmap).
  assert (HC : length C = k) by (unfold C; by rewrite !length_fmap).
  assert (HD : length D = k) by (unfold D; by rewrite !length_fmap, length_reverse, length_fmap).
  assert (Hrot : rotate (length (A ++ B ++ C ++ D) / 2) (A ++ B ++ C ++ D)
                 = (C ++ D) ++ (A ++ B)).
  { unfold rotate. rewrite !length_app, HA, HB, HC, HD.
    replace ((k + (k + (k + k))) / 2)%nat with (k + k)%nat
      by (apply Nat.div_unique_exact; lia).
    rewrite (Nat.mod_small (k + k)) by lia.
    rewrite (app_assoc A B), drop_app_length', take_app_length';
      rewrite ?length_app; try lia. done. }
  rewrite Hrot, !fmap_app, <- !app_assoc.
  repeat apply Forall2_app.
  - unfold A, C. rewrite <- (list_fmap_id ur) at 1.
    apply (Forall2_quadrants id), rotate180_upperRight.
  - unfold B, D. rewrite !fmap_reverse. apply Forall2_reverse.
    apply Forall2_quadrants, rotate180_lowerRight.
  - unfold A, C. rewrite <- (list_fmap_id ur) at 2.
    apply (Forall2_quadrants _ id), rotate180_lowerLeft.
  - unfold B, D. rewrite !fmap_reverse. apply Forall2_reverse.
    apply Forall2_quadrants, rotate180_upperLeft.
Qed.
End HalfTurn.

(** Whatever the size, the contour is built and is symmetric under the
    half turn about the brush centre. *)
Lemma buildContour_symmetric (size : Z) :
  ∃ contour, buildContour size = Some contour
             ∧ halfTurnSymmetric (brushCenter size) contour.
Proof.
  destruct (buildContour_total size) as [contour Hc]. exists contour.
  split; [done|]. unfold buildContour in Hc.
  apply fmap_Some in Hc as (ur & Hur & ->).
  unfold brushCenter, centerCorrection_of.
  apply assemble_halfTurnSymmetric. by eapply quarterCycle_nonempty.
Qed.
End ContourFacts.

(* ===================================================================== *)
(** ** The brush contour on the pixel grid *)
(* ===================================================================== *)

Section ContourGeometry.
Import PaintbrushContour.

(** Whole numbers are one apart. *)
Lemma integral_lt_succ (k r : Z) :
  (inject_Z k < inject_Z r + 2)%Q → (inject_Z k <= inject_Z r + 1)%Q.
Proof.
  change 2%Q with (inject_Z 2). change 1%Q with (inject_Z 1).
  rewrite <- !inject_Z_plus, <- Zlt_Qlt, <- Zle_Qle. lia.
Qed.

Lemma integral_pos (q : Q) : integral q → (0 < q)%Q → (1 <= q)%Q.
Proof.
  intros [k Hk] Hq. rewrite Hk in *.
  change 0%Q with (inject_Z 0) in Hq. change 1%Q with (inject_Z 1).
  rewrite <- Zlt_Qlt in Hq. rewrite <- Zle_Qle. lia.
Qed.

Lemma integral_plus1 (q : Q) : integral q → integral (q + 1).
Proof.
  intros [k Hk]. exists (k + 1). rewrite inject_Z_plus, Hk. reflexivity.
Qed.

Lemma integral_minus1 (q : Q) : integral q → integral (q - 1).
Proof.
  intros [k Hk]. exists (k + -1). rewrite inject_Z_plus, Hk. reflexivity.
Qed.

Lemma border_upperLeft_x (q : Q) : integral q → onPixelBorder (q - (1 # 2)).
Proof.
  intros [k Hk]. exists (k + -1). rewrite inject_Z_plus, Hk.
  change (inject_Z (-1)) with (-1 # 1)%Q. ring.
Qed.

Lemma border_upperLeft_y (q : Q) : integral q → onPixelBorder (q + (1 # 2)).
Proof. intros [k Hk]. exists k. by rewrite Hk. Qed.

(** *** What the march keeps true, for a positive size *)

Section MarchInvariant.
Context (size : Z) (Hsize : 1 <= size).
Local Abbreviation cc := (centerCorrection_of size).
Local Abbreviation fr := (fradius_of size).
Local Abbreviation r := (radius_of size).

(** Odd size: centre in the pixel, radius ends on a half; even size: centre
    on the corner, whole radius. *)
Lemma size_cases :
  (0 <= r) ∧ (((cc == 0)%Q ∧ (fr == inject_Z r + (1 # 2))%Q)
              ∨ ((cc == 1 # 2)%Q ∧ (fr == inject_Z r)%Q ∧ 1 <= r)).
Proof.
  unfold centerCorrection_of, evenSize_of, fradius_of, radius_of.
  rewrite Z.rem_mod_nonneg, Z.quot_div_nonneg by lia.
  pose proof (Z.div_mod size 2 ltac:(lia)) as Hdm.
  pose proof (Z.mod_pos_bound size 2 ltac:(lia)) as Hb.
  split; [apply Z.div_pos; lia|].
  destruct (Z.eqb_spec (size mod 2) 0) as [He|Ho].
  - right. split; [reflexivity|]. split; [|lia].
    rewrite Hdm at 1. rewrite He, Z.add_0_r, inject_Z_mult.
    change (inject_Z 2) with 2%Q. field.
  - left. split; [reflexivity|].
    assert (size mod 2 = 1) as H1 by lia.
    rewrite Hdm at 1. rewrite H1, inject_Z_plus, inject_Z_mult.
    change (inject_Z 2) with 2%Q. change (inject_Z 1) with 1%Q. field.
Qed.

(** The rightmost pixel inside the circle is found by an integer test: a
    column whose left neighbour is within the radius has its left border
    within the radius too. *)
Lemma tight (x : Q) :
  integral x → (x - 1 - cc <= fr)%Q → (x - (1 # 2) - cc <= fr)%Q.
Proof.
  intros [k Hk] Hx. rewrite Hk in *.
  destruct size_cases as [_ [[Hc Hf]|(Hc & Hf & _)]]; rewrite Hc, Hf in *.
  - pose proof (integral_lt_succ k r ltac:(lra)). lra.
  - pose proof (integral_lt_succ k r ltac:(lra)). lra.
Qed.

Lemma radius_fradius : (inject_Z r + (1 # 2) - cc == fr)%Q.
Proof.
  destruct size_cases as [_ [[Hc Hf]|(Hc & Hf & _)]]; rewrite Hc, Hf; ring.
Qed.

Lemma fradius_nonneg : (0 <= fr)%Q ∧ (0 <= cc)%Q ∧ ((1 # 2) + cc <= fr)%Q.
Proof.
  destruct size_cases as [Hr [[Hc Hf]|(Hc & Hf & Hr1)]]; rewrite Hc, Hf.
  - rewrite Zle_Qle in Hr. change (inject_Z 0) with 0%Q in Hr. split_and!; lra.
  - rewrite Zle_Qle in Hr1. change (inject_Z 1) with 1%Q in Hr1. split_and!; lra.
Qed.

(** [while (curPointIsInside)]: the march to the right stops at the first
    column outside the circle, one column after a column inside. *)
Lemma moveRight_invariant (fuel : nat) : ∀ m m',
  marchInvariant size m →
  curPointIsInside m = true →
  (fst (curPoint m) - cc <= fr)%Q →
  (0 <= curPointY_squared m)%Q →
  moveRight cc fr fuel m = Some m' →
  marchInvariant size m'
  ∧ curPointIsInside m' = false
  ∧ snd (curPoint m') = snd (curPoint m)
  ∧ curPointX_squared m' = sq (fst (curPoint m') - cc).
Proof.
  destruct fradius_nonneg as (Hfr & Hcc & _).
  induction fuel as [|fuel IH]; intros m m' Hinv Hin Hx Hy; simpl; rewrite Hin; [done|].
  destruct Hinv as (Hix & Hiy & Hx0 & Hy0 & Hyr & Hxb & Hl).
  destruct (sqrt_gt _ fr) eqn:Hout.
  - assert (Hres : ∀ m1, Some (mkMarch ((fst (curPoint m) + 1)%Q, snd (curPoint m)) false
                           (sq (fst (curPoint m) + 1 - cc)) (curPointY_squared m)
                           (quarterCycleUpperRight m)) = Some m1 →
              marchInvariant size m1 ∧ curPointIsInside m1 = false
              ∧ snd (curPoint m1) = snd (curPoint m)
              ∧ curPointX_squared m1 = sq (fst (curPoint m1) - cc)).
    { intros ? [= <-]. split; [|done]. unfold marchInvariant. simpl.
      split_and!; try done; try lra; try by apply integral_plus1.
      apply tight; [by apply integral_plus1|lra]. }
    destruct fuel; apply Hres.
  - apply sqrt_gt_false in Hout; [|done].
    apply sq_le_bound in Hout; [|done|done].
    intros Hm'. apply IH in Hm' as (? & ? & ? & ?); [done| |done|simpl; lra|done].
    unfold marchInvariant. simpl. split_and!; try done; try lra. by apply integral_plus1.
Qed.

(** [while (!curPointIsInside)]: the march down stays in the column and
    never goes below row 0. *)
Lemma moveDown_invariant (fuel : nat) : ∀ m m',
  marchInvariant size m →
  curPointIsInside m = false →
  (0 < snd (curPoint m))%Q →
  curPointX_squared m = sq (fst (curPoint m) - cc) →
  moveDown cc fr fuel m = Some m' →
  marchInvariant size m'
  ∧ ((0 < snd (curPoint m'))%Q → curPointIsInside m' = true)
  ∧ (curPointIsInside m' = true → (fst (curPoint m') - cc <= fr)%Q).
Proof.
  destruct fradius_nonneg as (Hfr & Hcc & _).
  pose proof radius_fradius as HR.
  induction fuel as [|fuel IH]; intros m m' Hinv Hin Hy Hxsq; simpl; rewrite Hin; [done|].
  destruct Hinv as (Hix & Hiy & Hx0 & Hy0 & Hyr & Hxb & Hl).
  pose proof (integral_pos _ Hiy Hy) as Hy1.
  assert (Hinv1 : ∀ inside xsq ysq l, Forall (quarterPoint size) l →
            marchInvariant size
              (mkMarch (fst (curPoint m), snd (curPoint m) - 1)%Q inside xsq ysq l)).
  { intros. unfold marchInvariant. simpl. split_and!; try done; try lra.
    by apply integral_minus1. }
  destruct (sqrt_le _ fr) eqn:Hle; simpl.
  - assert (Hx : (fst (curPoint m) - cc <= fr)%Q).
    { unfold sqrt_le in Hle. apply negb_true_iff, sqrt_gt_false in Hle; [|done].
      rewrite Hxsq in Hle. eapply sq_le_bound; [done| |exact Hle]. apply sq_nonneg. }
    assert (Hq : quarterPoint size (upperLeft (fst (curPoint m), snd (curPoint m) - 1)%Q)).
    { unfold upperLeft. simpl. split_and!; simpl; try lra.
      - by apply border_upperLeft_x.
      - by apply border_upperLeft_y, integral_minus1. }
    assert (Hres : ∀ m', Some (mkMarch (fst (curPoint m), snd (curPoint m) - 1)%Q true
                         (curPointX_squared m) (sq (snd (curPoint m) - 1 - cc))
                         (quarterCycleUpperRight m ++
                            [upperLeft (fst (curPoint m), snd (curPoint m) - 1)%Q])) = Some m' →
              marchInvariant size m'
              ∧ ((0 < snd (curPoint m'))%Q → curPointIsInside m' = true)
              ∧ (curPointIsInside m' = true → (fst (curPoint m') - cc <= fr)%Q)).
    { intros ? [= <-]. split; [|by simpl].
      apply Hinv1. apply Forall_app. split; [done|]. by apply Forall_singleton. }
    destruct (Qle_bool _ 0); [apply Hres|]. destruct fuel; apply Hres.
  - destruct (Qle_bool (snd (curPoint m) - 1) 0) eqn:Hy0'.
    + apply Qle_bool_iff in Hy0'. intros [= <-]. split; [by apply Hinv1|].
      simpl. split; [lra|done].
    + assert (0 < snd (curPoint m) - 1)%Q.
      { apply Qlt_bool_true. unfold Qlt_bool. by rewrite Hy0'. }
      intros Hm'. apply IH in Hm'; simpl; try done. by apply Hinv1.
Qed.

(** [while (curPoint[1] > 0)]. *)
Lemma quarterLoop_invariant (fuel n : nat) : ∀ m m',
  marchInvariant size m →
  ((0 < snd (curPoint m))%Q →
     curPointIsInside m = true ∧ (fst (curPoint m) - cc <= fr)%Q) →
  quarterLoop cc fr fuel n m = Some m' →
  marchInvariant size m'.
Proof.
  pose proof radius_fradius as HR.
  induction n as [|n IH]; intros m m' Hinv Hpre; simpl;
    destruct (Qlt_bool 0 _) eqn:E; try done; try by intros [= <-].
  apply Qlt_bool_true in E. destruct (Hpre E) as [Hin Hx].
  destruct (moveRight cc fr fuel _) as [m1|] eqn:H1; [|done]. simpl.
  apply moveRight_invariant in H1 as (Hinv1 & Hin1 & Hy1 & Hxsq1); simpl; try done.
  2:{ apply sq_nonneg. }
  simpl in *.
  destruct (moveDown cc fr fuel _) as [m3|] eqn:H3; [|done]. simpl.
  apply moveDown_invariant in H3 as (Hinv3 & Hin3 & Hx3); simpl; try done.
  - intros Hm'. apply IH in Hm'; [done|done|].
    intros Hy. split; [by apply Hin3|]. by apply Hx3, Hin3.
  - destruct Hinv1 as (Hix & Hiy & Hx0 & Hy0 & Hyr & Hxb & Hl).
    split_and!; simpl; try done.
    apply Forall_app. split; [done|]. apply Forall_singleton.
    unfold upperLeft. split_and!; simpl; try lra.
    + by apply border_upperLeft_x.
    + by apply border_upperLeft_y.
  - by rewrite Hy1.
Qed.

(** Every point of the quarter cycle of a positive size is a pixel corner
    of the upper right quadrant within the radius. *)
Lemma quarterCycle_points (ur : list Point2D) :
  quarterCycle size = Some ur → Forall (quarterPoint size) ur.
Proof.
  destruct fradius_nonneg as (Hfr & Hcc & Hfc).
  pose proof radius_fradius as HR.
  destruct size_cases as [Hr _]. rewrite Zle_Qle in Hr. change (inject_Z 0) with 0%Q in Hr.
  unfold quarterCycle. intros H. apply fmap_Some in H as (m & Hm & ->).
  apply quarterLoop_invariant in Hm.
  - by destruct Hm as (_ & _ & _ & _ & _ & _ & Hl).
  - split_and!; simpl; try done; try lra.
    + by exists 0.
    + by exists r.
    + apply Forall_singleton. unfold upperLeft. split_and!; simpl; try lra.
      * apply border_upperLeft_x. by exists 0.
      * apply border_upperLeft_y. by exists r.
  - simpl. intros _. split; [done|lra].
Qed.
End MarchInvariant.

(** The copies into the other quadrants keep a coordinate on a pixel
    border. *)
Lemma border_mirror (q : Q) :
  onPixelBorder q →
  onPixelBorder (q * -1) ∧ onPixelBorder (q * -1 + 1) ∧ onPixelBorder (-1 * q + 1)
  ∧ onPixelBorder (q * -1 * -1).
Proof.
  intros [k Hk]. split_and!.
  - exists (- k + -1). rewrite Hk, inject_Z_plus, inject_Z_opp.
    change (inject_Z (-1)) with (-1 # 1)%Q. ring.
  - exists (- k). rewrite Hk, inject_Z_opp. ring.
  - exists (- k). rewrite Hk, inject_Z_opp. ring.
  - exists k. rewrite Hk. ring.
Qed.

Lemma assemble_corners (evenSize : bool) (ur : list Point2D) :
  Forall (λ p, onPixelBorder (fst p) ∧ onPixelBorder (snd p)) ur →
  Forall onPixelCorner (assemble evenSize ur).
Proof.
  intros Hur. unfold assemble.
  rewrite !Forall_app, !Forall_fmap, !Forall_reverse, !Forall_fmap.
  split_and!; eapply Forall_impl; try exact Hur; intros [x y] [Hx Hy]; simpl in *.
  all: destruct (border_mirror x Hx) as (? & ? & ? & ?).
  all: destruct (border_mirror y Hy) as (? & ? & ? & ?).
  all: unfold onPixelCorner, vertex, lowerRight, lowerLeft, upperLeftQuadrant, p3x, p3y, p3z.
  all: destruct evenSize; simpl; split_and!; done.
Qed.

Lemma assemble_length (evenSize : bool) (ur : list Point2D) :
  length (assemble evenSize ur) = (4 * length ur)%nat.
Proof.
  unfold assemble. rewrite !length_app, !length_fmap, !length_reverse, !length_fmap. lia.
Qed.

(** For every brush size the contour runs along the pixel grid: each
    vertex lies on a pixel corner (both coordinates are a whole number plus
    one half) in the plane z = 0. *)
Theorem contour_vertices_on_pixel_corners (size : Z) :
  ∃ contour,
    buildContour size = Some contour ∧ Forall onPixelCorner contour.
Proof.
  destruct (buildContour_total size) as [contour Hc]. exists contour.
  split; [done|]. unfold buildContour in Hc.
  apply fmap_Some in Hc as (ur & Hur & ->).
  apply assemble_corners.
  destruct (Z_le_gt_dec size 0) as [Hs|Hs].
  - (* no march: the start vertex alone *)
    rewrite quarterCycle_small in Hur by lia. injection Hur as <-.
    apply Forall_singleton. unfold upperLeft. simpl. split.
    + apply border_upperLeft_x. by exists 0.
    + apply border_upperLeft_y. by exists (radius_of size).
  - eapply Forall_impl; [apply (quarterCycle_points size); [lia|done]|].
    intros p (? & ? & _). done.
Qed.

Lemma Qabs_le_iff (x y : Q) : (Qabs x <= y)%Q ↔ (- y <= x)%Q ∧ (x <= y)%Q.
Proof. apply Qabs_Qle_condition. Qed.

Lemma assemble_within (size : Z) (ur : list Point2D) :
  1 <= size →
  Forall (quarterPoint size) ur →
  Forall (withinBrushSquare size) (assemble (evenSize_of size) ur).
Proof.
  intros Hsize Hur.
  destruct (fradius_nonneg size Hsize) as (Hfr & Hcc & Hfc).
  assert (Hf : (fradius_of size == inject_Z size / 2)%Q) by reflexivity.
  assert (Hcases : (evenSize_of size = true ∧ centerCorrection_of size == 1 # 2)%Q
                   ∨ (evenSize_of size = false ∧ centerCorrection_of size == 0)%Q).
  { unfold centerCorrection_of. destruct (evenSize_of size); [left|right]; done. }
  unfold assemble.
  rewrite !Forall_app, !Forall_fmap, !Forall_reverse, !Forall_fmap.
  split_and!; eapply Forall_impl; try exact Hur;
    intros [x y] (_ & _ & Hx0 & Hx & Hy0 & Hy); simpl in *.
  all: unfold withinBrushSquare, brushCenter, vertex, lowerRight, lowerLeft,
         upperLeftQuadrant, p3x, p3y, p3z.
  all: rewrite <- Hf, !Qabs_le_iff.
  all: destruct Hcases as [[He Hc]|[He Hc]]; rewrite ?He; simpl; rewrite Hc in *;
         split_and!; lra.
Qed.

(** For a brush size from 1 up to the largest size whose march is exact,
    the contour stays within the square of side [size] about the brush
    centre, and reaches its upper side: the first vertex is [size/2] above
    the centre.  (A larger size can leave the square in the code: the cast
    of the size to [float] rounds some sizes above 2^24 upwards.) *)
Theorem contour_within_brush_square (size : Z) :
  1 <= size <= exactMarchMaxSize →
  ∃ contour top,
    buildContour size = Some contour
    ∧ Forall (withinBrushSquare size) contour
    ∧ head contour = Some top
    ∧ (p3y top - snd (brushCenter size) == inject_Z size / 2)%Q.
Proof.
  intros [Hsize _].
  destruct (buildContour_total size) as [contour Hc]. exists contour.
  pose proof Hc as Hbuilt.
  unfold buildContour in Hc. apply fmap_Some in Hc as (ur & Hur & ->).
  pose proof (quarterCycle_points size Hsize ur Hur) as Hpoints.
  unfold quarterCycle in Hur. apply fmap_Some in Hur as (m & Hm & ->).
  apply quarterLoop_quarter in Hm as [l Hl]. simpl in Hl.
  exists (vertex (upperLeft (0%Q, inject_Z (radius_of size)))).
  split_and!.
  - done.
  - by apply assemble_within.
  - rewrite Hl. done.
  - unfold brushCenter, vertex, upperLeft, p3y. simpl.
    rewrite <- (radius_fradius size Hsize). unfold fradius_of. ring.
Qed.

(** *** Mirror symmetry *)

Section Mirror.
Context (evenSize : bool).
Local Abbreviation cc := (if evenSize then (0 + (1 # 2))%Q else 0%Q).

Local Ltac mirrored :=
  unfold id, samePoint, mirrorLeftRight, vertex, lowerLeft, lowerRight, upperLeftQuadrant,
         p3x, p3y, p3z;
  destruct evenSize; cbn [fst snd]; split_and!; ring.

Lemma Forall2_mirrored (f g : Point2D → Point2D) (ur : list Point2D) :
  (∀ p, samePoint (mirrorLeftRight (cc, cc) (vertex (f p))) (vertex (g p))) →
  Forall2 samePoint (mirrorLeftRight (cc, cc) <$> (vertex <$> (f <$> ur)))
                    (vertex <$> (g <$> ur)).
Proof.
  intros Hfg. rewrite <- !list_fmap_compose. apply Forall2_fmap.
  apply Forall_Forall2_diag, Forall_forall. intros p _. apply Hfg.
Qed.

Lemma assemble_leftRightSymmetric (ur : list Point2D) :
  leftRightSymmetric (cc, cc) (assemble evenSize ur).
Proof.
  unfold leftRightSymmetric, assemble.
  rewrite !reverse_app, !fmap_app, <- !app_assoc, <- !fmap_reverse, !reverse_involutive.
  repeat apply Forall2_app.
  - rewrite <- (list_fmap_id ur) at 1.
    apply (Forall2_mirrored id). intros p. mirrored.
  - rewrite !fmap_reverse. apply Forall2_reverse.
    apply Forall2_mirrored. intros p. mirrored.
  - apply Forall2_mirrored. intros p. mirrored.
  - rewrite !fmap_reverse. apply Forall2_reverse.
    rewrite <- (list_fmap_id ur) at 2.
    apply (Forall2_mirrored _ id). intros p. mirrored.
Qed.
End Mirror.

(** For every brush size the contour is its own mirror image in the
    vertical line through the brush centre: the mirrored vertices are the
    vertices in reverse order. *)
Theorem contour_left_right_symmetric (size : Z) :
  ∃ contour,
    buildContour size = Some contour
    ∧ leftRightSymmetric (brushCenter size) contour.
Proof.
  destruct (buildContour_total size) as [contour Hc]. exists contour.
  split; [done|]. unfold buildContour in Hc.
  apply fmap_Some in Hc as (ur & _ & ->).
  unfold brushCenter, centerCorrection_of.
  apply assemble_leftRightSymmetric.
Qed.

(** For every brush size, positive or not, the contour is built and is
    symmetric under the half turn about the brush centre. *)
Theorem contour_half_turn_symmetric_every_size (size : Z) :
  ∃ contour,
    buildContour size = Some contour
    ∧ halfTurnSymmetric (brushCenter size) contour
    ∧ (4 <= length contour)%nat
    ∧ (length contour mod 4 = 0)%nat.
Proof.
  destruct (buildContour_symmetric size) as (contour & Hc & Hsym).
  exists contour. split; [done|]. split; [done|].
  unfold buildContour in Hc. apply fmap_Some in Hc as (ur & Hur & ->).
  apply quarterCycle_nonempty in Hur. rewrite assemble_length.
  destruct ur as [|p ur]; [done|]. split.
  - simpl. lia.
  - rewrite Nat.mul_comm. apply Nat.Div0.mod_mul.
Qed.
End ContourGeometry.

(* ===================================================================== *)
(** ** The paintbrush tool *)
(* ===================================================================== *)

Section Stroke.
Import PaintbrushContour Paintbrush.
Context {Slice Image PlaneGeometry Sender : Type}
  (WorldToIndex : Slice → Point3D → Point3D)
  (FillContourInSlice2 : ContourModel → Slice → Z → Slice)
  (m_InternalFillValue : Z) (eps : Q)
  (normalize : Point3D → Point3D)
  (BackProjectContourFrom2DSlice : Slice → ContourModel → ContourModel)
  (IsClosed_New : bool)
  (isAbstractTransformGeometry : PlaneGeometry → bool)
  (MatrixEqualElementWise OffsetEqual : PlaneGeometry → PlaneGeometry → bool)
  (InitializeZero : Slice → Slice)
  (GetAffectedImageSliceAs2DImage :
     InteractionPositionEvent PlaneGeometry Sender → Image → Slice).

Local Abbreviation Tool := (PaintbrushTool Slice PlaneGeometry Sender).
Local Abbreviation Event := (InteractionPositionEvent PlaneGeometry Sender).
Local Abbreviation newContour := (ContourModel_New IsClosed_New).
Local Abbreviation check :=
  (CheckIfCurrentSliceHasChanged isAbstractTransformGeometry MatrixEqualElementWise
     OffsetEqual InitializeZero GetAffectedImageSliceAs2DImage).
Local Abbreviation mouseMoved :=
  (MouseMoved WorldToIndex FillContourInSlice2 m_InternalFillValue eps normalize
     BackProjectContourFrom2DSlice IsClosed_New isAbstractTransformGeometry
     MatrixEqualElementWise
     OffsetEqual InitializeZero GetAffectedImageSliceAs2DImage).
Local Abbreviation position :=
  (strokePosition WorldToIndex isAbstractTransformGeometry MatrixEqualElementWise
     OffsetEqual InitializeZero GetAffectedImageSliceAs2DImage).

(** [CheckIfCurrentSliceHasChanged] keeps the contour and the stroke, and
    never touches an existing painting slice. *)
Lemma check_keeps (ev : Event) (sh : Shared Image) (t : Tool) :
  m_LastContourSize (check ev sh t) = m_LastContourSize t
  ∧ m_MasterContour (check ev sh t) = m_MasterContour t
  ∧ paintingUntouched InitializeZero t (check ev sh t)
  ∧ strokeUntouched t (check ev sh t).
Proof.
  unfold CheckIfCurrentSliceHasChanged, paintingUntouched, strokeUntouched.
  destruct (GetCurrentWorldPlaneGeometry ev) as [plane|]; [|by eauto 10].
  destruct (isAbstractTransformGeometry plane); [by eauto 10|].
  destruct (GetWorkingData sh) as [[image|]|]; [|by eauto 10..].
  set (changed := match m_CurrentPlane t, m_WorkingSlice t with
                  | Some current, Some _ => _ | _, _ => true end).
  destruct changed; simpl;
    destruct (m_PaintingSlice t) as [buffer|] eqn:Hps; simpl;
    repeat match goal with
           | |- context [match m_WorkingSlice t with _ => _ end] =>
               destruct (m_WorkingSlice t); simpl
           end;
    rewrite ?Hps; repeat split; try done; eauto.
Qed.

Lemma positionChanged_same (p q last : Point3D) :
  samePoint p q → positionChanged eps p last = positionChanged eps q last.
Proof.
  intros (Hx & Hy & Hz). unfold positionChanged.
  assert (Hw : ∀ a b c : Q, (a == b)%Q →
            Qlt_bool eps (Qabs (a - c)) = Qlt_bool eps (Qabs (b - c))).
  { intros a b c Hab. unfold Qlt_bool. f_equal.
    apply eq_true_iff_eq. rewrite !Qle_bool_iff. by rewrite Hab. }
  by rewrite (Hw _ _ _ Hx), (Hw _ _ _ Hy), (Hw _ _ _ Hz).
Qed.

Lemma positionChanged_refl (p : Point3D) :
  (0 <= eps)%Q → positionChanged eps p p = false.
Proof.
  intros Heps. unfold positionChanged.
  assert (Hw : ∀ a : Q, Qlt_bool eps (Qabs (a - a)) = false).
  { intros a. apply Qlt_bool_false.
    assert (Ha : (a - a == 0)%Q) by ring. by rewrite Ha. }
  by rewrite !Hw.
Qed.

(** The contour step of [MouseMoved]: the master contour is rebuilt when
    it was built for another size than the shared [m_Size], and only then. *)
Lemma contour_step (ev : Event) (sh : Shared Image) (tc : Tool) :
  ∃ t2, (if negb (m_LastContourSize tc =? m_Size sh)
         then set_LastContourSize (m_Size sh) <$> UpdateContour IsClosed_New (Some ev) sh tc
         else Some tc) = Some t2
        ∧ m_LastContourSize t2 = m_Size sh
        ∧ m_WorkingSlice t2 = m_WorkingSlice tc
        ∧ Some (m_MasterContour t2)
          = (if m_LastContourSize tc =? m_Size sh then Some (m_MasterContour tc)
             else newContour <$> buildContour (m_Size sh))
        ∧ m_PaintingSlice t2 = m_PaintingSlice tc
        ∧ strokeUntouched tc t2.
Proof.
  destruct (Z.eqb_spec (m_LastContourSize tc) (m_Size sh)) as [Heq|Hne]; simpl.
  - by exists tc.
  - destruct (buildContour_total (m_Size sh)) as [c Hc]. rewrite Hc. simpl.
    eexists. split; [done|]. by simpl.
Qed.

(** A completed call leaves the master contour of the shared size. *)
Lemma mouseMoved_contour (ev : Event) (pressed : bool) (sh sh1 : Shared Image)
    (t t1 : Tool) :
  mouseMoved (Some ev) pressed sh t = Some (sh1, t1) →
  m_LastContourSize t1 = m_Size sh
  ∧ Some (m_MasterContour t1)
    = if m_LastContourSize t =? m_Size sh then Some (m_MasterContour t)
      else newContour <$> buildContour (m_Size sh).
Proof.
  intros Hcall. unfold MouseMoved in Hcall.
  cbv beta iota zeta delta [mbind option_bind] in Hcall.
  destruct (check_keeps ev sh t) as (Hsize & Hmaster & _ & _).
  set (tc := check ev sh t) in *.
  destruct (contour_step ev sh tc) as (t2 & Ht2 & Hlast & Hws & Hcontour & _ & _).
  rewrite Ht2 in Hcall. rewrite Hsize, Hmaster in Hcontour.
  destruct (m_WorkingSlice t2) as [ws|]; [|done].
  destruct (positionChanged eps _ (lastPos sh) || pressed).
  - destruct pressed.
    + destruct (m_PaintingSlice t2); [|done]. by injection Hcall as <- <-.
    + by injection Hcall as <- <-.
  - by injection Hcall as <- <-.
Qed.

(** After any completed call the contour is up to date and the position
    of that call does not count as a change any more. *)
Lemma mouseMoved_settles (ev : Event) (pressed : bool) (sh sh1 : Shared Image)
    (t t1 : Tool) (p : Point3D) :
  (0 <= eps)%Q →
  mouseMoved (Some ev) pressed sh t = Some (sh1, t1) →
  position ev sh t = Some p →
  m_Size sh1 = m_Size sh
  ∧ m_LastContourSize t1 = m_Size sh
  ∧ positionChanged eps p (lastPos sh1) = false.
Proof.
  intros Heps Hcall Hpos. unfold MouseMoved in Hcall. unfold strokePosition in Hpos.
  cbv beta iota zeta delta [mbind option_bind] in Hcall, Hpos.
  destruct (check_keeps ev sh t) as (Hsize & _ & _ & _).
  set (tc := check ev sh t) in *.
  destruct (contour_step ev sh tc) as (t2 & Ht2 & Hlast & Hws & _ & _ & _).
  rewrite Ht2, Hws in Hcall.
  destruct (m_WorkingSlice tc) as [ws|]; [|done].
  injection Hpos as <-.
  destruct (positionChanged eps _ (lastPos sh) || pressed) eqn:Hmoved.
  - destruct pressed; simpl in Hcall.
    + destruct (m_PaintingSlice t2); [|done]. simpl in Hcall.
      injection Hcall as <- <-. simpl. repeat split; try done.
      by apply positionChanged_refl.
    + injection Hcall as <- <-. simpl. repeat split; try done.
      by apply positionChanged_refl.
  - injection Hcall as <- <-. apply orb_false_iff in Hmoved as [? _]. done.
Qed.


(** C5 (as the code has it).  A brush size of zero or less is not rejected:
    [UpdateContour] validates nothing, the arc march does not start, and
    the master contour becomes the four-vertex contour made of the start
    vertex [(-0.5, size/2 + 0.5)] (the quotient truncated) and its copies
    in the other three quadrants. *)
Theorem C5_nonpositive_size_builds_degenerate_contour (sh : Shared Image)
    (t : Tool) (ev : Event) :
  m_Size sh <= 0 →
  let contour :=
    assemble (evenSize_of (m_Size sh))
             [upperLeft (0%Q, inject_Z (radius_of (m_Size sh)))] in
  UpdateContour IsClosed_New (Some ev) sh t
  = Some (set_MasterContour (ContourModel_New IsClosed_New contour) t)
  ∧ length contour = 4%nat.
Proof.
  intros Hs. simpl. split; [|done].
  unfold UpdateContour, buildContour. by rewrite quarterCycle_small by lia.
Qed.

(** C9.  The brush size is one class-static value: when any instance [a]
    sets size [v], the contour rebuild of every instance [b] builds the
    contour of [v], the same contour for all instances, and [MouseMoved] of
    [b] rebuilds exactly when [b]'s contour was built for another size.
    [SetSize] leaves the instance it is called on as it was. *)
Theorem C9_brush_size_is_shared (v : Z) :
  ∃ contour,
    buildContour v = Some contour
    ∧ ∀ (sh : Shared Image) (a b : Tool) (ev : Event),
        snd (SetSize v sh a) = a
        ∧ m_Size (fst (SetSize v sh a)) = v
        ∧ UpdateContour IsClosed_New (Some ev) (fst (SetSize v sh a)) b
          = Some (set_MasterContour (ContourModel_New IsClosed_New contour) b)
        ∧ ∀ brushDown sh' b',
            mouseMoved (Some ev) brushDown (fst (SetSize v sh a)) b = Some (sh', b') →
            m_LastContourSize b' = v
            ∧ m_MasterContour b'
              = if m_LastContourSize b =? v then m_MasterContour b
                else ContourModel_New IsClosed_New contour.
Proof.
  destruct (buildContour_total v) as [contour Hc]. exists contour.
  split; [done|]. intros sh a b ev.
  split; [done|]. split; [done|]. split.
  { unfold UpdateContour, SetSize. simpl. by rewrite Hc. }
  intros brushDown sh' b' H.
  apply mouseMoved_contour in H as [Hsize Hcontour].
  simpl in Hsize, Hcontour. rewrite Hc in Hcontour. split; [done|].
  destruct (m_LastContourSize b =? v); simpl in Hcontour; congruence.
Qed.

(** C10.  [OnInvertLogic] toggles the painting pixel value between 0 and
    1 only: 1 becomes 0, 0 becomes 1, every other value stays. *)
Theorem C10_invert_logic_toggles (sh : Shared Image) (t : Tool) :
  m_PaintingPixelValue (snd (OnInvertLogic sh t))
  = match m_PaintingPixelValue t with
    | 1 => 0
    | 0 => 1
    | other => other
    end.
Proof.
  unfold OnInvertLogic. simpl.
  destruct (m_PaintingPixelValue t) as [|[p|p|]|p] eqn:Hv; simpl; by rewrite ?Hv.
Qed.

(** With the brush up, [MouseMoved] never paints; and when the position is
    no change against [lastPos], it returns before it does anything to the
    stroke or the shared state. *)
Lemma mouseMoved_brush_up (ev : Event) (sh : Shared Image) (t : Tool) (p : Point3D) :
  position ev sh t = Some p →
  ∃ sh2 t2,
    mouseMoved (Some ev) false sh t = Some (sh2, t2)
    ∧ paintingUntouched InitializeZero t t2
    ∧ (positionChanged eps p (lastPos sh) = false → sh2 = sh ∧ strokeUntouched t t2).
Proof.
  intros Hp. unfold MouseMoved. unfold strokePosition in Hp.
  cbv beta iota zeta delta [mbind option_bind] in Hp |- *.
  destruct (check_keeps ev sh t) as (_ & _ & Hpaint & Hstroke).
  set (tc := check ev sh t) in *.
  destruct (contour_step ev sh tc) as (t2 & -> & _ & Hws & _ & Hps & Hstroke2).
  rewrite Hws. destruct (m_WorkingSlice tc) as [ws|]; [|done].
  injection Hp as Hp. rewrite Hp, orb_false_r.
  assert (Hpaint2 : paintingUntouched InitializeZero t t2).
  { unfold paintingUntouched in *. by rewrite Hps. }
  destruct (positionChanged eps p (lastPos sh)).
  - eexists _, _. split; [done|]. by split.
  - exists sh, t2. split; [done|]. split; [done|]. intros _. split; [done|].
    unfold strokeUntouched in *. destruct Hstroke, Hstroke2. split; congruence.
Qed.

(** C7.  When a call of [MouseMoved] is followed by a call with the brush
    not down whose position rounds to the same voxel (the same rounded x
    and y), the second call paints nothing: an existing painting slice is
    left as it is, and a missing one is at most created blank.  When the
    third index coordinate, which is not rounded, is the same too, the
    second call is skipped altogether: the shared state ([lastPos], the
    render requests), the stroke position and the feedback contour stay.
    [mitk::eps] is not negative. *)
Theorem C7_second_call_is_no_op (sh sh1 : Shared Image) (t t1 : Tool)
    (ev1 ev2 : Event) (brushDown1 : bool) (p1 p2 : Point3D) :
  (0 <= eps)%Q →
  mouseMoved (Some ev1) brushDown1 sh t = Some (sh1, t1) →
  position ev1 sh t = Some p1 →
  position ev2 sh1 t1 = Some p2 →
  (p3x p2 == p3x p1)%Q →
  (p3y p2 == p3y p1)%Q →
  ∃ sh2 t2,
    mouseMoved (Some ev2) false sh1 t1 = Some (sh2, t2)
    ∧ paintingUntouched InitializeZero t1 t2
    ∧ ((p3z p2 == p3z p1)%Q → sh2 = sh1 ∧ strokeUntouched t1 t2).
Proof.
  intros Heps Hcall1 Hp1 Hp2 Hx Hy.
  destruct (mouseMoved_settles _ _ _ _ _ _ _ Heps Hcall1 Hp1) as (_ & _ & Hpos).
  destruct (mouseMoved_brush_up ev2 sh1 t1 p2 Hp2) as (sh2 & t2 & Hcall2 & Hpaint & Hskip).
  exists sh2, t2. split; [done|]. split; [done|].
  intros Hz. apply Hskip.
  by rewrite (positionChanged_same p2 p1).
Qed.
(* --------------------------------------------------------------------- *)
(** *** Slices, presses and the shared last position *)

Local Abbreviation mousePressed :=
  (OnMousePressed WorldToIndex FillContourInSlice2 m_InternalFillValue eps normalize
     BackProjectContourFrom2DSlice IsClosed_New isAbstractTransformGeometry
     MatrixEqualElementWise
     OffsetEqual InitializeZero GetAffectedImageSliceAs2DImage).
Local Abbreviation hover :=
  (OnMouseMoved WorldToIndex FillContourInSlice2 m_InternalFillValue eps normalize
     BackProjectContourFrom2DSlice IsClosed_New isAbstractTransformGeometry
     MatrixEqualElementWise
     OffsetEqual InitializeZero GetAffectedImageSliceAs2DImage).

(** [std::round] moves a coordinate by at most one half. *)
Lemma std_round_near (q : Q) :
  ((std_round q - q) * (std_round q - q) <= 1 # 4)%Q.
Proof.
  unfold std_round. destruct (Qle_bool 0 q).
  - pose proof (Qfloor_le (q + (1 # 2))) as H1.
    pose proof (Qlt_floor (q + (1 # 2))) as H2.
    rewrite inject_Z_plus in H2. change (inject_Z 1) with 1%Q in H2.
    set (n := inject_Z (Qfloor (q + (1 # 2)))) in *.
    assert (0 <= ((1 # 2) - (n - q)) * ((1 # 2) + (n - q)))%Q
      by (apply Qmult_le_0_compat; lra).
    lra.
  - pose proof (Qle_ceiling (q - (1 # 2))) as H1.
    pose proof (Qceiling_lt (q - (1 # 2))) as H2.
    unfold Z.sub in H2. rewrite inject_Z_plus, inject_Z_opp in H2.
    change (inject_Z 1) with 1%Q in H2.
    set (n := inject_Z (Qceiling (q - (1 # 2)))) in *.
    assert (0 <= ((1 # 2) - (n - q)) * ((1 # 2) + (n - q)))%Q
      by (apply Qmult_le_0_compat; lra).
    lra.
Qed.

(** [CheckIfCurrentSliceHasChanged] is idempotent: a second call for the
    same event finds the plane unchanged and the slices in place and
    changes nothing.  The element-wise comparisons of a plane's transform
    with itself succeed (no NaN entries). *)
Theorem CheckIfCurrentSliceHasChanged_idempotent (ev : Event) (sh : Shared Image)
    (t : Tool) :
  (∀ plane, MatrixEqualElementWise plane plane = true) →
  (∀ plane, OffsetEqual plane plane = true) →
  check ev sh (check ev sh t) = check ev sh t.
Proof.
  intros Hmatrix Hoffset. unfold CheckIfCurrentSliceHasChanged.
  destruct (GetCurrentWorldPlaneGeometry ev) as [plane|] eqn:Hplane; [|done].
  destruct (isAbstractTransformGeometry plane) eqn:Habstract; [done|].
  destruct (GetWorkingData sh) as [[image|]|] eqn:Hdata; [|done..].
  destruct t as [value size master [ws|] [ps|] [current|] last sender slice fb color
                   visible nodeColor];
    cbn;
    try (destruct (MatrixEqualElementWise plane current) eqn:Hm;
         destruct (OffsetEqual plane current) eqn:Ho);
    cbn; rewrite ?Hmatrix, ?Hoffset, ?Hm, ?Ho; cbn; reflexivity.
Qed.


(** On a press the rounded position is less than one voxel away from the
    unrounded one: not farther than the radius of a brush of size 2 or more. *)
Lemma press_distance (ws : Slice) (world : Point3D) (size : Z) :
  2 <= size →
  fartherThan (dist2 (roundToVoxelCenter (WorldToIndex ws world)) (WorldToIndex ws world))
              (inject_Z size / 2) = false.
Proof.
  intros Hsize. unfold fartherThan, sqrt_gt.
  assert (Hr : (1 <= inject_Z size / 2)%Q).
  { rewrite Zle_Qle in Hsize. change (inject_Z 2) with 2%Q in Hsize.
    unfold Qdiv. change (/ 2)%Q with (1 # 2)%Q. lra. }
  destruct (Qle_bool 0 _) eqn:E.
  2:{ apply not_true_iff_false in E. exfalso. apply E. apply Qle_bool_iff. lra. }
  apply Qlt_bool_false.
  unfold dist2, roundToVoxelCenter, p3x, p3y, p3z. cbn [fst snd].
  set (p := WorldToIndex ws world).
  pose proof (std_round_near (fst (fst p))).
  pose proof (std_round_near (snd (fst p))).
  set (r := (inject_Z size / 2)%Q) in *.
  assert (1 <= r * r)%Q by nra.
  lra.
Qed.

(** The contour step changes nothing but the master contour and the size
    it was built for. *)
Lemma contour_step_frame (ev : Event) (sh : Shared Image) (tc t2 : Tool) :
  (if negb (m_LastContourSize tc =? m_Size sh)
   then set_LastContourSize (m_Size sh) <$> UpdateContour IsClosed_New (Some ev) sh tc
   else Some tc) = Some t2 →
  m_CurrentPlane t2 = m_CurrentPlane tc
  ∧ paintingNodeVisible t2 = paintingNodeVisible tc
  ∧ m_PaintingPixelValue t2 = m_PaintingPixelValue tc.
Proof.
  destruct (negb _).
  - unfold UpdateContour. destruct (buildContour _); [|done]. by intros [= <-].
  - by intros [= <-].
Qed.

(** A press on the slice the tool already works on, with a brush of size
    2 or more, paints exactly one brush footprint: the painting slice is
    started afresh (whatever an earlier stroke left in it is gone), the
    closed contour with the vertices of the master contour of the current
    size, moved to the rounded position, is filled once, and no gap
    rectangle is filled.  The master contour is the one the tool had, now
    marked closed, or a new one when the size has changed.  The painting
    node is shown, and the stroke position is the rounded position. *)
Theorem press_paints_one_footprint (sh : Shared Image) (t : Tool) (ev : Event)
    (ws : Slice) (current plane : PlaneGeometry) (image : Image) :
  2 <= m_Size sh →
  m_WorkingSlice t = Some ws →
  m_CurrentPlane t = Some current →
  GetCurrentWorldPlaneGeometry ev = Some plane →
  isAbstractTransformGeometry plane = false →
  MatrixEqualElementWise plane current = true →
  OffsetEqual plane current = true →
  GetWorkingData sh = Some (Some image) →
  ∃ sh' t',
    mousePressed (Some ev) sh t = Some (sh', t')
    ∧ let p := roundToVoxelCenter (WorldToIndex ws (GetPositionInWorld ev)) in
      m_WorkingSlice t' = Some ws
      ∧ Some (m_MasterContour t')
        = (if m_LastContourSize t =? m_Size sh
           then Some (SetClosed true (m_MasterContour t))
           else ContourModel_New IsClosed_New <$> buildContour (m_Size sh))
      ∧ m_PaintingSlice t'
        = Some (FillContourInSlice2
                  (mkContourModel (translate p <$> vertexList (m_MasterContour t')) true)
                  (InitializeZero ws) m_InternalFillValue)
      ∧ m_LastPosition t' = p
      ∧ lastPos sh' = p
      ∧ paintingNodeVisible t' = true.
Proof.
  intros Hsize Hws Hcurrent Hplane Habstract Hmatrix Hoffset Hdata.
  unfold OnMousePressed. rewrite Hws. cbv zeta.
  set (t1 := set_MasterContour _ (set_press _ _ _ _)).
  unfold MouseMoved. cbv beta iota zeta delta [mbind option_bind].
  assert (Hcheck : check ev sh t1
            = set_paintingNode true
                (if m_PaintingPixelValue t =? 1 then (0, 1, 0)%Q else (1, 0, 0)%Q)
                (set_PaintingSlice (Some (InitializeZero ws)) t1)).
  { unfold CheckIfCurrentSliceHasChanged. rewrite Hplane, Habstract, Hdata.
    unfold t1. cbn. rewrite Hcurrent, Hws, Hmatrix, Hoffset. cbn. by rewrite Hws. }
  rewrite Hcheck. set (tc := set_paintingNode _ _ _).
  destruct (contour_step ev sh tc) as (t2 & Ht2 & Hlast & Hws2 & Hcontour & Hps2 & Hstroke).
  destruct (contour_step_frame ev sh tc t2 Ht2) as (_ & Hvisible & _).
  rewrite Ht2, Hws2. unfold tc at 1. cbn [m_WorkingSlice set_paintingNode set_PaintingSlice set_slices].
  unfold t1 at 1. cbn [m_WorkingSlice set_press set_MasterContour]. rewrite Hws.
  rewrite orb_true_r, Hps2. unfold tc at 1. cbn [m_PaintingSlice set_paintingNode set_PaintingSlice set_slices].
  destruct Hstroke as [Hpos _]. rewrite Hpos.
  unfold tc at 2. cbn [m_LastPosition set_paintingNode set_PaintingSlice set_slices].
  unfold t1 at 1. cbn [m_LastPosition set_press set_MasterContour].
  rewrite press_distance by done.
  eexists _, _. split; [reflexivity|]. cbn.
  split_and!; try done.
  by rewrite Hws2.
Qed.

(** [lastPos] is a function-static of [MouseMoved]: every tool instance
    compares against the position the last call of any instance stored.
    When instance [a] has handled a position, a call with the brush up of
    another instance [b] at the same position is skipped: the shared state
    stays, [b] keeps its stroke position and its feedback contour, and
    nothing is painted. *)
Theorem lastPos_is_shared_by_all_instances (sh sh1 : Shared Image) (a a1 b : Tool)
    (ev1 ev2 : Event) (brushDown1 : bool) (p1 p2 : Point3D) :
  (0 <= eps)%Q →
  mouseMoved (Some ev1) brushDown1 sh a = Some (sh1, a1) →
  position ev1 sh a = Some p1 →
  position ev2 sh1 b = Some p2 →
  samePoint p2 p1 →
  ∃ b2,
    mouseMoved (Some ev2) false sh1 b = Some (sh1, b2)
    ∧ strokeUntouched b b2
    ∧ paintingUntouched InitializeZero b b2.
Proof.
  intros Heps Hcall1 Hp1 Hp2 Hsame.
  destruct (mouseMoved_settles _ _ _ _ _ _ _ Heps Hcall1 Hp1) as (_ & _ & Hpos).
  destruct (mouseMoved_brush_up ev2 sh1 b p2 Hp2) as (sh2 & b2 & Hcall2 & Hpaint & Hskip).
  destruct Hskip as [-> Hstroke].
  { by rewrite (positionChanged_same p2 p1). }
  by exists b2.
Qed.

(** After the working data changed the tool has no working slice: a press
    is ignored (nothing changes), until a mouse move on a regular plane
    over a working image has taken the slice of that image and a blank
    painting slice for the plane of the event. *)
Theorem press_after_working_data_change_is_ignored (sh : Shared Image) (t : Tool)
    (ev : Event) (plane : PlaneGeometry) (image : Image) :
  GetCurrentWorldPlaneGeometry ev = Some plane →
  isAbstractTransformGeometry plane = false →
  GetWorkingData sh = Some (Some image) →
  let t0 := OnToolManagerWorkingDataModified t in
  mousePressed (Some ev) sh t0 = Some (sh, t0)
  ∧ ∃ sh1 t1,
      hover (Some ev) sh t0 = Some (sh1, t1)
      ∧ m_WorkingSlice t1 = Some (GetAffectedImageSliceAs2DImage ev image)
      ∧ m_PaintingSlice t1
        = Some (InitializeZero (GetAffectedImageSliceAs2DImage ev image))
      ∧ m_CurrentPlane t1 = Some plane.
Proof.
  intros Hplane Habstract Hdata t0. split; [done|].
  unfold OnMouseMoved, MouseMoved. cbv beta iota zeta delta [mbind option_bind].
  assert (Hcheck : check ev sh t0
            = set_paintingNode (paintingNodeVisible t)
                (if m_PaintingPixelValue t =? 1 then (0, 1, 0)%Q else (1, 0, 0)%Q)
                (set_slices (Some plane) (Some (GetAffectedImageSliceAs2DImage ev image))
                   (Some (InitializeZero (GetAffectedImageSliceAs2DImage ev image))) t0)).
  { unfold CheckIfCurrentSliceHasChanged. rewrite Hplane, Habstract, Hdata.
    unfold t0, OnToolManagerWorkingDataModified. cbn.
    destruct (m_CurrentPlane t); reflexivity. }
  rewrite Hcheck. set (tc := set_paintingNode _ _ _).
  destruct (contour_step ev sh tc) as (t2 & Ht2 & Hlast & Hws2 & Hcontour & Hps2 & Hstroke).
  destruct (contour_step_frame ev sh tc t2 Ht2) as (Hplane2 & _ & _).
  rewrite Ht2, Hws2. unfold tc at 1. cbn [m_WorkingSlice set_paintingNode set_slices].
  rewrite orb_false_r.
  destruct (positionChanged _ _ _).
  - eexists _, _. split; [reflexivity|]. cbn. by rewrite Hws2, Hps2, Hplane2.
  - exists sh, t2. split; [done|]. by rewrite Hws2, Hps2, Hplane2.
Qed.
End Stroke.

(** Halves are rounded away from zero. *)
Example std_round_halves :
  std_round <$> [5 # 2; -5 # 2; 12 # 5; -12 # 5; 0]%Q = [3; -3; 2; -2; 0]%Q.
Proof. reflexivity. Qed.

(** Worked contours: a single pixel for size 1, a 2 x 2 square for size 2. *)
Example buildContour_1 :
  PaintbrushContour.buildContour 1
  = Some [(-1 # 2, 1 # 2, 0); (-1 # 2, -1 # 2, 0); (1 # 2, -1 # 2, 0); (1 # 2, 1 # 2, 0)]%Q.
Proof. reflexivity. Qed.

Example buildContour_2 :
  PaintbrushContour.buildContour 2
  = Some [(-1 # 2, 3 # 2, 0); (3 # 2, 3 # 2, 0); (3 # 2, -1 # 2, 0); (-1 # 2, -1 # 2, 0);
          (3 # 2, -1 # 2, 0); (-1 # 2, -1 # 2, 0); (-1 # 2, 3 # 2, 0); (3 # 2, 3 # 2, 0)]%Q.
Proof. reflexivity. Qed.

Example buildContour_sizes :
  (λ size, length <$> PaintbrushContour.buildContour size) <$> [1; 2; 3; 4; 5; 10; 11]
  = Some <$> [4; 8; 8; 16; 16; 24; 32]%nat.
Proof. vm_compute. reflexivity. Qed.

(** C5 (as stated) fails: with size 0 the contour build replaces the empty
    master contour of a fresh tool by a contour of four vertices. *)
Lemma C5_counterexample_size_zero :
  ∃ t',
    Paintbrush.UpdateContour false (Some (PaintbrushExample.event 0 0))
      (PaintbrushExample.shared 0) PaintbrushExample.tool0 = Some t'
    ∧ vertexList (Paintbrush.m_MasterContour t')
      = [(-1 # 2, 1 # 2, 0); (-1 # 2, 1 # 2, 0); (3 # 2, 1 # 2, 0); (3 # 2, 1 # 2, 0)]%Q
    ∧ Paintbrush.m_MasterContour t'
      ≠ Paintbrush.m_MasterContour PaintbrushExample.tool0.
Proof.
  eexists. split; [vm_compute; reflexivity|]. split; [reflexivity|discriminate].
Qed.

Lemma C5_nonpositive_size_witness :
  Paintbrush.UpdateContour false (Some (PaintbrushExample.event 0 0))
    (PaintbrushExample.shared (-3)) PaintbrushExample.tool0
  = Some (Paintbrush.set_MasterContour
            (Paintbrush.ContourModel_New false
               (PaintbrushContour.assemble false
                  [(0 - (1 # 2), inject_Z (-1) + (1 # 2))%Q]))
            PaintbrushExample.tool0)
  ∧ length (PaintbrushContour.assemble false [(0 - (1 # 2), inject_Z (-1) + (1 # 2))%Q])
    = 4%nat.
Proof.
  apply (C5_nonpositive_size_builds_degenerate_contour false
           (PaintbrushExample.shared (-3)) PaintbrushExample.tool0
           (PaintbrushExample.event 0 0)).
  simpl. lia.
Defined.


Lemma C7_second_call_witness :
  ∃ sh1 t1,
    PaintbrushExample.mouseMoved (Some (PaintbrushExample.event (11 # 5) (17 # 5))) true
      (PaintbrushExample.shared 3) PaintbrushExample.tool0 = Some (sh1, t1)
    ∧ ∃ sh2 t2,
        PaintbrushExample.mouseMoved (Some (PaintbrushExample.event (9 # 5) (13 # 5)))
          false sh1 t1 = Some (sh2, t2)
        ∧ Paintbrush.paintingUntouched (λ _, 0%nat) t1 t2
        ∧ ((0 == 0)%Q → sh2 = sh1 ∧ Paintbrush.strokeUntouched t1 t2).
Proof.
  do 2 eexists. split; [vm_compute; reflexivity|].
  eapply (C7_second_call_is_no_op (Slice:=PaintbrushExample.Slice) (Image:=unit)
            (PlaneGeometry:=unit) (Sender:=unit)
            _ _ _ PaintbrushExample.eps _ _ _ _ _ _ _ _
            (PaintbrushExample.shared 3) _ PaintbrushExample.tool0 _
            (PaintbrushExample.event (11 # 5) (17 # 5))
            (PaintbrushExample.event (9 # 5) (13 # 5)) true (2, 3, 0)%Q (2, 3, 0)%Q).
  - vm_compute. discriminate.
  - vm_compute. reflexivity.
  - vm_compute. reflexivity.
  - vm_compute. reflexivity.
  - reflexivity.
  - reflexivity.
Defined.

(* ===================================================================== *)
(** ** Accept-all, accept and interpolate *)
(* ===================================================================== *)

Section AcceptAll.
Import SlicesInterpolator.
Context {TimePoint PlaneGeometry SliceData : Type}
  (DetermineAffectedImageSlice : ImageGeometry TimePoint → PlaneGeometry → Z * Z)
  (Interpolate_ : Z → Z → PlaneGeometry → nat → option SliceData)
  (OverwriteSlice : PlaneGeometry → SliceData → (Voxel → Z) → (Voxel → Z))
  (SetOriginToSlice : ImageGeometry TimePoint → PlaneGeometry → Z → nat → PlaneGeometry)
  (TimeSelectorGeometry : ImageGeometry TimePoint → nat → ImageGeometry TimePoint).

Local Abbreviation St := (State TimePoint PlaneGeometry SliceData).
Local Abbreviation SNC := (SliceNavigationController TimePoint PlaneGeometry).
Local Abbreviation acceptAll :=
  (AcceptAllInterpolations DetermineAffectedImageSlice Interpolate_ OverwriteSlice
     SetOriginToSlice TimeSelectorGeometry).
Local Abbreviation interpolate := (Interpolate DetermineAffectedImageSlice Interpolate_).
Local Abbreviation acceptOne := (OnAcceptInterpolationClicked OverwriteSlice).
Local Abbreviation slice1 := (interpolateSlice Interpolate_ OverwriteSlice SetOriginToSlice).
Local Abbreviation thread := (interpolateThread Interpolate_ OverwriteSlice SetOriginToSlice).
Local Abbreviation threads := (runThreads Interpolate_ OverwriteSlice SetOriginToSlice).
Local Abbreviation allEmpty :=
  (everyInterpolationEmpty DetermineAffectedImageSlice Interpolate_ SetOriginToSlice).
Local Abbreviation visits := (passVisits DetermineAffectedImageSlice SetOriginToSlice).

(** *** Applying and reversing a diff image *)

(** A do and an undo operation on the same image and diff image cancel. *)
Lemma ExecuteOperation_apply (h : gmap nat (Image TimePoint)) (seg d : nat)
    (timeStep : nat) (factor : Z) (image diff : Image TimePoint) :
  h !! seg = Some image → h !! d = Some diff →
  ExecuteOperation (mkDiffOp seg d timeStep factor) h
  = <[seg := mkImage (geometry image)
               (λ t p, if (t =? timeStep)%nat
                       then voxels image t p + factor * voxels diff 0%nat p
                       else voxels image t p)]> h.
Proof. intros Hs Hd. unfold ExecuteOperation. simpl. by rewrite Hs, Hd. Qed.

Lemma apply_then_reverse (h : gmap nat (Image TimePoint)) (seg d : nat)
    (timeStep : nat) (image diff : Image TimePoint) :
  seg ≠ d → h !! seg = Some image → h !! d = Some diff →
  ∃ applied restored,
    ExecuteOperation (mkDiffOp seg d timeStep 1) h !! seg = Some applied
    ∧ ExecuteOperation (mkDiffOp seg d timeStep 1) h !! d = Some diff
    ∧ (∀ t p, voxels applied t p
              = if (t =? timeStep)%nat then voxels image t p + voxels diff 0%nat p
                else voxels image t p)
    ∧ ExecuteOperation (mkDiffOp seg d timeStep (-1))
        (ExecuteOperation (mkDiffOp seg d timeStep 1) h) !! seg = Some restored
    ∧ ∀ t p, voxels restored t p = voxels image t p.
Proof.
  intros Hne Hs Hd.
  rewrite (ExecuteOperation_apply h seg d timeStep 1 image diff Hs Hd).
  eexists _, _. split; [by rewrite lookup_insert_eq|].
  split; [by rewrite lookup_insert_ne|].
  split. { intros t p. simpl. destruct (t =? timeStep)%nat; lia. }
  erewrite ExecuteOperation_apply;
    [|by rewrite lookup_insert_eq|by rewrite lookup_insert_ne].
  split; [by rewrite lookup_insert_eq|].
  intros t p. simpl. destruct (t =? timeStep)%nat; lia.
Qed.

(** *** The calls of a pass *)

Lemma threadVisits_indices (g : ImageGeometry TimePoint) (dim : Z) (indices : list nat) :
  ∀ plane0 : PlaneGeometry, (threadVisits SetOriginToSlice g plane0 dim indices).*1 = indices.
Proof.
  induction indices as [|i indices IH]; intros plane0; [done|].
  cbn. by rewrite IH.
Qed.

(** On a platform that reports its parallelism the threads call the
    interpolator once for every slice index of the segmentation. *)
Lemma passVisits_indices (pf : Platform) (g : ImageGeometry TimePoint) (slicer : SNC) :
  (0 < hardware_concurrency pf)%nat →
  (visits pf g slicer).*1
  ≡ₚ seq 0 (acceptAllNumSlices DetermineAffectedImageSlice g (GetCurrentPlaneGeometry slicer)).
Proof.
  intros Hhw. unfold passVisits.
  destruct (sliceIndicesFor_permutation pf
              (acceptAllNumSlices DetermineAffectedImageSlice g
                 (GetCurrentPlaneGeometry slicer)) Hhw)
    as (sliceIndices & -> & <-).
  induction sliceIndices as [|indices rest IH]; [done|].
  cbn. by rewrite fmap_app, threadVisits_indices, IH.
Qed.

(** *** A pass without any interpolation result *)

Lemma interpolateThread_empty (g : ImageGeometry TimePoint) (dim : Z) (timeStep : nat)
    (indices : list nat) : ∀ (plane0 : PlaneGeometry) (pass : Pass),
  (∀ (i : nat) plane, (i, plane) ∈ threadVisits SetOriginToSlice g plane0 dim indices →
                      Interpolate_ dim (Z.of_nat i) plane timeStep = None) →
  diffPixels (thread g plane0 dim timeStep pass indices) = diffPixels pass
  ∧ totalChangedSlices (thread g plane0 dim timeStep pass indices)
    = totalChangedSlices pass.
Proof.
  unfold interpolateThread.
  induction indices as [|i indices IH]; intros plane0 pass Hempty; [done|].
  cbn [foldl]. unfold interpolateSlice at 2 4. cbn [fst snd].
  rewrite (Hempty i (SetOriginToSlice g plane0 dim i)) by (simpl; left).
  destruct (IH (SetOriginToSlice g plane0 dim i)
               (mkPass (diffPixels pass) (totalChangedSlices pass) (S (progress pass))))
    as [H1 H2].
  { intros j plane Hj. apply Hempty. simpl. by right. }
  by rewrite H1, H2.
Qed.

Lemma runThreads_empty (g : ImageGeometry TimePoint) (plane0 : PlaneGeometry)
    (dim : Z) (timeStep : nat) (sliceIndices : list (list nat)) : ∀ pass : Pass,
  (∀ (i : nat) plane,
     (i, plane) ∈ concat (threadVisits SetOriginToSlice g plane0 dim <$> sliceIndices) →
     Interpolate_ dim (Z.of_nat i) plane timeStep = None) →
  diffPixels (threads g plane0 dim timeStep pass sliceIndices) = diffPixels pass
  ∧ totalChangedSlices (threads g plane0 dim timeStep pass sliceIndices)
    = totalChangedSlices pass.
Proof.
  unfold runThreads.
  induction sliceIndices as [|indices rest IH]; intros pass Hempty; [done|].
  cbn [foldl].
  destruct (interpolateThread_empty g dim timeStep indices plane0 pass) as [H1 H2].
  { intros i plane Hi. apply Hempty. simpl. apply elem_of_app. by left. }
  destruct (IH (thread g plane0 dim timeStep pass indices)) as [H3 H4].
  { intros i plane Hi. apply Hempty. simpl. apply elem_of_app. by right. }
  by rewrite H3, H4.
Qed.

(** *** The claims about accept-all, accept and interpolate *)

(** C1.  Spec-modelled applier.  When an accept-all pass has merged a diff
    volume and pushed its undo record, the record's two operations name the
    same segmentation and the same diff image with factors +1 and -1, the
    pass has added the diff to the segmentation at the pass's time step,
    and reversing the record gives every voxel of the segmentation, at
    every time step, the value it had before the pass. *)
Theorem C1_apply_then_reverse_restores (pf : Platform) (slicer : SNC) (s s' : St)
    (handle : OperationEvent) (seg : nat) (segmentation : Image TimePoint) :
  acceptAll pf slicer s = Some s' →
  undoStack s' = handle :: undoStack s →
  m_Segmentation s = Some seg →
  images s !! seg = Some segmentation →
  let timeStep := acceptAllTimeStep (geometry segmentation) (GetSelectedTimePoint slicer) in
  ∃ diffImage diff applied restored,
    doOp handle = mkDiffOp seg diffImage timeStep 1
    ∧ undoOp handle = mkDiffOp seg diffImage timeStep (-1)
    ∧ images s' !! diffImage = Some diff
    ∧ images s' !! seg = Some applied
    ∧ (∀ t p, voxels applied t p
              = if (t =? timeStep)%nat
                then voxels segmentation t p + voxels diff 0%nat p
                else voxels segmentation t p)
    ∧ images (Reverse handle s') !! seg = Some restored
    ∧ ∀ t p, voxels restored t p = voxels segmentation t p.
Proof.
  intros Hrun Hstack Hseg Himg timeStep.
  assert (Hcons : ∀ (x : OperationEvent) l, l ≠ x :: l).
  { intros x l H. apply (f_equal length) in H. simpl in H. lia. }
  unfold AcceptAllInterpolations in Hrun. rewrite Hseg in Hrun.
  cbv beta iota zeta delta [mbind option_bind] in Hrun. rewrite Himg in Hrun.
  destruct (_ && negb _).
  { injection Hrun as <-. simpl in Hstack. by apply Hcons in Hstack. }
  destruct (sliceIndicesFor pf _) as [sliceIndices|]; [|done].
  fold timeStep in Hrun.
  set (pass := runThreads _ _ _ _ _ _ _ _ _) in Hrun.
  destruct (0 <? totalChangedSlices pass).
  2:{ injection Hrun as <-. simpl in Hstack. by apply Hcons in Hstack. }
  simpl in Hrun.
  set (d := fresh (dom (images s))) in Hrun.
  set (diff := mkImage _ (λ _ : nat, diffPixels pass)) in Hrun.
  assert (Hd : seg ≠ d).
  { intros ->. apply (is_fresh (dom (images s))). apply elem_of_dom. eauto. }
  destruct (apply_then_reverse (<[d := diff]> (images s)) seg d timeStep segmentation diff)
    as (applied & restored & Happlied & Hdiff & Hvox & Hrestored & Hback);
    [done|by rewrite lookup_insert_ne|by rewrite lookup_insert_eq|].
  injection Hrun as <-. simpl in Hstack. injection Hstack as <-.
  exists d, diff, applied, restored. simpl. done.
Qed.

(** C3 (as the code has it).  With a time point outside the segmentation's
    time bounds, [Interpolate] and [OnAcceptInterpolationClicked] always,
    and [AcceptAllInterpolations] when the segmentation is 4-D, stop
    before any work: a warning is logged, and the images, the undo stack,
    the event ids and the interpolation preview are as before. *)
Theorem C3_invalid_time_point_aborts (s : St) :
  (∀ plane timePoint slicer node segmentation,
     toolManager s = WorkingImage node →
     images s !! node = Some segmentation →
     IsValidTimePoint (geometry segmentation) timePoint = false →
     ∃ s', interpolate plane timePoint slicer s = Some s'
           ∧ abortedWith (CannotInterpolateSegmentation timePoint) s s')
  ∧ (∀ seg slice lastSNC segmentation,
       m_Segmentation s = Some seg →
       m_FeedbackNode s = Some slice →
       m_LastSNC s = Some lastSNC →
       images s !! seg = Some segmentation →
       IsValidTimePoint (geometry segmentation) (GetSelectedTimePoint lastSNC) = false →
       ∃ s', acceptOne s = Some s'
             ∧ abortedWith (CannotAcceptInterpolation (GetSelectedTimePoint lastSNC)) s s')
  ∧ (∀ pf slicer seg segmentation,
       m_Segmentation s = Some seg →
       images s !! seg = Some segmentation →
       GetDimension (geometry segmentation) = 4%nat →
       IsValidTimePoint (geometry segmentation) (GetSelectedTimePoint slicer) = false →
       ∃ s', acceptAll pf slicer s = Some s'
             ∧ abortedWith (CannotAcceptAllInterpolations (GetSelectedTimePoint slicer)) s s').
Proof.
  split; [|split].
  - intros plane timePoint slicer node segmentation Htm Himg Hinvalid.
    unfold Interpolate. rewrite Htm. simpl. rewrite Himg. simpl. rewrite Hinvalid. simpl.
    eexists. split; [done|]. by repeat split.
  - intros seg slice lastSNC segmentation Hseg Hfb Hsnc Himg Hinvalid.
    unfold OnAcceptInterpolationClicked. rewrite Hseg, Hfb, Hsnc. simpl.
    rewrite Himg. simpl. rewrite Hinvalid. simpl.
    eexists. split; [done|]. by repeat split.
  - intros pf slicer seg segmentation Hseg Himg H4D Hinvalid.
    unfold AcceptAllInterpolations. rewrite Hseg. simpl. rewrite Himg. simpl.
    rewrite H4D, Hinvalid. simpl.
    eexists. split; [done|]. by repeat split.
Qed.

(** A pass without result, and the counter it is judged by.  The guard
    [totalChangedSlices > 0] reads a counter that is declared without an
    initialiser.  When every interpolation the threads ask for comes back
    empty the counter still holds its start value: with start value zero
    the call completes without a merge (no image is written or created, no
    operation pair is made, undo stack and event ids stay); with any other
    start value one undo record with that value as its count is pushed for
    a fresh diff image and both event ids go up, although no slice
    changed. *)
Theorem empty_pass_is_judged_by_the_counter_start (pf : Platform) (slicer : SNC)
    (s : St) (seg : nat) (segmentation : Image TimePoint) :
  let g := geometry segmentation in
  let timeStep := acceptAllTimeStep g (GetSelectedTimePoint slicer) in
  (0 < hardware_concurrency pf)%nat →
  m_Segmentation s = Some seg →
  images s !! seg = Some segmentation →
  allEmpty pf g slicer →
  ∃ s',
    acceptAll pf slicer s = Some s'
    ∧ (atomic_uint_default pf = 0 → segmentationUntouched s s')
    ∧ (0 < atomic_uint_default pf →
       (GetDimension g = 4%nat → IsValidTimePoint g (GetSelectedTimePoint slicer) = true) →
       ∃ diffImage,
         undoStack s'
         = mkOperationEvent (mkDiffOp seg diffImage timeStep 1)
             (mkDiffOp seg diffImage timeStep (-1)) (atomic_uint_default pf)
           :: undoStack s
         ∧ (diffImage ∉ dom (images s))
         ∧ currGroupEventId s' = currGroupEventId s + 1
         ∧ currObjectEventId s' = currObjectEventId s + 1).
Proof.
  intros g timeStep Hhw Hseg Himg Hempty.
  unfold AcceptAllInterpolations. rewrite Hseg.
  cbv beta iota zeta delta [mbind option_bind]. rewrite Himg.
  fold g timeStep.
  destruct (_ && negb _) eqn:Hstop.
  { eexists. split; [done|]. split; [by repeat split|].
    intros _ Hvalid. exfalso.
    apply andb_true_iff in Hstop as [H4 Hinvalid].
    apply Nat.eqb_eq in H4. by rewrite (Hvalid H4) in Hinvalid. }
  unfold everyInterpolationEmpty, passVisits in Hempty. fold g timeStep in Hempty.
  destruct (sliceIndicesFor_permutation pf
              (acceptAllNumSlices DetermineAffectedImageSlice g
                 (GetCurrentPlaneGeometry slicer)) Hhw)
    as (sliceIndices & Hindices & _).
  rewrite Hindices in Hempty |- *.
  destruct (runThreads_empty g (GetCurrentPlaneGeometry slicer) _ timeStep sliceIndices
              (mkPass (λ _, 0) (atomic_uint_default pf) 0%nat) Hempty) as [_ Hcount].
  rewrite Hcount. cbn [totalChangedSlices].
  destruct (Z.ltb_spec 0 (atomic_uint_default pf)) as [Hpos|Hzero].
  - eexists. split; [done|]. split; [lia|]. intros _ _.
    exists (fresh (dom (images s))). simpl. split_and!; try done. apply is_fresh.
  - eexists. split; [done|]. split; [by repeat split|]. lia.
Qed.

(* --------------------------------------------------------------------- *)
(** *** The bookkeeping of a pass: progress and the changed-slices counter *)

(** Every slice index a thread walks is one step of the progress bar. *)
Lemma interpolateThread_progress (g : ImageGeometry TimePoint) (dim : Z)
    (timeStep : nat) (indices : list nat) : ∀ (plane0 : PlaneGeometry) (pass : Pass),
  progress (thread g plane0 dim timeStep pass indices)
  = (progress pass + length indices)%nat.
Proof.
  unfold interpolateThread.
  induction indices as [|i indices IH]; intros plane0 pass; simpl; [lia|].
  unfold interpolateSlice at 2. simpl.
  destruct (Interpolate_ dim (Z.of_nat i) _ timeStep); simpl; rewrite IH; simpl; lia.
Qed.

Lemma runThreads_progress (g : ImageGeometry TimePoint) (plane0 : PlaneGeometry)
    (dim : Z) (timeStep : nat) (sliceIndices : list (list nat)) : ∀ pass : Pass,
  progress (threads g plane0 dim timeStep pass sliceIndices)
  = (progress pass + length (concat sliceIndices))%nat.
Proof.
  unfold runThreads.
  induction sliceIndices as [|indices rest IH]; intros pass; simpl; [lia|].
  rewrite IH, interpolateThread_progress, length_app. lia.
Qed.

(** Far from the wrap-around, a thread adds to the counter at most the
    number of its slices, and at least one when one of its calls of the
    interpolator returns a slice. *)
Lemma interpolateThread_counts (g : ImageGeometry TimePoint) (dim : Z)
    (timeStep : nat) (indices : list nat) : ∀ (plane0 : PlaneGeometry) (pass : Pass),
  0 <= totalChangedSlices pass →
  totalChangedSlices pass + Z.of_nat (length indices) < uint_modulus →
  let after := totalChangedSlices (thread g plane0 dim timeStep pass indices) in
  totalChangedSlices pass <= after <= totalChangedSlices pass + Z.of_nat (length indices)
  ∧ ((∃ (i : nat) plane,
        (i, plane) ∈ threadVisits SetOriginToSlice g plane0 dim indices
        ∧ is_Some (Interpolate_ dim (Z.of_nat i) plane timeStep)) →
     totalChangedSlices pass < after).
Proof.
  unfold interpolateThread.
  induction indices as [|i indices IH]; intros plane0 pass Hlow Hhigh;
    cbn [foldl length threadVisits] in Hhigh |- *.
  { simpl. split; [lia|]. intros (i & plane & Hi & _). by apply elem_of_nil in Hi. }
  rewrite Nat2Z.inj_succ in Hhigh |- *.
  unfold interpolateSlice at 2 4 6. cbn [fst snd].
  destruct (Interpolate_ dim (Z.of_nat i) _ timeStep) as [interpolation|] eqn:Hi.
  - set (pass1 := mkPass _ _ _).
    assert (H1 : totalChangedSlices pass1 = totalChangedSlices pass + 1).
    { unfold pass1, atomic_uint_increment. simpl. apply Z.mod_small. lia. }
    clearbody pass1.
    destruct (IH (SetOriginToSlice g plane0 dim i) pass1) as [Hrange _]; [lia..|].
    split; [lia|]. intros _. lia.
  - set (pass1 := mkPass _ _ _).
    assert (H1 : totalChangedSlices pass1 = totalChangedSlices pass) by done.
    clearbody pass1.
    destruct (IH (SetOriginToSlice g plane0 dim i) pass1) as [Hrange Hsome]; [lia..|].
    split; [lia|].
    intros (j & plane & Hj & [? Hsome']). apply elem_of_cons in Hj as [[= -> ->]|Hj].
    + congruence.
    + rewrite <- H1. apply Hsome. eauto.
Qed.

Lemma runThreads_counts (g : ImageGeometry TimePoint) (plane0 : PlaneGeometry)
    (dim : Z) (timeStep : nat) (sliceIndices : list (list nat)) : ∀ pass : Pass,
  0 <= totalChangedSlices pass →
  totalChangedSlices pass + Z.of_nat (length (concat sliceIndices)) < uint_modulus →
  let after := totalChangedSlices (threads g plane0 dim timeStep pass sliceIndices) in
  totalChangedSlices pass <= after
    <= totalChangedSlices pass + Z.of_nat (length (concat sliceIndices))
  ∧ ((∃ (i : nat) plane,
        (i, plane) ∈ concat (threadVisits SetOriginToSlice g plane0 dim <$> sliceIndices)
        ∧ is_Some (Interpolate_ dim (Z.of_nat i) plane timeStep)) →
     totalChangedSlices pass < after).
Proof.
  unfold runThreads.
  induction sliceIndices as [|indices rest IH]; intros pass Hlow Hhigh;
    cbn [foldl concat fmap list_fmap] in Hhigh |- *.
  { simpl. split; [lia|]. intros (i & plane & Hi & _). by apply elem_of_nil in Hi. }
  rewrite length_app, Nat2Z.inj_add in Hhigh |- *.
  destruct (interpolateThread_counts g dim timeStep indices plane0 pass)
    as [Hrange1 Hsome1]; [lia..|].
  simpl in Hrange1, Hsome1.
  destruct (IH (thread g plane0 dim timeStep pass indices)) as [Hrange Hsome]; [lia..|].
  simpl in Hrange, Hsome. split; [lia|].
  intros (i & plane & Hi & Hgot). apply elem_of_app in Hi as [Hi|Hi].
  - assert (totalChangedSlices pass
            < totalChangedSlices (thread g plane0 dim timeStep pass indices))
      by (apply Hsome1; eauto).
    lia.
  - assert (totalChangedSlices (thread g plane0 dim timeStep pass indices)
            < totalChangedSlices
                (foldl (thread g plane0 dim timeStep)
                   (thread g plane0 dim timeStep pass indices) rest))
      by (apply Hsome; eauto).
    lia.
Qed.

(** Every completed accept-all call leaves the progress bar balanced: the
    steps it announced are the steps it reported done, one per slice of
    the pass when the pass ran. *)
Theorem accept_all_completes_its_progress_steps (pf : Platform) (slicer : SNC)
    (s s' : St) :
  acceptAll pf slicer s = Some s' →
  ∃ steps : nat,
    progressStepsToDo s' = (progressStepsToDo s + steps)%nat
    ∧ progressDone s' = (progressDone s + steps)%nat
    ∧ ∀ seg segmentation,
        m_Segmentation s = Some seg →
        images s !! seg = Some segmentation →
        warnings s' = warnings s →
        steps = acceptAllNumSlices DetermineAffectedImageSlice (geometry segmentation)
                  (GetCurrentPlaneGeometry slicer).
Proof.
  unfold AcceptAllInterpolations.
  destruct (m_Segmentation s) as [seg|] eqn:Hseg.
  2:{ intros [= <-]. exists 0%nat. simpl. split; [lia|]. split; [lia|]. done. }
  cbv beta iota zeta delta [mbind option_bind].
  destruct (images s !! seg) as [segmentation|] eqn:Himg; [|done].
  destruct (_ && negb _).
  { intros [= <-]. exists 0%nat. simpl. split; [lia|]. split; [lia|].
    intros ? ? _ _ Hw. apply (f_equal length) in Hw. rewrite length_app in Hw.
    simpl in Hw. lia. }
  destruct (sliceIndicesFor pf _) as [sliceIndices|] eqn:Hindices; [|done].
  apply sliceIndicesFor_length in Hindices.
  set (numSlices := acceptAllNumSlices _ _ _) in *.
  set (pass := runThreads _ _ _ _ _ _ _ _ _).
  assert (Hprogress : progress pass = numSlices).
  { unfold pass. by rewrite runThreads_progress, Hindices. }
  destruct (0 <? totalChangedSlices pass); intros [= <-]; exists numSlices; simpl;
    rewrite Hprogress; (split; [done|]); (split; [done|]);
    intros ? ? [= <-] Himg' _; rewrite Himg in Himg'; by injection Himg' as <-.
Qed.

(** The converse of the pass without result.  When one of the calls of the
    interpolator that the threads make returns a slice (on a platform that
    reports its parallelism; the counter starts at zero, the number of
    slices is an [unsigned int]), the pass is merged and recorded: exactly
    one undo record is pushed, with the do and the undo operation on the
    segmentation and a fresh diff image at the time step of the pass and a
    count of changed slices between 1 and the number of slices; both event
    ids go up by one, and the interpolation preview is cleared. *)
Theorem a_changed_slice_is_merged_and_recorded (pf : Platform) (slicer : SNC) (s : St)
    (seg : nat) (segmentation : Image TimePoint) (sliceIndex : nat)
    (plane : PlaneGeometry) :
  let g := geometry segmentation in
  let timeStep := acceptAllTimeStep g (GetSelectedTimePoint slicer) in
  let sliceDimension :=
    acceptAllSliceDimension DetermineAffectedImageSlice g (GetCurrentPlaneGeometry slicer) in
  let numSlices :=
    acceptAllNumSlices DetermineAffectedImageSlice g (GetCurrentPlaneGeometry slicer) in
  (0 < hardware_concurrency pf)%nat →
  atomic_uint_default pf = 0 →
  Z.of_nat numSlices < uint_modulus →
  m_Segmentation s = Some seg →
  images s !! seg = Some segmentation →
  (GetDimension g = 4%nat → IsValidTimePoint g (GetSelectedTimePoint slicer) = true) →
  (sliceIndex, plane) ∈ visits pf g slicer →
  is_Some (Interpolate_ sliceDimension (Z.of_nat sliceIndex) plane timeStep) →
  ∃ s' diffImage changedSlices,
    acceptAll pf slicer s = Some s'
    ∧ undoStack s'
      = mkOperationEvent (mkDiffOp seg diffImage timeStep 1)
          (mkDiffOp seg diffImage timeStep (-1)) changedSlices :: undoStack s
    ∧ (1 <= changedSlices <= Z.of_nat numSlices)
    ∧ (diffImage ∉ dom (images s))
    ∧ currGroupEventId s' = currGroupEventId s + 1
    ∧ currObjectEventId s' = currObjectEventId s + 1
    ∧ m_FeedbackNode s' = None.
Proof.
  intros g timeStep sliceDimension numSlices Hhw Hzero Huint Hseg Himg Hvalid Hvisit Hsome.
  unfold passVisits in Hvisit. fold g numSlices sliceDimension in Hvisit.
  unfold AcceptAllInterpolations. rewrite Hseg.
  cbv beta iota zeta delta [mbind option_bind]. rewrite Himg.
  fold g timeStep sliceDimension numSlices.
  assert (Hgo : (GetDimension g =? 4)%nat
                && negb (IsValidTimePoint g (GetSelectedTimePoint slicer)) = false).
  { destruct (Nat.eqb_spec (GetDimension g) 4) as [H4|]; [|done].
    by rewrite (Hvalid H4). }
  rewrite Hgo.
  destruct (sliceIndicesFor_permutation pf numSlices Hhw)
    as (sliceIndices & Hindices & Hall).
  rewrite Hindices in Hvisit |- *. rewrite Hzero.
  pose proof (sliceIndicesFor_length _ _ _ Hindices) as Hlen.
  set (pass := runThreads _ _ _ _ _ _ _ _ _).
  destruct (runThreads_counts g (GetCurrentPlaneGeometry slicer) sliceDimension timeStep
              sliceIndices (mkPass (λ _, 0) 0 0%nat))
    as [Hrange Hpos]; simpl; rewrite ?Hlen; [lia..|].
  simpl in Hrange, Hpos. rewrite Hlen in Hrange.
  fold pass in Hrange, Hpos.
  assert (Hchanged : 0 < totalChangedSlices pass).
  { apply Hpos. by exists sliceIndex, plane. }
  destruct (Z.ltb_spec 0 (totalChangedSlices pass)) as [_|]; [|lia].
  eexists _, (fresh (dom (images s))), (totalChangedSlices pass).
  split; [reflexivity|]. simpl. split_and!; try done; try lia.
  apply is_fresh.
Qed.

(** Accepting a single slice is not recorded for undo: the undo stack and
    the event ids stay.  Of the images only the segmentation changes, and
    of the segmentation only the time step of the slicer's selected time
    point; its geometry, its other time steps and every other image are as
    before, and no image is created. *)
Theorem accepting_one_slice_pushes_no_undo_record (s s' : St) :
  acceptOne s = Some s' →
  undoStack s' = undoStack s
  ∧ currGroupEventId s' = currGroupEventId s
  ∧ currObjectEventId s' = currObjectEventId s
  ∧ dom (images s') = dom (images s)
  ∧ ∀ k image,
      images s !! k = Some image →
      ∃ image',
        images s' !! k = Some image'
        ∧ geometry image' = geometry image
        ∧ (m_Segmentation s ≠ Some k → image' = image)
        ∧ ∀ lastSNC (t : nat),
            m_LastSNC s = Some lastSNC →
            t ≠ TimePointToTimeStep (geometry image) (GetSelectedTimePoint lastSNC) →
            voxels image' t = voxels image t.
Proof.
  unfold OnAcceptInterpolationClicked.
  assert (Hsame : ∀ s0 : St, images s0 = images s →
            ∀ k image, images s !! k = Some image →
            ∃ image', images s0 !! k = Some image'
              ∧ geometry image' = geometry image
              ∧ (m_Segmentation s ≠ Some k → image' = image)
              ∧ ∀ lastSNC (t : nat), m_LastSNC s = Some lastSNC →
                  t ≠ TimePointToTimeStep (geometry image) (GetSelectedTimePoint lastSNC) →
                  voxels image' t = voxels image t).
  { intros s0 -> k image Hk. exists image. by rewrite Hk. }
  destruct (m_Segmentation s) as [seg|] eqn:Hseg.
  2:{ intros [= <-]. split_and!; try done. by apply Hsame. }
  destruct (m_FeedbackNode s) as [slice|] eqn:Hfb.
  2:{ intros [= <-]. split_and!; try done. by apply Hsame. }
  cbv beta iota zeta delta [mbind option_bind].
  destruct (m_LastSNC s) as [lastSNC|] eqn:Hsnc; [|done].
  destruct (images s !! seg) as [segmentation|] eqn:Himg; [|done].
  destruct (negb _).
  { intros [= <-]. split_and!; try done. by apply Hsame. }
  intros [= <-]. simpl. split_and!; try done.
  - rewrite dom_insert_L. apply elem_of_dom_2 in Himg.
    by apply subseteq_union_1_L, singleton_subseteq_l.
  - intros k image Hk. destruct (decide (k = seg)) as [->|Hne].
    + rewrite lookup_insert_eq. rewrite Himg in Hk. injection Hk as <-.
      eexists. split; [done|]. simpl. split; [done|]. split; [done|].
      intros ? t [= <-] Ht. apply Nat.eqb_neq in Ht. by rewrite Ht.
    + rewrite lookup_insert_ne by done. exists image. rewrite Hk.
      split_and!; done.
Qed.

(** An accept that logged no warning has used up the interpolation
    preview: a single accept right after it, be it after a single accept
    or after an accept-all, changes nothing. *)
Theorem accepting_again_changes_nothing (s s' : St) :
  warnings s' = warnings s →
  (acceptOne s = Some s' → acceptOne s' = Some s')
  ∧ (∀ pf slicer, acceptAll pf slicer s = Some s' → acceptOne s' = Some s').
Proof.
  intros Hw.
  assert (Hlog : ∀ w, warnings s' ≠ warnings s ++ [w]).
  { intros w H. rewrite Hw in H. apply (f_equal length) in H.
    rewrite length_app in H. simpl in H. lia. }
  assert (Hdone : m_Segmentation s' = None ∨ m_FeedbackNode s' = None →
                  acceptOne s' = Some s').
  { unfold OnAcceptInterpolationClicked. intros [->| ->]; [done|].
    by destruct (m_Segmentation s'). }
  split.
  - unfold OnAcceptInterpolationClicked at 1.
    destruct (m_Segmentation s) as [seg|] eqn:Hseg.
    2:{ intros [= <-]. apply Hdone. by left. }
    destruct (m_FeedbackNode s) as [slice|] eqn:Hfb.
    2:{ intros [= <-]. apply Hdone. by right. }
    cbv beta iota zeta delta [mbind option_bind].
    destruct (m_LastSNC s) as [lastSNC|]; [|done].
    destruct (images s !! seg) as [segmentation|]; [|done].
    destruct (negb _).
    + intros [= <-]. by destruct (Hlog (CannotAcceptInterpolation (GetSelectedTimePoint lastSNC))).
    + intros [= <-]. apply Hdone. by right.
  - intros pf slicer. unfold AcceptAllInterpolations.
    destruct (m_Segmentation s) as [seg|] eqn:Hseg.
    2:{ intros [= <-]. apply Hdone. by left. }
    cbv beta iota zeta delta [mbind option_bind].
    destruct (images s !! seg) as [segmentation|]; [|done].
    destruct (_ && negb _).
    { intros [= <-]. by destruct (Hlog (CannotAcceptAllInterpolations (GetSelectedTimePoint slicer))). }
    destruct (sliceIndicesFor pf _) as [sliceIndices|]; [|done].
    destruct (0 <? _); intros [= <-]; apply Hdone; by right.
Qed.

(** [Interpolate] followed by the single accept.  The slice interpolated
    for the plane and the time point handed to [Interpolate] is written
    where the slicer stands: into the segmentation's time step of the
    slicer's selected time point, along the slicer's current plane.  No
    other image changes, and the preview is used up. *)
Theorem accept_writes_the_preview_where_the_slicer_stands (plane : PlaneGeometry)
    (timePoint : TimePoint) (slicer : SNC) (s : St) (node : nat)
    (segmentation : Image TimePoint) (slice : SliceData) :
  toolManager s = WorkingImage node →
  images s !! node = Some segmentation →
  IsValidTimePoint (geometry segmentation) timePoint = true →
  IsValidTimePoint (geometry segmentation) (GetSelectedTimePoint slicer) = true →
  Interpolate_ (fst (DetermineAffectedImageSlice (geometry segmentation) plane))
    (snd (DetermineAffectedImageSlice (geometry segmentation) plane)) plane
    (TimePointToTimeStep (geometry segmentation) timePoint) = Some slice →
  ∃ s1 s2,
    interpolate plane timePoint slicer s = Some s1
    ∧ m_FeedbackNode s1 = Some slice
    ∧ images s1 = images s
    ∧ acceptOne s1 = Some s2
    ∧ images s2
      = <[node := overwriteInImage OverwriteSlice (GetCurrentPlaneGeometry slicer) slice
                    (TimePointToTimeStep (geometry segmentation)
                       (GetSelectedTimePoint slicer))
                    segmentation]> (images s)
    ∧ m_FeedbackNode s2 = None.
Proof.
  intros Htm Himg Hvalid Hselected Hslice.
  unfold Interpolate. rewrite Htm. cbv beta iota zeta delta [mbind option_bind].
  cbn [images set_Segmentation]. rewrite Himg, Hvalid. cbn [negb].
  destruct (DetermineAffectedImageSlice (geometry segmentation) plane)
    as [clickedSliceDimension clickedSliceIndex] eqn:Hclicked.
  cbn [fst snd] in Hslice. rewrite Hslice.
  eexists _, _. split; [reflexivity|]. split; [reflexivity|]. split; [reflexivity|].
  unfold OnAcceptInterpolationClicked. cbn. rewrite Himg. cbn. rewrite Hselected. cbn.
  split; [reflexivity|]. done.
Qed.

(** On a segmentation that is not 4-D, accept-all does not look at the
    slicer's selected time point: two slicers on the same plane give the
    same result whatever their time points, the pass works on time step 0,
    and no warning is logged. *)
Theorem accept_all_on_3D_ignores_the_time_point (pf : Platform) (plane : PlaneGeometry)
    (timePoint1 timePoint2 : TimePoint) (s : St) (seg : nat)
    (segmentation : Image TimePoint) :
  m_Segmentation s = Some seg →
  images s !! seg = Some segmentation →
  GetDimension (geometry segmentation) ≠ 4%nat →
  acceptAll pf (mkSNC timePoint1 plane) s = acceptAll pf (mkSNC timePoint2 plane) s
  ∧ acceptAllTimeStep (geometry segmentation) timePoint1 = 0%nat
  ∧ ∀ s', acceptAll pf (mkSNC timePoint1 plane) s = Some s' → warnings s' = warnings s.
Proof.
  intros Hseg Himg H3D. apply Nat.eqb_neq in H3D.
  unfold AcceptAllInterpolations, acceptAllTimeStep. rewrite Hseg.
  cbv beta iota zeta delta [mbind option_bind]. rewrite Himg, H3D.
  cbn [andb GetSelectedTimePoint GetCurrentPlaneGeometry].
  split; [done|]. split; [done|].
  destruct (sliceIndicesFor pf _) as [sliceIndices|]; [|done].
  destruct (0 <? _); by intros s' [= <-].
Qed.

End AcceptAll.

(** C3 (as stated) fails for accept-all on a 3-D segmentation: the time
    point 5 is outside the time bounds, yet no warning is logged, slice 1
    is interpolated and merged, and an undo record is pushed. *)
Lemma C3_counterexample_accept_all_3D :
  ∃ s' applied,
    InterpolatorExample.acceptAll InterpolatorExample.interpolateSlice1
      InterpolatorExample.platform (SlicesInterpolator.mkSNC 5 0%nat)
      (InterpolatorExample.state InterpolatorExample.geometry3D) = Some s'
    ∧ SlicesInterpolator.IsValidTimePoint InterpolatorExample.geometry3D 5 = false
    ∧ SlicesInterpolator.warnings s' = []
    ∧ SlicesInterpolator.undoStack s'
      = [mkOperationEvent (mkDiffOp 0 1 0 1) (mkDiffOp 0 1 0 (-1)) 1]
    ∧ SlicesInterpolator.images s' !! 0%nat = Some applied
    ∧ SlicesInterpolator.voxels applied 0%nat (0, 0, 1)%nat = 7.
Proof.
  do 2 eexists. split; [vm_compute; reflexivity|].
  split; [reflexivity|]. split; [reflexivity|]. split; [reflexivity|].
  split; [vm_compute; reflexivity|]. reflexivity.
Qed.

Lemma C1_apply_then_reverse_witness :
  ∃ s' handle,
    InterpolatorExample.acceptAll InterpolatorExample.interpolateSlice1
      InterpolatorExample.platform (SlicesInterpolator.mkSNC 0 0%nat)
      (InterpolatorExample.state InterpolatorExample.geometry3D) = Some s'
    ∧ SlicesInterpolator.undoStack s' = [handle]
    ∧ ∃ applied restored,
        SlicesInterpolator.images s' !! 0%nat = Some applied
        ∧ SlicesInterpolator.voxels applied 0%nat (0, 0, 1)%nat = 7
        ∧ SlicesInterpolator.images (SlicesInterpolator.Reverse handle s') !! 0%nat
          = Some restored
        ∧ ∀ t p, SlicesInterpolator.voxels restored t p = 0.
Proof.
  do 2 eexists. split; [vm_compute; reflexivity|]. split; [reflexivity|].
  match goal with
  | |- ∃ _ _, SlicesInterpolator.images ?s' !! _ = _ ∧ _
              ∧ SlicesInterpolator.images (SlicesInterpolator.Reverse ?h _) !! _ = _ ∧ _ =>
      destruct (C1_apply_then_reverse_restores
                  InterpolatorExample.determine InterpolatorExample.interpolateSlice1
                  InterpolatorExample.overwrite InterpolatorExample.setOrigin
                  InterpolatorExample.timeSelector
                  InterpolatorExample.platform (SlicesInterpolator.mkSNC 0 0%nat)
                  (InterpolatorExample.state InterpolatorExample.geometry3D) s' h 0%nat
                  (SlicesInterpolator.mkImage InterpolatorExample.geometry3D (λ _ _, 0)))
        as (d & diff & applied & restored & _ & _ & _ & Happlied & _ & Hrestored & Hback);
        [vm_compute; reflexivity|reflexivity|reflexivity|reflexivity|]
  end.
  exists applied, restored. split; [exact Happlied|]. split.
  - vm_compute in Happlied. injection Happlied as <-. reflexivity.
  - split; [exact Hrestored|]. intros t p. apply Hback.
Defined.

Lemma C3_invalid_time_point_witness :
  ∃ s',
    InterpolatorExample.acceptAll InterpolatorExample.interpolateSlice1
      InterpolatorExample.platform (SlicesInterpolator.mkSNC 5 0%nat)
      (InterpolatorExample.state InterpolatorExample.geometry4D) = Some s'
    ∧ SlicesInterpolator.abortedWith (CannotAcceptAllInterpolations 5)
        (InterpolatorExample.state InterpolatorExample.geometry4D) s'.
Proof.
  apply (proj2 (proj2 (C3_invalid_time_point_aborts
                         InterpolatorExample.determine InterpolatorExample.interpolateSlice1
                         InterpolatorExample.overwrite InterpolatorExample.setOrigin
                         InterpolatorExample.timeSelector
                         (InterpolatorExample.state InterpolatorExample.geometry4D)))
           InterpolatorExample.platform (SlicesInterpolator.mkSNC 5 0%nat) 0%nat
           (SlicesInterpolator.mkImage InterpolatorExample.geometry4D (λ _ _, 0)));
    reflexivity.
Defined.

(** C4 (as stated) fails where the local counter [totalChangedSlices],
    declared without initialiser, does not start at zero.  Every
    interpolation of the pass returns null, no slice changes, and yet the
    guard [totalChangedSlices > 0] passes: a diff image is created, one
    undo record with the count 4278124286 is pushed and both event ids go
    up. *)
Theorem C4_stale_counter_records_an_empty_pass :
  ∃ s',
    InterpolatorExample.acceptAll InterpolatorExample.interpolateNothing
      InterpolatorExample.platformStale (SlicesInterpolator.mkSNC 0 0%nat)
      (InterpolatorExample.state InterpolatorExample.geometry3D) = Some s'
    ∧ SlicesInterpolator.undoStack s'
      = [mkOperationEvent (mkDiffOp 0 1 0 1) (mkDiffOp 0 1 0 (-1)) 4278124286]
    ∧ SlicesInterpolator.currGroupEventId s' = 1
    ∧ SlicesInterpolator.currObjectEventId s' = 1
    ∧ dom (SlicesInterpolator.images s') = {[ 0%nat; 1%nat ]}
    ∧ ¬ SlicesInterpolator.segmentationUntouched
          (InterpolatorExample.state InterpolatorExample.geometry3D) s'.
Proof.
  eexists. split; [vm_compute; reflexivity|].
  split; [reflexivity|]. split; [reflexivity|]. split; [reflexivity|].
  split; [vm_compute; reflexivity|].
  intros (_ & Hstack & _). discriminate Hstack.
Qed.

Lemma empty_pass_is_judged_by_the_counter_start_witness :
  ∃ s',
    InterpolatorExample.acceptAll InterpolatorExample.interpolateNothing
      InterpolatorExample.platform (SlicesInterpolator.mkSNC 0 0%nat)
      (InterpolatorExample.state InterpolatorExample.geometry3D) = Some s'
    ∧ SlicesInterpolator.segmentationUntouched
        (InterpolatorExample.state InterpolatorExample.geometry3D) s'.
Proof.
  destruct (empty_pass_is_judged_by_the_counter_start
              InterpolatorExample.determine InterpolatorExample.interpolateNothing
              InterpolatorExample.overwrite InterpolatorExample.setOrigin
              InterpolatorExample.timeSelector
              InterpolatorExample.platform (SlicesInterpolator.mkSNC 0 0%nat)
              (InterpolatorExample.state InterpolatorExample.geometry3D) 0%nat
              (SlicesInterpolator.mkImage InterpolatorExample.geometry3D (λ _ _, 0)))
    as (s' & Hrun & Hzero & _).
  - simpl. lia.
  - reflexivity.
  - reflexivity.
  - intros sliceIndex plane _. reflexivity.
  - exists s'. split; [exact Hrun|]. apply Hzero. reflexivity.
Defined.

Lemma C9_brush_size_witness :
  ∃ contour sh' b',
    PaintbrushContour.buildContour 3 = Some contour
    ∧ PaintbrushExample.mouseMoved (Some (PaintbrushExample.event 0 0)) false
        (fst (Paintbrush.SetSize 3 (PaintbrushExample.shared 1)
                (Paintbrush.PaintbrushTool_new nat unit unit false 0)))
        PaintbrushExample.tool0 = Some (sh', b')
    ∧ Paintbrush.m_LastContourSize b' = 3
    ∧ Paintbrush.m_MasterContour b' = Paintbrush.ContourModel_New false contour.
Proof.
  destruct (C9_brush_size_is_shared (Slice:=PaintbrushExample.Slice) (Image:=unit)
              (PlaneGeometry:=unit) (Sender:=unit)
              (λ _ p, p) (λ _ filled _, S filled) 1 PaintbrushExample.eps
              (λ d, d) (λ _ c, c) false (λ _ : unit, false) (λ _ _, true) (λ _ _, true)
              (λ _, 0%nat) (λ _ _, 0%nat) 3) as (contour & Hcontour & Hshared).
  destruct (Hshared (PaintbrushExample.shared 1)
              (Paintbrush.PaintbrushTool_new nat unit unit false 0)
              PaintbrushExample.tool0 (PaintbrushExample.event 0 0))
    as (_ & _ & _ & Hrebuild).
  exists contour. do 2 eexists. split; [exact Hcontour|].
  split; [vm_compute; reflexivity|].
  eapply (Hrebuild false). vm_compute. reflexivity.
Defined.

(* ===================================================================== *)
(** ** The spacing handed to the surface interpolation *)
(* ===================================================================== *)

(** [SetCurrentContourListID] hands on the smallest and the largest of the
    three spacings, but never a minimum above 100 nor a maximum below 0,
    the values its two variables start with: the minimum is at most 100 and
    at most every spacing, and it is 100 or one of the spacings; the
    maximum is at least 0 and at least every spacing, and it is 0 or one of
    the spacings. *)
Theorem spacingRange_is_capped_min_and_max (spacing : nat → Q) :
  let minSpacing := fst (spacingRange spacing) in
  let maxSpacing := snd (spacingRange spacing) in
  (minSpacing <= 100)%Q
  ∧ (0 <= maxSpacing)%Q
  ∧ (∀ i, (i < 3)%nat → (minSpacing <= spacing i)%Q ∧ (spacing i <= maxSpacing)%Q)
  ∧ (minSpacing = 100%Q ∨ ∃ i, (i < 3)%nat ∧ minSpacing = spacing i)
  ∧ (maxSpacing = 0%Q ∨ ∃ i, (i < 3)%nat ∧ maxSpacing = spacing i).
Proof.
  unfold spacingRange, spacingStep. cbn [seq foldl fst snd].
  assert (Hcases : ∀ i : nat, (i < 3)%nat → i = 0%nat ∨ i = 1%nat ∨ i = 2%nat) by lia.
  (* the comparisons of the loop, the first iteration first *)
  repeat match goal with
         | |- context [Qlt_bool ?a ?b] =>
             lazymatch a with context [Qlt_bool] => fail | _ => idtac end;
             lazymatch b with context [Qlt_bool] => fail | _ => idtac end;
             let E := fresh "E" in
             destruct (Qlt_bool a b) eqn:E;
             [apply Qlt_bool_true in E|apply Qlt_bool_false in E];
             cbv iota
         end.
  all: split_and!; try lra.
  all: try (intros i Hi; destruct (Hcases i Hi) as [->|[->| ->]]; split; lra).
  all: first [ by left
             | right; exists 0%nat; split; [lia|reflexivity]
             | right; exists 1%nat; split; [lia|reflexivity]
             | right; exists 2%nat; split; [lia|reflexivity] ].
Qed.

(* ===================================================================== *)
(** ** Slice events *)
(* ===================================================================== *)

Section SliceEvents.
Import SlicesInterpolator SliceChange.
Context {TimePoint PlaneGeometry SliceData : Type}
  (DetermineAffectedImageSlice : ImageGeometry TimePoint → PlaneGeometry → Z * Z)
  (Interpolate_ : Z → Z → PlaneGeometry → nat → option SliceData).

Local Abbreviation St := (State TimePoint PlaneGeometry SliceData).
Local Abbreviation W := (Widget TimePoint PlaneGeometry SliceData).
Local Abbreviation translate :=
  (TranslateAndInterpolateChangedSlice DetermineAffectedImageSlice Interpolate_).
Local Abbreviation sliceChanged :=
  (OnSliceChanged DetermineAffectedImageSlice Interpolate_).

(** [Interpolate] shows a preview and remembers the slicer; it never
    changes an image, the undo stack or the event ids. *)
Lemma Interpolate_keeps_images (plane : PlaneGeometry) (timePoint : TimePoint)
    (slicer : SliceNavigationController TimePoint PlaneGeometry) (s s' : St) :
  Interpolate DetermineAffectedImageSlice Interpolate_ plane timePoint slicer s = Some s' →
  segmentationUntouched s s'
  ∧ (m_LastSNC s' = Some slicer ∨ m_LastSNC s' = m_LastSNC s).
Proof.
  unfold Interpolate, segmentationUntouched.
  destruct (toolManager s) as [| | |node];
    try (intros [= <-]; split; [done|by right]).
  cbv beta iota zeta delta [mbind option_bind]. cbn [images set_Segmentation].
  destruct (images s !! node) as [segmentation|]; [|done].
  destruct (negb _).
  - intros [= <-]. split; [done|by right].
  - destruct (DetermineAffectedImageSlice _ _). intros [= <-]. split; [done|by left].
Qed.

(** The flag of [TranslateAndInterpolateChangedSlice] tells whether the
    slicer was taken as the last slicer; without the flag nothing changed. *)
Lemma translate_flag (e : EventObject TimePoint PlaneGeometry)
    (slicer : Slicer TimePoint PlaneGeometry) (w w1 : W) (changed : bool) :
  translate e slicer w = Some (changed, w1) →
  m_2DInterpolationEnabled w1 = m_2DInterpolationEnabled w
  ∧ m_TimePoints w1 = m_TimePoints w
  ∧ rendererUpdates w1 = rendererUpdates w
  ∧ segmentationUntouched (state w) (state w1)
  ∧ (changed = false → w1 = w)
  ∧ (changed = true →
     m_2DInterpolationEnabled w = true
     ∧ is_Some (m_TimePoints w !! address slicer)
     ∧ m_LastSNC (state w1) = Some (controller slicer)).
Proof.
  unfold TranslateAndInterpolateChangedSlice.
  assert (Hno : Some (false, w) = Some (changed, w1) →
            m_2DInterpolationEnabled w1 = m_2DInterpolationEnabled w
            ∧ m_TimePoints w1 = m_TimePoints w
            ∧ rendererUpdates w1 = rendererUpdates w
            ∧ segmentationUntouched (state w) (state w1)
            ∧ (changed = false → w1 = w)
            ∧ (changed = true →
               m_2DInterpolationEnabled w = true
               ∧ is_Some (m_TimePoints w !! address slicer)
               ∧ m_LastSNC (state w1) = Some (controller slicer))).
  { intros [= <- <-]. by split_and!. }
  destruct (m_2DInterpolationEnabled w) eqn:Henabled; [|exact Hno]. cbn [negb].
  destruct e as [[tsg|] pos|]; [|exact Hno..].
  destruct (m_TimePoints w !! address slicer) as [timePoint|] eqn:Htp; [|exact Hno].
  destruct (TimeGeometry_IsValidTimePoint tsg timePoint); [|exact Hno].
  destruct (GetGeometryForTimePoint tsg timePoint) as [slicedGeometry|]; [|exact Hno].
  cbv beta iota zeta delta [mbind option_bind].
  destruct (slicedGeometry pos) as [plane|].
  - destruct (Interpolate _ _ _ _ _ _) as [s2|] eqn:Hs2; [|done].
    intros [= <- <-]. apply Interpolate_keeps_images in Hs2 as [Huntouched Hlast].
    cbn. split_and!; try done.
    intros _. split; [done|]. split; [by eexists|]. by destruct Hlast.
  - intros [= <- <-]. cbn. by split_and!.
Qed.

(** A change of slice only ever previews.  [OnSliceChanged] never changes
    an image, the undo stack or the event ids, nor the recorded time points.
    Either it leaves the widget exactly as it was, or it has taken the
    sender as the last slicer and asked the sender's renderer for one
    update; the latter only while 2-D interpolation is enabled and a time
    point is recorded for the sender. *)
Theorem slice_change_only_previews (sender : Slicer TimePoint PlaneGeometry)
    (e : EventObject TimePoint PlaneGeometry) (w w' : W) :
  sliceChanged sender e w = Some w' →
  segmentationUntouched (state w) (state w')
  ∧ m_TimePoints w' = m_TimePoints w
  ∧ m_2DInterpolationEnabled w' = m_2DInterpolationEnabled w
  ∧ (w' = w
     ∨ (rendererUpdates w' = rendererUpdates w ++ [address sender]
        ∧ m_LastSNC (state w') = Some (controller sender)
        ∧ m_2DInterpolationEnabled w = true
        ∧ is_Some (m_TimePoints w !! address sender))).
Proof.
  unfold OnSliceChanged.
  destruct e as [tsg pos|].
  2:{ intros [= <-]. split_and!; try done. by left. }
  destruct (translate _ sender w) as [[changed w1]|] eqn:Hflag; [|done].
  apply translate_flag in Hflag
    as (Henabled & Htp & Hupdates & Huntouched & Hsame & Hchanged).
  destruct changed; intros [= <-].
  - destruct (Hchanged eq_refl) as (Hon & Hrecorded & Hlast).
    cbn. split_and!; try done. right. by rewrite Hupdates.
  - rewrite (Hsame eq_refl). split_and!; try done. by left.
Qed.
End SliceEvents.

(* ===================================================================== *)
(** ** The file writer manager *)
(* ===================================================================== *)

(** A string without a dot. *)
Lemma find_last_of_none (c : ascii) (s : string) :
  (∀ a b : string, s ≠ a +:+ String c b) → find_last_of c s = None.
Proof.
  induction s as [|x s IH]; intros Hno; [done|]. simpl.
  rewrite IH.
  - destruct (Ascii.eqb_spec x c) as [->|]; [|done].
    by destruct (Hno EmptyString s).
  - intros a b ->. by destruct (Hno (String x a) b).
Qed.

(** The last dot of a string is found where it is. *)
Lemma find_last_of_app (c : ascii) (prefix suffix : string) :
  find_last_of c suffix = None →
  find_last_of c (prefix +:+ String c suffix) = Some (String.length prefix).
Proof.
  intros Hsuffix. induction prefix as [|x prefix IH]; simpl.
  - by rewrite Hsuffix, Ascii.eqb_refl.
  - by rewrite IH.
Qed.

Lemma erase_front_app (prefix rest : string) :
  erase_front (String.length prefix) (prefix +:+ rest) = rest.
Proof. induction prefix as [|x prefix IH]; simpl; [by destruct rest|done]. Qed.

Section FileWriters.
Import FileWriterManager.
Context {ServiceReference IFileWriter BaseData : Type}
  (GetServiceReferences : string → list ServiceReference)
  (std_sort : list ServiceReference → list ServiceReference)
  (GetService : ServiceReference → IFileWriter)
  (GetSupportedOptions : IFileWriter → list string)
  (PROP_EXTENSION : string).

Local Abbreviation writerList := (GetWriterList GetServiceReferences std_sort PROP_EXTENSION).
Local Abbreviation writer := (GetWriter GetServiceReferences std_sort GetService PROP_EXTENSION).
Local Abbreviation writers := (GetWriters GetServiceReferences std_sort GetService PROP_EXTENSION).
Local Abbreviation supports := (WriterSupportsOptions GetSupportedOptions).
Local Abbreviation writersWith :=
  (GetWritersWithOptions GetServiceReferences std_sort GetService GetSupportedOptions
     PROP_EXTENSION).
Local Abbreviation writerWith :=
  (GetWriterWithOptions GetServiceReferences std_sort GetService GetSupportedOptions
     PROP_EXTENSION).
Local Abbreviation write :=
  (Write (BaseData:=BaseData) GetServiceReferences std_sort GetService PROP_EXTENSION).

Lemma optionFound_elem_of (WriterOptions : list string) (option : string) :
  optionFound WriterOptions option = true ↔ option ∈ WriterOptions.
Proof.
  unfold optionFound.
  enough (H : ∀ found,
            foldl (λ found options_j,
                     if String.eqb option options_j then true else found)
                  found WriterOptions = true
            ↔ found = true ∨ option ∈ WriterOptions).
  { rewrite H. split; [by intros [?|?]|by right]. }
  induction WriterOptions as [|o rest IH]; intros found; simpl.
  - split; [by left|]. intros [?|Hin]; [done|]. by apply elem_of_nil in Hin.
  - rewrite IH, elem_of_cons.
    destruct (String.eqb_spec option o) as [->|Hne]; [by intuition|].
    split; [by intuition|]. intros [?|[?|?]]; by intuition.
Qed.

Lemma supportsAll_Forall (WriterOptions options : list string) :
  supportsAll WriterOptions options = true
  ↔ ∀ option, option ∈ options → option ∈ WriterOptions.
Proof.
  induction options as [|o rest IH]; simpl.
  - split; [|done]. intros _ o Ho. by apply elem_of_nil in Ho.
  - destruct (optionFound WriterOptions o) eqn:Hfound; simpl.
    + apply optionFound_elem_of in Hfound. rewrite IH. split.
      * intros Hrest o' [->|Ho']%elem_of_cons; [done|by apply Hrest].
      * intros Hall o' Ho'. apply Hall. by right.
    + split; [done|]. intros Hall.
      assert (o ∈ WriterOptions) as Ho by (apply Hall; left).
      apply optionFound_elem_of in Ho. congruence.
Qed.

(** A writer supports a list of requested options exactly when every
    requested option is among the options the writer offers; an empty
    request is supported by every writer, also by one without options. *)
Theorem WriterSupportsOptions_iff_all_offered (Writer : IFileWriter)
    (options : list string) :
  WriterSupportsOptions GetSupportedOptions Writer options = true
  ↔ ∀ option, option ∈ options → option ∈ GetSupportedOptions Writer.
Proof.
  unfold WriterSupportsOptions.
  destruct options as [|o rest].
  { split; [|done]. intros _ o Ho. by apply elem_of_nil in Ho. }
  destruct (GetSupportedOptions Writer) as [|w ws] eqn:Hoffered.
  - split; [done|]. intros Hall.
    assert (o ∈ @nil string) as Ho by (apply Hall; left). by apply elem_of_nil in Ho.
  - apply supportsAll_Forall.
Qed.

Lemma GetWriters_fmap (extension : string) :
  writers extension = GetService <$> writerList extension.
Proof.
  unfold GetWriters.
  enough (H : ∀ refs result,
            foldl (λ result iter, result ++ [GetService iter]) result refs
            = result ++ (GetService <$> refs)) by apply (H _ []).
  induction refs as [|r refs IH]; intros result; simpl.
  - by rewrite app_nil_r.
  - by rewrite IH, <- app_assoc.
Qed.

Lemma GetWritersWithOptions_filter (extension : string) (options : list string) :
  writersWith extension options
  = List.filter (λ w, supports w options) (writers extension).
Proof.
  unfold GetWritersWithOptions.
  enough (H : ∀ all result,
            foldl (λ result iter, if supports iter options then result ++ [iter] else result)
                  result all
            = result ++ List.filter (λ w, supports w options) all) by apply (H _ []).
  induction all as [|w all IH]; intros result; simpl.
  - by rewrite app_nil_r.
  - rewrite IH. destruct (supports w options); [|done]. by rewrite <- app_assoc.
Qed.

Lemma filter_first {A} (f : A → bool) (l : list A) :
  match List.filter f l with
  | [] => ∀ x, x ∈ l → f x = false
  | front :: _ =>
      ∃ before after, l = before ++ front :: after ∧ f front = true
                      ∧ ∀ x, x ∈ before → f x = false
  end.
Proof.
  induction l as [|a l IH]; simpl.
  - intros x Hx. by apply elem_of_nil in Hx.
  - destruct (f a) eqn:Ha.
    + exists [], l. split; [done|]. split; [done|]. intros x Hx. by apply elem_of_nil in Hx.
    + destruct (List.filter f l) as [|front rest].
      * intros x [->|Hx]%elem_of_cons; [done|by apply IH].
      * destruct IH as (before & after & -> & Hfront & Hbefore).
        exists (a :: before), after. split; [done|]. split; [done|].
        intros x [->|Hx]%elem_of_cons; [done|by apply Hbefore].
Qed.

(** The writer for an extension and a list of options is the best-ranked
    writer of the extension that supports all the options: every writer
    ranked before it lacks an option.  The null pointer is returned exactly
    when no writer of the extension supports the options.  Without options
    it is the writer of the overload without options. *)
Theorem GetWriter_is_the_best_supporting_writer (extension : string)
    (options : list string) :
  match GetWriterWithOptions GetServiceReferences std_sort GetService GetSupportedOptions
          PROP_EXTENSION extension options with
  | None => ∀ Writer, Writer ∈ writers extension → supports Writer options = false
  | Some Writer =>
      ∃ before after,
        writers extension = before ++ Writer :: after
        ∧ supports Writer options = true
        ∧ ∀ other, other ∈ before → supports other options = false
  end
  ∧ GetWriterWithOptions GetServiceReferences std_sort GetService GetSupportedOptions
      PROP_EXTENSION extension []
    = GetWriter GetServiceReferences std_sort GetService PROP_EXTENSION extension.
Proof.
  split.
  - unfold GetWriterWithOptions. rewrite GetWritersWithOptions_filter.
    pose proof (filter_first (λ w, supports w options) (writers extension)) as H.
    by destruct (List.filter _ _).
  - unfold GetWriterWithOptions, GetWriter.
    rewrite GetWritersWithOptions_filter, GetWriters_fmap.
    destruct (writerList extension) as [|front refs]; [done|]. by simpl.
Qed.

(** [Write] looks the writer up by the part of the path from its last dot
    on, the dot included. *)
Lemma extensionOf_suffix (prefix suffix : string) :
  (∀ a b : string, suffix ≠ a +:+ String "." b) →
  extensionOf (prefix +:+ String "." suffix) = String "." suffix.
Proof.
  intros Hsuffix. unfold extensionOf.
  rewrite find_last_of_app by by apply find_last_of_none.
  apply erase_front_app.
Qed.

(** A path without any dot has the empty extension, and the empty extension
    puts no filter on the registry: [Write] hands such a path to the
    best-ranked of all registered writers, whatever it writes, and throws
    only when no writer is registered at all. *)
Theorem Write_without_extension_takes_any_writer (data : BaseData) (path : string) :
  (∀ a b : string, path ≠ a +:+ String "." b) →
  extensionOf path = EmptyString
  ∧ write data path
    = match reverse (std_sort (GetServiceReferences EmptyString)) with
      | [] =>
          Threw "Tried to directly Write a file of type '' via FileWriterManager, but no Writer supporting this filetype was found."
      | front :: _ => Wrote (GetService front) data path
      end.
Proof.
  intros Hpath.
  assert (Hext : extensionOf path = EmptyString).
  { unfold extensionOf. by rewrite find_last_of_none. }
  split; [done|].
  unfold Write, GetWriter, GetWriterList. rewrite Hext.
  by destruct (reverse _).
Qed.

(** A path with a dot is written by the best-ranked writer registered for
    the part of the path from the last dot on; when there is none, [Write]
    throws and no writer is called. *)
Theorem Write_dispatches_on_the_last_dot (data : BaseData) (prefix suffix : string) :
  (∀ a b : string, suffix ≠ a +:+ String "." b) →
  let path := prefix +:+ String "." suffix in
  match writer (String "." suffix) with
  | Some Writer => write data path = Wrote Writer data path
  | None => ∃ message, write data path = Threw message
  end.
Proof.
  intros Hsuffix path. unfold Write.
  unfold path. rewrite extensionOf_suffix by done.
  destruct (writer _); eauto.
Qed.
End FileWriters.

(** A string whose search for a character finds none has no such
    character. *)
Lemma find_last_of_none_elim (c : ascii) (s : string) :
  find_last_of c s = None → ∀ a b : string, s ≠ a +:+ String c b.
Proof.
  intros Hnone a b ->. revert Hnone.
  induction a as [|x a IH]; simpl.
  - destruct (find_last_of c b); [done|]. by rewrite Ascii.eqb_refl.
  - destruct (find_last_of c (a +:+ String c b)); [done|]. intros _. by apply IH.
Qed.

(* ===================================================================== *)
(** ** Worked instances *)
(* ===================================================================== *)

Lemma contour_within_brush_square_witness :
  ∃ contour top,
    PaintbrushContour.buildContour 3 = Some contour
    ∧ Forall (withinBrushSquare 3) contour
    ∧ head contour = Some top
    ∧ (p3y top - snd (brushCenter 3) == inject_Z 3 / 2)%Q.
Proof.
  apply (contour_within_brush_square 3).
  unfold PaintbrushContour.exactMarchMaxSize. lia.
Defined.

Lemma CheckIfCurrentSliceHasChanged_idempotent_witness :
  StrokeExample.check (PaintbrushExample.event 2 3) (PaintbrushExample.shared 3)
    (StrokeExample.check (PaintbrushExample.event 2 3) (PaintbrushExample.shared 3)
       PaintbrushExample.tool0)
  = StrokeExample.check (PaintbrushExample.event 2 3) (PaintbrushExample.shared 3)
      PaintbrushExample.tool0.
Proof.
  apply (CheckIfCurrentSliceHasChanged_idempotent (Slice:=PaintbrushExample.Slice)
           (Image:=unit) (PlaneGeometry:=unit) (Sender:=unit)
           (λ _ : unit, false) (λ _ _, true) (λ _ _, true) (λ _, 0%nat) (λ _ _, 0%nat));
    reflexivity.
Defined.

Lemma press_paints_one_footprint_witness :
  ∃ sh' t',
    StrokeExample.mousePressed (Some (PaintbrushExample.event (11 # 5) (17 # 5)))
      (PaintbrushExample.shared 3) StrokeExample.working = Some (sh', t')
    ∧ Paintbrush.m_PaintingSlice t' = Some 1%nat
    ∧ Paintbrush.m_LastPosition t' = (2, 3, 0)%Q
    ∧ Paintbrush.paintingNodeVisible t' = true.
Proof.
  destruct (press_paints_one_footprint (Slice:=PaintbrushExample.Slice) (Image:=unit)
              (PlaneGeometry:=unit) (Sender:=unit)
              (λ _ p, p) (λ _ filled _, S filled) 1 PaintbrushExample.eps
              (λ d, d) (λ _ c, c) false (λ _ : unit, false) (λ _ _, true) (λ _ _, true)
              (λ _, 0%nat) (λ _ _, 0%nat)
              (PaintbrushExample.shared 3) StrokeExample.working
              (PaintbrushExample.event (11 # 5) (17 # 5)) 0%nat () () ())
    as (sh' & t' & Hcall & _ & _ & Hpainting & Hposition & _ & Hvisible);
    [simpl; lia|reflexivity..|].
  exists sh', t'. split; [exact Hcall|]. split; [exact Hpainting|].
  split; [|exact Hvisible]. rewrite Hposition. vm_compute. reflexivity.
Defined.

Lemma lastPos_is_shared_by_all_instances_witness :
  ∃ sh1 a1 b2,
    PaintbrushExample.mouseMoved (Some (PaintbrushExample.event (11 # 5) (17 # 5))) true
      (PaintbrushExample.shared 3) StrokeExample.working = Some (sh1, a1)
    ∧ PaintbrushExample.mouseMoved (Some (PaintbrushExample.event (9 # 5) (13 # 5)))
        false sh1 PaintbrushExample.tool0 = Some (sh1, b2)
    ∧ Paintbrush.feedbackContour b2 = mkContourModel [] false.
Proof.
  do 2 eexists.
  assert (Hfirst : PaintbrushExample.mouseMoved
                     (Some (PaintbrushExample.event (11 # 5) (17 # 5))) true
                     (PaintbrushExample.shared 3) StrokeExample.working
                   = Some (_, _)) by (vm_compute; reflexivity).
  match type of Hfirst with
  | _ = Some (?sh1, ?a1) =>
      destruct (lastPos_is_shared_by_all_instances (Slice:=PaintbrushExample.Slice)
                  (Image:=unit) (PlaneGeometry:=unit) (Sender:=unit)
                  (λ _ p, p) (λ _ filled _, S filled) 1 PaintbrushExample.eps
                  (λ d, d) (λ _ c, c) false (λ _ : unit, false) (λ _ _, true) (λ _ _, true)
                  (λ _, 0%nat) (λ _ _, 0%nat)
                  (PaintbrushExample.shared 3) sh1 StrokeExample.working a1
                  PaintbrushExample.tool0
                  (PaintbrushExample.event (11 # 5) (17 # 5))
                  (PaintbrushExample.event (9 # 5) (13 # 5)) true (2, 3, 0)%Q (2, 3, 0)%Q)
        as (b2 & Hsecond & [_ Hfeedback] & _)
  end.
  - vm_compute. discriminate.
  - exact Hfirst.
  - vm_compute. reflexivity.
  - vm_compute. reflexivity.
  - repeat split; reflexivity.
  - exists b2. split; [exact Hfirst|]. split; [exact Hsecond|]. exact Hfeedback.
Defined.

Lemma press_after_working_data_change_is_ignored_witness :
  StrokeExample.mousePressed (Some (PaintbrushExample.event 2 3))
    (PaintbrushExample.shared 3)
    (Paintbrush.OnToolManagerWorkingDataModified StrokeExample.working)
  = Some (PaintbrushExample.shared 3,
          Paintbrush.OnToolManagerWorkingDataModified StrokeExample.working)
  ∧ ∃ sh1 t1,
      StrokeExample.hover (Some (PaintbrushExample.event 2 3))
        (PaintbrushExample.shared 3)
        (Paintbrush.OnToolManagerWorkingDataModified StrokeExample.working)
      = Some (sh1, t1)
      ∧ Paintbrush.m_WorkingSlice t1 = Some 0%nat
      ∧ Paintbrush.m_PaintingSlice t1 = Some 0%nat
      ∧ Paintbrush.m_CurrentPlane t1 = Some ().
Proof.
  apply (press_after_working_data_change_is_ignored (Slice:=PaintbrushExample.Slice)
           (Image:=unit) (PlaneGeometry:=unit) (Sender:=unit)
           (λ _ p, p) (λ _ filled _, S filled) 1 PaintbrushExample.eps
           (λ d, d) (λ _ c, c) false (λ _ : unit, false) (λ _ _, true) (λ _ _, true)
           (λ _, 0%nat) (λ _ _, 0%nat)
           (PaintbrushExample.shared 3) StrokeExample.working
           (PaintbrushExample.event 2 3) () ());
    reflexivity.
Defined.

Lemma workers_share_the_slices_evenly_witness :
  ∃ sliceIndices,
    sliceIndicesFor (mkPlatform 3 0) 7 = Some sliceIndices
    ∧ length sliceIndices = 3%nat
    ∧ ∀ w indices,
        sliceIndices !! w = Some indices →
        length indices = (2 + (if (w <? 1)%nat then 1 else 0))%nat
        ∧ (1 <= length indices)%nat.
Proof.
  apply (workers_share_the_slices_evenly (mkPlatform 3 0) 7). simpl. lia.
Defined.

Lemma accept_all_completes_its_progress_steps_witness :
  ∃ s' steps,
    InterpolatorExample.acceptAll InterpolatorExample.interpolateSlice1
      InterpolatorExample.platform (SlicesInterpolator.mkSNC 0 0%nat)
      (InterpolatorExample.state InterpolatorExample.geometry3D) = Some s'
    ∧ SlicesInterpolator.progressStepsToDo s' = steps
    ∧ SlicesInterpolator.progressDone s' = steps.
Proof.
  eexists.
  assert (Hrun : InterpolatorExample.acceptAll InterpolatorExample.interpolateSlice1
                   InterpolatorExample.platform (SlicesInterpolator.mkSNC 0 0%nat)
                   (InterpolatorExample.state InterpolatorExample.geometry3D)
                 = Some _) by (vm_compute; reflexivity).
  match type of Hrun with
  | _ = Some ?s' =>
      destruct (accept_all_completes_its_progress_steps
                  InterpolatorExample.determine InterpolatorExample.interpolateSlice1
                  InterpolatorExample.overwrite InterpolatorExample.setOrigin
                  InterpolatorExample.timeSelector
                  InterpolatorExample.platform (SlicesInterpolator.mkSNC 0 0%nat)
                  (InterpolatorExample.state InterpolatorExample.geometry3D) s' Hrun)
        as (steps & Htodo & Hdone & _)
  end.
  exists steps. split; [exact Hrun|]. split; [exact Htodo|exact Hdone].
Defined.

Lemma a_changed_slice_is_merged_and_recorded_witness :
  ∃ s' diffImage changedSlices,
    InterpolatorExample.acceptAll InterpolatorExample.interpolateOnPlane1
      InterpolatorExample.platform (SlicesInterpolator.mkSNC 0 0%nat)
      (InterpolatorExample.state InterpolatorExample.geometry3D) = Some s'
    ∧ SlicesInterpolator.undoStack s'
      = [mkOperationEvent (mkDiffOp 0 diffImage 0 1) (mkDiffOp 0 diffImage 0 (-1))
           changedSlices]
    ∧ 1 <= changedSlices <= 3.
Proof.
  destruct (a_changed_slice_is_merged_and_recorded
              InterpolatorExample.determine InterpolatorExample.interpolateOnPlane1
              InterpolatorExample.overwrite InterpolatorExample.setOrigin
              InterpolatorExample.timeSelector
              InterpolatorExample.platform (SlicesInterpolator.mkSNC 0 0%nat)
              (InterpolatorExample.state InterpolatorExample.geometry3D) 0%nat
              (SlicesInterpolator.mkImage InterpolatorExample.geometry3D (λ _ _, 0))
              1%nat 1%nat)
    as (s' & diffImage & changedSlices & Hrun & Hstack & Hcount & _).
  - simpl. lia.
  - reflexivity.
  - reflexivity.
  - reflexivity.
  - reflexivity.
  - discriminate.
  - vm_compute. do 2 apply list_elem_of_further. apply list_elem_of_here.
  - eexists. reflexivity.
  - exists s', diffImage, changedSlices. split; [exact Hrun|]. split; [exact Hstack|].
    exact Hcount.
Defined.

Lemma accepting_one_slice_pushes_no_undo_record_witness :
  ∃ s',
    AcceptExample.acceptOne (AcceptExample.stateAt 0) = Some s'
    ∧ SlicesInterpolator.undoStack s' = []
    ∧ dom (SlicesInterpolator.images s') = {[ 0%nat ]}.
Proof.
  eexists.
  assert (Hrun : AcceptExample.acceptOne (AcceptExample.stateAt 0) = Some _)
    by (vm_compute; reflexivity).
  match type of Hrun with
  | _ = Some ?s' =>
      destruct (accepting_one_slice_pushes_no_undo_record InterpolatorExample.overwrite
                  (AcceptExample.stateAt 0) s' Hrun) as (Hstack & _ & _ & Hdom & _)
  end.
  split; [exact Hrun|]. split; [exact Hstack|].
  rewrite Hdom. apply dom_singleton_L.
Defined.

Lemma accepting_again_changes_nothing_witness :
  ∃ s',
    AcceptExample.acceptOne (AcceptExample.stateAt 0) = Some s'
    ∧ AcceptExample.acceptOne s' = Some s'.
Proof.
  eexists.
  assert (Hrun : AcceptExample.acceptOne (AcceptExample.stateAt 0) = Some _)
    by (vm_compute; reflexivity).
  split; [exact Hrun|].
  match type of Hrun with
  | _ = Some ?s' =>
      apply (proj1 (accepting_again_changes_nothing
                      InterpolatorExample.determine InterpolatorExample.interpolateSlice1
                      InterpolatorExample.overwrite InterpolatorExample.setOrigin
                      InterpolatorExample.timeSelector
                      (AcceptExample.stateAt 0) s' eq_refl) Hrun)
  end.
Defined.

Lemma accept_writes_the_preview_where_the_slicer_stands_witness :
  ∃ s1 s2 written,
    AcceptExample.interpolate 1%nat 0 (SlicesInterpolator.mkSNC 0 2%nat)
      (AcceptExample.stateAt 0) = Some s1
    ∧ AcceptExample.acceptOne s1 = Some s2
    ∧ SlicesInterpolator.images s2 !! 0%nat = Some written
    ∧ SlicesInterpolator.voxels written 0%nat (0, 0, 2)%nat = 7
    ∧ SlicesInterpolator.voxels written 0%nat (0, 0, 1)%nat = 0.
Proof.
  destruct (accept_writes_the_preview_where_the_slicer_stands
              InterpolatorExample.determine InterpolatorExample.interpolateSlice1
              InterpolatorExample.overwrite
              1%nat 0 (SlicesInterpolator.mkSNC 0 2%nat) (AcceptExample.stateAt 0) 0%nat
              (SlicesInterpolator.mkImage InterpolatorExample.geometry3D (λ _ _, 0)) 7)
    as (s1 & s2 & Hfirst & _ & _ & Hsecond & Himages & _); [reflexivity..|].
  exists s1, s2. eexists. split; [exact Hfirst|]. split; [exact Hsecond|].
  rewrite Himages. split; [apply lookup_insert_eq|]. split; reflexivity.
Defined.

Lemma accept_all_on_3D_ignores_the_time_point_witness :
  InterpolatorExample.acceptAll InterpolatorExample.interpolateSlice1
    InterpolatorExample.platform (SlicesInterpolator.mkSNC 5 0%nat)
    (InterpolatorExample.state InterpolatorExample.geometry3D)
  = InterpolatorExample.acceptAll InterpolatorExample.interpolateSlice1
      InterpolatorExample.platform (SlicesInterpolator.mkSNC 0 0%nat)
      (InterpolatorExample.state InterpolatorExample.geometry3D).
Proof.
  apply (accept_all_on_3D_ignores_the_time_point
           InterpolatorExample.determine InterpolatorExample.interpolateSlice1
           InterpolatorExample.overwrite InterpolatorExample.setOrigin
           InterpolatorExample.timeSelector
           InterpolatorExample.platform 0%nat 5 0
           (InterpolatorExample.state InterpolatorExample.geometry3D) 0%nat
           (SlicesInterpolator.mkImage InterpolatorExample.geometry3D (λ _ _, 0)));
    [reflexivity|reflexivity|discriminate].
Defined.

Lemma slice_change_only_previews_witness :
  ∃ w',
    AcceptExample.sliceChanged AcceptExample.slicer AcceptExample.sliceEvent
      AcceptExample.widget = Some w'
    ∧ SlicesInterpolator.images (SliceChange.state w')
      = SlicesInterpolator.images (SliceChange.state AcceptExample.widget)
    ∧ SlicesInterpolator.undoStack (SliceChange.state w') = [].
Proof.
  eexists.
  assert (Hrun : AcceptExample.sliceChanged AcceptExample.slicer AcceptExample.sliceEvent
                   AcceptExample.widget = Some _) by (vm_compute; reflexivity).
  match type of Hrun with
  | _ = Some ?w' =>
      destruct (slice_change_only_previews InterpolatorExample.determine
                  InterpolatorExample.interpolateSlice1 AcceptExample.slicer
                  AcceptExample.sliceEvent AcceptExample.widget w' Hrun)
        as ((Himages & Hstack & _) & _)
  end.
  split; [exact Hrun|]. split; [exact Himages|exact Hstack].
Defined.

Lemma Write_without_extension_takes_any_writer_witness :
  FileWriterManager.extensionOf "Makefile" = EmptyString
  ∧ WriterExample.write true "Makefile" = FileWriterManager.Wrote 3%nat true "Makefile".
Proof.
  apply (Write_without_extension_takes_any_writer (BaseData:=bool)
           WriterExample.references (λ refs, refs) (λ ref : nat, ref) "extension"
           true "Makefile").
  apply find_last_of_none_elim. reflexivity.
Defined.

Lemma Write_dispatches_on_the_last_dot_witness :
  WriterExample.write true "scan.v2.nrrd" = FileWriterManager.Wrote 2%nat true "scan.v2.nrrd".
Proof.
  apply (Write_dispatches_on_the_last_dot (BaseData:=bool)
           WriterExample.references (λ refs, refs) (λ ref : nat, ref) "extension"
           true "scan.v2" "nrrd").
  apply find_last_of_none_elim. reflexivity.
Defined.
